(** * Hex-grid world of the bee simulation: a shallow embedding of
      [src/world/hex_world.c] (with the hex checks of [src/config/params.c]
      and the overlay and drawing code of [src/app/app.c] that reads the
      lattice) and the properties of its specification.

    Conventions of the embedding.
    - A C [float] is an IEEE-754 binary32 value: [spec_float] of the Standard
      Library instantiated at precision 24 and maximal exponent 128.  Every
      C operator is one correctly rounded (to nearest, ties to even)
      operation, which is what a C compiler produces when each operation is
      evaluated in single precision without fused multiply-add.
    - A C [int] is a [Z]; signed arithmetic is not wrapped (overflow of a
      signed [int] is undefined in C).  Conversions to fixed-width types
      ([int16_t], [uint16_t], [uint32_t], [size_t]) are written out as
      reductions modulo a power of two; [size_t] has 64 bits.
    - A pointer that may be null is an [option]; the tile array of a world
      is [option (list HexTile)].
    - [calloc] is a parameter [alloc : Z -> bool] telling whether a request
      for that many tiles succeeds. *)

From Stdlib Require Import ZArith QArith Qpower Zpower List Bool Lia Field.
From Stdlib Require Import Floats.SpecFloat.
Import ListNotations.
Local Open Scope Z_scope.

(** ** Single-precision floating point *)

Module F32.

Definition prec : Z := 24.
Definition emax : Z := 128.

Definition f32 : Type := spec_float.

Definition add : f32 -> f32 -> f32 := SFadd prec emax.
Definition sub : f32 -> f32 -> f32 := SFsub prec emax.
Definition mul : f32 -> f32 -> f32 := SFmul prec emax.
Definition div : f32 -> f32 -> f32 := SFdiv prec emax.
Definition sqrtf : f32 -> f32 := SFsqrt prec emax.
Definition neg : f32 -> f32 := SFopp.
Definition fabsf : f32 -> f32 := SFabs.

(** Comparisons; every comparison with a NaN is false. *)
Definition ltb (a b : f32) : bool := SFltb a b.
Definition leb (a b : f32) : bool := SFleb a b.
Definition gtb (a b : f32) : bool := SFltb b a.
Definition geb (a b : f32) : bool := SFleb b a.
Definition eqb (a b : f32) : bool := SFeqb a b.

(** [(float)z] for an integer [z]. *)
Definition of_int (z : Z) : f32 := binary_normalize prec emax z 0 false.

Definition is_nan (a : f32) : bool :=
  match a with S754_nan => true | _ => false end.

(** [fmaxf]: the larger argument; a NaN argument is ignored. *)
Definition fmaxf (a b : f32) : f32 :=
  if is_nan a then b
  else if is_nan b then a
  else if ltb a b then b else a.

(** Nearest integer, ties to even, of [m * 2^e] for [m >= 0]. *)
Definition round_half_even (m : Z) (e : Z) : Z :=
  if 0 <=? e then m * 2 ^ e
  else
    let d := 2 ^ (- e) in
    let q := m / d in
    let r := m mod d in
    match Z.compare (2 * r) d with
    | Lt => q
    | Gt => q + 1
    | Eq => if Z.even q then q else q + 1
    end.

Definition LONG_MIN : Z := - 2 ^ 63.
Definition LONG_MAX : Z := 2 ^ 63 - 1.

(** [lrintf] in the default rounding mode.  For a NaN, an infinity or a
    value outside [long] the C result is unspecified; the model returns
    what x86-64 returns, [LONG_MIN]. *)
Definition lrintf (a : f32) : Z :=
  match a with
  | S754_zero _ => 0
  | S754_finite s m e =>
      let z := round_half_even (Zpos m) e in
      let z := if s then - z else z in
      if (LONG_MIN <=? z) && (z <=? LONG_MAX) then z else LONG_MIN
  | _ => LONG_MIN
  end.

(** Constants of the source, as mantissa and exponent of the binary32
    value nearest to the decimal literal. *)
Definition zero : f32 := S754_zero false.
Definition c0_5 : f32 := S754_finite false 8388608 (-24).
Definition c1_0 : f32 := S754_finite false 8388608 (-23).
Definition c1_5 : f32 := S754_finite false 12582912 (-23).
Definition c2_0 : f32 := S754_finite false 8388608 (-22).
Definition c3_0 : f32 := S754_finite false 12582912 (-22).
(** 1.7320508075688772f = 0x3fddb3d7 *)
Definition SQRT3 : f32 := S754_finite false 14529495 (-23).
(** 0.68f = 0x3f2e147b *)
Definition c0_68 : f32 := S754_finite false 11408507 (-24).
Definition c240 : f32 := S754_finite false 15728640 (-16).
Definition c60 : f32 := S754_finite false 15728640 (-18).
(** 0.55f = 0x3f0ccccd, 0.4f = 0x3ecccccd, 0.35f = 0x3eb33333,
    0.95f = 0x3f733333 *)
Definition c0_55 : f32 := S754_finite false 9227469 (-24).
Definition c0_4 : f32 := S754_finite false 13421773 (-25).
Definition c0_35 : f32 := S754_finite false 11744051 (-25).
Definition c0_95 : f32 := S754_finite false 15938355 (-24).
Definition c4_5 : f32 := S754_finite false 9437184 (-21).
(** 0.04f = 0x3d23d70a, 0.08f = 0x3da3d70a, 0.18f = 0x3e3851ec *)
Definition c0_04 : f32 := S754_finite false 10737418 (-28).
Definition c0_08 : f32 := S754_finite false 10737418 (-27).
Definition c0_18 : f32 := S754_finite false 12079596 (-26).
Definition c30 : f32 := S754_finite false 15728640 (-19).
(** 0.3f = 0x3e99999a, 0.8f = 0x3f4ccccd, 1.2f = 0x3f99999a *)
Definition c0_3 : f32 := S754_finite false 10066330 (-25).
Definition c0_8 : f32 := S754_finite false 13421773 (-24).
Definition c1_2 : f32 := S754_finite false 10066330 (-23).
Definition c8 : f32 := S754_finite false 8388608 (-20).
Definition c35 : f32 := S754_finite false 9175040 (-18).
Definition c26 : f32 := S754_finite false 13631488 (-19).
Definition c18 : f32 := S754_finite false 9437184 (-19).
Definition c6 : f32 := S754_finite false 12582912 (-21).

End F32.

Import F32.

Declare Scope f32_scope.
Delimit Scope f32_scope with f32.
Infix "+" := F32.add : f32_scope.
Infix "-" := F32.sub : f32_scope.
Infix "*" := F32.mul : f32_scope.
Infix "/" := F32.div : f32_scope.
Infix "<?" := F32.ltb : f32_scope.
Infix "<=?" := F32.leb : f32_scope.
Infix ">?" := F32.gtb : f32_scope.
Infix ">=?" := F32.geb : f32_scope.

(** ** Fixed-width integers *)

Definition to_uint32 (z : Z) : Z := z mod 2 ^ 32.
Definition to_uint16 (z : Z) : Z := z mod 2 ^ 16.
Definition to_int16 (z : Z) : Z := (z + 2 ^ 15) mod 2 ^ 16 - 2 ^ 15.
Definition to_int32 (z : Z) : Z := (z + 2 ^ 31) mod 2 ^ 32 - 2 ^ 31.
Definition to_size_t (z : Z) : Z := z mod 2 ^ 64.
Definition SIZE_MAX : Z := 2 ^ 64 - 1.
Definition INT16_MIN : Z := - 32768.
Definition INT16_MAX : Z := 32767.

(** ** Data model ([include/hex.h], [include/params.h]) *)

Inductive HexTerrain : Type :=
| HEX_TERRAIN_OPEN
| HEX_TERRAIN_FOREST
| HEX_TERRAIN_MOUNTAIN
| HEX_TERRAIN_WATER
| HEX_TERRAIN_HIVE
| HEX_TERRAIN_FLOWERS
| HEX_TERRAIN_ENTRANCE.

Definition HEX_TILE_VISIBLE : Z := 1.

Record HexTile : Type := mkHexTile {
  q : Z;
  r : Z;
  terrain : HexTerrain;
  nectar_stock : f32;
  nectar_capacity : f32;
  nectar_recharge_rate : f32;
  flow_capacity : f32;
  center_x : f32;
  center_y : f32;
  flags : Z
}.

Record HexWorld : Type := mkHexWorld {
  cell_size : f32;
  origin_x : f32;
  origin_y : f32;
  q_min : Z;
  q_max : Z;
  r_min : Z;
  r_max : Z;
  width : Z;
  height : Z;
  count : Z;
  tiles : option (list HexTile)
}.

(** The [hive] and [hex] groups of [Params]; the other fields are not read
    by the hex world. *)
Record HiveParams : Type := mkHiveParams {
  rect_x : f32;
  rect_y : f32;
  rect_w : f32;
  rect_h : f32;
  entrance_side : Z;
  entrance_t : f32;
  entrance_width : f32
}.

Record HexParams : Type := mkHexParams {
  enabled : bool;
  hex_cell_size : f32;
  hex_origin_x : f32;
  hex_origin_y : f32;
  hex_q_min : Z;
  hex_q_max : Z;
  hex_r_min : Z;
  hex_r_max : Z
}.

Record Params : Type := mkParams {
  hive : HiveParams;
  hex : HexParams
}.

(** The tile after [calloc]: every byte zero. *)
Definition zero_tile : HexTile :=
  mkHexTile 0 0 HEX_TERRAIN_OPEN zero zero zero zero zero zero 0.

(** The world after [memset(world, 0, sizeof *world)]. *)
Definition zero_world : HexWorld :=
  mkHexWorld zero zero zero 0 0 0 0 0 0 0 None.

(** ** Operations ([src/world/hex_world.c]) *)

Definition clampf (v lo hi : f32) : f32 :=
  if (v <? lo)%f32 then lo
  else if (v >? hi)%f32 then hi
  else v.

(** The avalanche hash of [pseudo_noise01], on 32-bit unsigned words. *)
Definition noise_hash (q r : Z) : Z :=
  let h := Z.lxor (to_uint32 (to_uint32 q * 73856093))
                  (to_uint32 (to_uint32 r * 19349663)) in
  let h := Z.lxor h (Z.shiftr h 13) in
  let h := to_uint32 (h * 0x5bd1e995) in
  Z.lxor h (Z.shiftr h 15).

Definition pseudo_noise01 (q r : Z) : f32 :=
  (of_int (Z.land (noise_hash q r) 0xFFFFFF) / of_int 0x1000000)%f32.

Definition hex_world_init (world : option HexWorld) : option HexWorld :=
  match world with
  | None => None
  | Some _ => Some zero_world
  end.

Definition hex_world_destroy (world : option HexWorld) : option HexWorld :=
  match world with
  | None => None
  | Some _ => Some zero_world
  end.

Section TileUpdates.

Definition set_terrain (t : HexTile) (v : HexTerrain) : HexTile :=
  mkHexTile (q t) (r t) v (nectar_stock t) (nectar_capacity t)
            (nectar_recharge_rate t) (flow_capacity t)
            (center_x t) (center_y t) (flags t).

Definition set_nectar_stock (t : HexTile) (v : f32) : HexTile :=
  mkHexTile (q t) (r t) (terrain t) v (nectar_capacity t)
            (nectar_recharge_rate t) (flow_capacity t)
            (center_x t) (center_y t) (flags t).

Definition set_nectar_capacity (t : HexTile) (v : f32) : HexTile :=
  mkHexTile (q t) (r t) (terrain t) (nectar_stock t) v
            (nectar_recharge_rate t) (flow_capacity t)
            (center_x t) (center_y t) (flags t).

Definition set_nectar_recharge_rate (t : HexTile) (v : f32) : HexTile :=
  mkHexTile (q t) (r t) (terrain t) (nectar_stock t) (nectar_capacity t)
            v (flow_capacity t) (center_x t) (center_y t) (flags t).

Definition set_flow_capacity (t : HexTile) (v : f32) : HexTile :=
  mkHexTile (q t) (r t) (terrain t) (nectar_stock t) (nectar_capacity t)
            (nectar_recharge_rate t) v (center_x t) (center_y t) (flags t).

Definition set_flags (t : HexTile) (v : Z) : HexTile :=
  mkHexTile (q t) (r t) (terrain t) (nectar_stock t) (nectar_capacity t)
            (nectar_recharge_rate t) (flow_capacity t)
            (center_x t) (center_y t) v.

End TileUpdates.

(** The first six assignments of [assign_tile_defaults]. *)
Definition tile_defaults (tile : HexTile) : HexTile :=
  let t := set_terrain tile HEX_TERRAIN_OPEN in
  let t := set_nectar_capacity t zero in
  let t := set_nectar_stock t zero in
  let t := set_nectar_recharge_rate t zero in
  let t := set_flow_capacity t c8 in
  set_flags t HEX_TILE_VISIBLE.

Definition hive_enabled (p : Params) : bool :=
  (rect_w (hive p) >? zero)%f32 && (rect_h (hive p) >? zero)%f32.

(** The cell centre lies in the colony rectangle, borders included. *)
Definition in_hive_rect (p : Params) (tile : HexTile) : bool :=
  let h := hive p in
  (center_x tile >=? rect_x h)%f32 &&
  (center_x tile <=? rect_x h + rect_w h)%f32 &&
  (center_y tile >=? rect_y h)%f32 &&
  (center_y tile <=? rect_y h + rect_h h)%f32.

(** The entrance anchor chosen by the [switch] on [entrance_side]. *)
Definition entrance_anchor (p : Params) : f32 * f32 :=
  let h := hive p in
  let t := clampf (entrance_t h) zero c1_0 in
  match entrance_side h with
  | 0 => ((rect_x h + t * rect_w h)%f32, rect_y h)
  | 1 => ((rect_x h + t * rect_w h)%f32, (rect_y h + rect_h h)%f32)
  | 2 => (rect_x h, (rect_y h + t * rect_h h)%f32)
  | 3 => ((rect_x h + rect_w h)%f32, (rect_y h + t * rect_h h)%f32)
  | _ => (rect_x h, rect_y h)
  end.

Definition entrance_axial_ok (p : Params) (world : HexWorld) (tile : HexTile) : bool :=
  let h := hive p in
  let '(entrance_x, entrance_y) := entrance_anchor p in
  let dx := (center_x tile - entrance_x)%f32 in
  let dy := (center_y tile - entrance_y)%f32 in
  let axial_extent :=
    if (entrance_width h >? zero)%f32
    then (entrance_width h * c0_5)%f32
    else cell_size world in
  if (entrance_side h =? 0) || (entrance_side h =? 1)
  then (fabsf dx <=? axial_extent)%f32
  else (fabsf dy <=? axial_extent)%f32.

Definition entrance_radial_ok (p : Params) (world : HexWorld) (tile : HexTile) : bool :=
  let h := hive p in
  let '(entrance_x, entrance_y) := entrance_anchor p in
  let entrance_half := (entrance_width h * c0_5)%f32 in
  let dx := (center_x tile - entrance_x)%f32 in
  let dy := (center_y tile - entrance_y)%f32 in
  let entrance_dist := sqrtf (dx * dx + dy * dy)%f32 in
  let radial_limit := fmaxf (cell_size world * c1_2)%f32 entrance_half in
  (entrance_dist <=? radial_limit)%f32.

(** Distance of the cell centre from the lattice origin. *)
Definition origin_dist (world : HexWorld) (tile : HexTile) : f32 :=
  let local_x := (center_x tile - origin_x world)%f32 in
  let local_y := (center_y tile - origin_y world)%f32 in
  sqrtf (local_x * local_x + local_y * local_y)%f32.

(** The part of [assign_tile_defaults] after the colony rules: the flower
    patch, the noise bands and the default. *)
Definition assign_by_noise (world : HexWorld) (t : HexTile) : HexTile :=
  let dist := origin_dist world t in
  let noise := pseudo_noise01 (q t) (r t) in
  if (dist >? cell_size world * c8)%f32 && (noise >? c0_68)%f32 then
    let t := set_terrain t HEX_TERRAIN_FLOWERS in
    let t := set_nectar_capacity t (c240 + c60 * noise)%f32 in
    let t := set_nectar_stock t
               (nectar_capacity t *
                clampf (c0_55 + c0_4 * (noise - c0_68)) c0_35 c0_95)%f32 in
    let t := set_nectar_recharge_rate t (c4_5 + c2_0 * (noise - c0_68))%f32 in
    set_flow_capacity t c18
  else if (noise <? c0_04)%f32 then
    set_flow_capacity (set_terrain t HEX_TERRAIN_WATER) c2_0
  else if (noise <? c0_08)%f32 then
    set_flow_capacity (set_terrain t HEX_TERRAIN_MOUNTAIN) c1_5
  else if (noise <? c0_18)%f32 then
    let t := set_terrain t HEX_TERRAIN_FOREST in
    let t := set_flow_capacity t c6 in
    let t := set_nectar_capacity t c30 in
    let t := set_nectar_stock t (nectar_capacity t * c0_3)%f32 in
    set_nectar_recharge_rate t c0_8
  else t.

Definition assign_tile_defaults (params : option Params) (world : HexWorld)
    (tile : HexTile) : HexTile :=
  let t := tile_defaults tile in
  match params with
  | None => t
  | Some p =>
      if hive_enabled p then
        if in_hive_rect p t then
          set_flow_capacity (set_terrain t HEX_TERRAIN_HIVE) c35
        else if entrance_axial_ok p world t && entrance_radial_ok p world t then
          set_flow_capacity (set_terrain t HEX_TERRAIN_ENTRANCE) c26
        else assign_by_noise world t
      else assign_by_noise world t
  end.

(** The integers [lo, lo+1, ..., lo+n-1]: the values taken by a loop
    variable that starts at [lo] and is incremented [n] times. *)
Definition zrange (lo : Z) (n : nat) : list Z :=
  map (fun i => lo + Z.of_nat i) (seq 0 n).

(** The body of the inner loop of [hex_world_create] for one cell. *)
Definition make_tile (params : Params) (world : HexWorld) (qv rv : Z) : HexTile :=
  let cx := ((SQRT3 * cell_size world) * (of_int qv + of_int rv * c0_5))%f32 in
  let cy := ((c1_5 * cell_size world) * of_int rv)%f32 in
  let tile :=
    mkHexTile (to_int16 qv) (to_int16 rv) HEX_TERRAIN_OPEN zero zero zero zero
              (origin_x world + cx)%f32 (origin_y world + cy)%f32 0 in
  assign_tile_defaults (Some params) world tile.

(** The two nested loops: [r] outer, [q] inner, tiles stored in order. *)
Definition build_tiles (params : Params) (world : HexWorld)
    (qlo : Z) (qn : nat) (rlo : Z) (rn : nat) : list HexTile :=
  flat_map (fun rv => map (fun qv => make_tile params world qv rv) (zrange qlo qn))
           (zrange rlo rn).

(** [hex_world_create].  The result is the returned flag and the world left
    behind the pointer ([None] for a null pointer). *)
Definition hex_world_create (alloc : Z -> bool) (world : option HexWorld)
    (params : option Params) : bool * option HexWorld :=
  match world with
  | None => (false, None)
  | Some _ =>
      match hex_world_init (hex_world_destroy world) with
      | None => (false, None)
      | Some w =>
          match params with
          | None => (true, Some w)
          | Some p =>
              if negb (enabled (hex p)) then (true, Some w)
              else
                let qmin := hex_q_min (hex p) in
                let qmax := hex_q_max (hex p) in
                let rmin := hex_r_min (hex p) in
                let rmax := hex_r_max (hex p) in
                let q_span := qmax - qmin + 1 in
                let r_span := rmax - rmin + 1 in
                if (q_span <=? 0) || (r_span <=? 0) then (false, Some w)
                else
                  let cnt := to_size_t (to_size_t q_span * to_size_t r_span) in
                  let w :=
                    mkHexWorld (hex_cell_size (hex p)) (hex_origin_x (hex p))
                               (hex_origin_y (hex p))
                               (to_int16 qmin) (to_int16 qmax)
                               (to_int16 rmin) (to_int16 rmax)
                               (to_uint16 q_span) (to_uint16 r_span)
                               cnt (tiles w) in
                  if cnt =? 0 then (true, Some w)
                  else if negb (alloc cnt) then (false, Some w)
                  else
                    let ts := build_tiles p w qmin (Z.to_nat q_span)
                                          rmin (Z.to_nat r_span) in
                    (true,
                     Some (mkHexWorld (cell_size w) (origin_x w) (origin_y w)
                                      (q_min w) (q_max w) (r_min w) (r_max w)
                                      (width w) (height w) (count w) (Some ts)))
          end
      end
  end.

Definition hex_world_in_bounds (world : option HexWorld) (qv rv : Z) : bool :=
  match world with
  | None => false
  | Some w =>
      match tiles w with
      | None => false
      | Some _ =>
          (qv >=? q_min w) && (qv <=? q_max w) &&
          (rv >=? r_min w) && (rv <=? r_max w)
      end
  end.

Definition hex_world_index (world : option HexWorld) (qv rv : Z) : Z :=
  if negb (hex_world_in_bounds world qv rv) then SIZE_MAX
  else
    match world with
    | None => SIZE_MAX
    | Some w =>
        let qi := to_size_t (qv - q_min w) in
        let ri := to_size_t (rv - r_min w) in
        to_size_t (ri * to_size_t (width w) + qi)
    end.

(** [&world->tiles[index]]: the tile at that position of the array. *)
Definition hex_world_tile (world : option HexWorld) (qv rv : Z) : option HexTile :=
  let index := hex_world_index world qv rv in
  if index =? SIZE_MAX then None
  else
    match world with
    | None => None
    | Some w =>
        match tiles w with
        | None => None
        | Some ts => nth_error ts (Z.to_nat index)
        end
    end.

(** The values stored through [out_x] and [out_y]. *)
Definition hex_axial_to_world (world : option HexWorld) (qv rv : Z) : f32 * f32 :=
  match world with
  | None => (zero, zero)
  | Some w =>
      match tiles w with
      | None => (zero, zero)
      | Some _ =>
          let x := ((SQRT3 * cell_size w) * (of_int qv + of_int rv * c0_5)
                    + origin_x w)%f32 in
          let y := ((c1_5 * cell_size w) * of_int rv + origin_y w)%f32 in
          (x, y)
      end
  end.

Definition hex_world_to_axial_f (world : option HexWorld) (world_x world_y : f32)
    : f32 * f32 :=
  match world with
  | None => (zero, zero)
  | Some w =>
      if (cell_size w <=? zero)%f32 then (zero, zero)
      else
        let x := (world_x - origin_x w)%f32 in
        let y := (world_y - origin_y w)%f32 in
        let qf := ((SQRT3 / c3_0 * x - c1_0 / c3_0 * y) / cell_size w)%f32 in
        let rf := ((c2_0 / c3_0 * y) / cell_size w)%f32 in
        (qf, rf)
  end.

(** The three rounding errors compared by [hex_axial_round]. *)
Definition round_diffs (qf rf : f32) : f32 * f32 * f32 :=
  let sf := (neg qf - rf)%f32 in
  let qi := to_int32 (lrintf qf) in
  let ri := to_int32 (lrintf rf) in
  let si := to_int32 (lrintf sf) in
  (fabsf (of_int qi - qf)%f32, fabsf (of_int ri - rf)%f32,
   fabsf (of_int si - sf)%f32).

Definition hex_axial_round (qf rf : f32) : Z * Z :=
  let sf := (neg qf - rf)%f32 in
  let qi := to_int32 (lrintf qf) in
  let ri := to_int32 (lrintf rf) in
  let si := to_int32 (lrintf sf) in
  let '(q_diff, r_diff, s_diff) := round_diffs qf rf in
  if (q_diff >? r_diff)%f32 && (q_diff >? s_diff)%f32 then (- ri - si, ri)
  else if (r_diff >? s_diff)%f32 then (qi, - qi - si)
  else (qi, ri).

(** [hex_world_pick]: [Some (q, r, index)] when the function returns true,
    with the values stored through the three out-pointers. *)
Definition hex_world_pick (world : option HexWorld) (world_x world_y : f32)
    : option (Z * Z * Z) :=
  match world with
  | None => None
  | Some w =>
      match tiles w with
      | None => None
      | Some _ =>
          let '(qf, rf) := hex_world_to_axial_f world world_x world_y in
          let '(qv, rv) := hex_axial_round qf rf in
          if negb (hex_world_in_bounds world qv rv) then None
          else
            let index := hex_world_index world qv rv in
            if index =? SIZE_MAX then None
            else Some (qv, rv, index)
      end
  end.

(** The hex checks of [params_validate] ([src/config/params.c]). *)
Definition params_validate_hex (p : Params) : bool :=
  let h := hex p in
  if enabled h then
    if (hex_cell_size h <=? zero)%f32 then false
    else if hex_q_min h >? hex_q_max h then false
    else if hex_r_min h >? hex_r_max h then false
    else if (hex_q_min h <? INT16_MIN) || (hex_q_max h >? INT16_MAX) ||
            (hex_r_min h <? INT16_MIN) || (hex_r_max h >? INT16_MAX) then false
    else
      let q_span := hex_q_max h - hex_q_min h + 1 in
      let r_span := hex_r_max h - hex_r_min h + 1 in
      if (q_span <=? 0) || (r_span <=? 0) then false
      else if (q_span >? 65535) || (r_span >? 65535) then false
      else true
  else true.

(** The lattice of the specification's example: cell size 48, origin
    (0,0), q and r in [-2,2], no colony placement. *)
Definition example_params : Params :=
  mkParams (mkHiveParams zero zero zero zero 0 zero zero)
           (mkHexParams true (of_int 48) zero zero (-2) 2 (-2) 2).

Definition example_world : option HexWorld :=
  snd (hex_world_create (fun _ => true) (Some zero_world) (Some example_params)).

(** ** Auxiliary definitions used to state the properties *)

(** The three cube coordinates as rounded by [hex_axial_round], before the
    correction. *)
Definition rounded_cube (qf rf : f32) : Z * Z * Z :=
  let sf := (neg qf - rf)%f32 in
  (to_int32 (lrintf qf), to_int32 (lrintf rf), to_int32 (lrintf sf)).

(** The result [hex_axial_round] would give if it recomputed [q] from the
    other two coordinates. *)
Definition q_recomputed (qf rf : f32) : Z * Z :=
  let '(_, ri, si) := rounded_cube qf rf in (- ri - si, ri).

Definition r_recomputed (qf rf : f32) : Z * Z :=
  let '(qi, _, si) := rounded_cube qf rf in (qi, - qi - si).

Definition none_recomputed (qf rf : f32) : Z * Z :=
  let '(qi, ri, _) := rounded_cube qf rf in (qi, ri).

(** Axial to world, world to fractional axial, cube rounding. *)
Definition round_trip (world : option HexWorld) (qv rv : Z) : Z * Z :=
  let '(x, y) := hex_axial_to_world world qv rv in
  let '(qf, rf) := hex_world_to_axial_f world x y in
  hex_axial_round qf rf.

(** The spans and the tile count computed by [hex_world_create]. *)
Definition q_span_of (p : Params) : Z := hex_q_max (hex p) - hex_q_min (hex p) + 1.
Definition r_span_of (p : Params) : Z := hex_r_max (hex p) - hex_r_min (hex p) + 1.
Definition count_of (p : Params) : Z :=
  to_size_t (to_size_t (q_span_of p) * to_size_t (r_span_of p)).

(** The fields of a world lie in the ranges of their C types. *)
Definition world_wf (w : HexWorld) : Prop :=
  INT16_MIN <= q_min w <= INT16_MAX /\ INT16_MIN <= q_max w <= INT16_MAX /\
  INT16_MIN <= r_min w <= INT16_MAX /\ INT16_MIN <= r_max w <= INT16_MAX /\
  0 <= width w < 2 ^ 16 /\ 0 <= height w < 2 ^ 16.

(** The configuration is present, enabled and has a non-positive span. *)
Definition bad_span (params : option Params) : Prop :=
  exists p, params = Some p /\ enabled (hex p) = true /\
            (q_span_of p <= 0 \/ r_span_of p <= 0).

(** The configuration is present and enabled, both spans are positive, and
    the request for the tile array is refused. *)
Definition alloc_fails (alloc : Z -> bool) (params : option Params) : Prop :=
  exists p, params = Some p /\ enabled (hex p) = true /\
            0 < q_span_of p /\ 0 < r_span_of p /\
            count_of p <> 0 /\ alloc (count_of p) = false.

(** The world and the tile array of the example lattice. *)
Definition example_lattice : HexWorld :=
  match example_world with Some w => w | None => zero_world end.

Definition example_tiles : list HexTile :=
  match tiles example_lattice with Some ts => ts | None => [] end.

(** [(int)ceilf(a)] for a finite [a] whose ceiling fits an [int]. *)
Definition int_of_ceilf (a : f32) : Z :=
  match a with
  | S754_finite s m e =>
      if 0 <=? e then (if s then - (Zpos m * 2 ^ e) else Zpos m * 2 ^ e)
      else if s then - (Zpos m / 2 ^ (- e))
      else - ((- Zpos m) / 2 ^ (- e))
  | _ => 0
  end.

(** The [hive] and [hex] groups written by [params_init_defaults]
    ([src/config/params.c]); the window is 1280 by 720 pixels and the world
    has the size of the window. *)
Definition params_init_defaults : Params :=
  let world_width_px := of_int 1280 in
  let world_height_px := of_int 720 in
  let hv := mkHiveParams (of_int 200) (of_int 200) (of_int 400) (of_int 260)
                         1 c0_5 (of_int 120) in
  let cell := of_int 48 in
  let world_w :=
    if (world_width_px >? zero)%f32 then world_width_px else of_int 1280 in
  let world_h :=
    if (world_height_px >? zero)%f32 then world_height_px else of_int 720 in
  let col_spacing := (SQRT3 * cell)%f32 in
  let row_spacing := (c1_5 * cell)%f32 in
  let col_spacing := if (col_spacing <=? zero)%f32 then c1_0 else col_spacing in
  let row_spacing := if (row_spacing <=? zero)%f32 then c1_0 else row_spacing in
  let q_extent := int_of_ceilf ((world_w * c0_5) / col_spacing)%f32 + 2 in
  let r_extent := int_of_ceilf ((world_h * c0_5) / row_spacing)%f32 + 2 in
  let q_extent := if q_extent <? 1 then 1 else q_extent in
  let r_extent := if r_extent <? 1 then 1 else r_extent in
  mkParams hv
    (mkHexParams true cell (world_w * c0_5)%f32 (world_h * c0_5)%f32
                 (- q_extent) q_extent (- r_extent) r_extent).

(** The lattice of the default configuration: cell size 48, origin
    (640,360), q in [-10,10], r in [-7,7], colony rectangle
    (200,200,400,260) with its entrance in the middle of the bottom side. *)
Definition default_lattice : HexWorld :=
  match snd (hex_world_create (fun _ => true) (Some zero_world)
               (Some params_init_defaults)) with
  | Some w => w
  | None => zero_world
  end.

Definition default_tiles : list HexTile :=
  match tiles default_lattice with Some ts => ts | None => [] end.



Definition round_trip_ok (world : option HexWorld) (qv rv : Z) : bool :=
  let '(a, b) := round_trip world qv rv in (a =? qv) && (b =? rv).

(** [f] holds of every cell of the bounding box of [w]. *)
Definition all_cells (w : HexWorld) (f : Z -> Z -> bool) : bool :=
  forallb (fun rv =>
             forallb (fun qv => f qv rv)
                     (zrange (q_min w) (Z.to_nat (q_max w - q_min w + 1))))
          (zrange (r_min w) (Z.to_nat (r_max w - r_min w + 1))).

(** A capacity that grows from the base 240 in proportion to the excess of
    the noise over 0.68, with the given slope. *)
Definition capacity_scaled_by_excess (slope noise : f32) : f32 :=
  (c240 + slope * (noise - c0_68))%f32.

(** The resource triple that the flower rule of [assign_tile_defaults]
    computes from a noise value. *)
Definition flowers_capacity (noise : f32) : f32 := (c240 + c60 * noise)%f32.
Definition flowers_stock (noise : f32) : f32 :=
  (flowers_capacity noise *
   clampf (c0_55 + c0_4 * (noise - c0_68)) c0_35 c0_95)%f32.
Definition flowers_recharge (noise : f32) : f32 :=
  (c4_5 + c2_0 * (noise - c0_68))%f32.

(** ** Rounding to single precision, as arithmetic on integers *)

(** The exponent of the binary32 numbers whose value has [e] binary digits
    before the point: [fexp] of the Standard Library at precision 24. *)
Definition fexp32 (e : Z) : Z := Z.max (e - 24) (-149).

(** [m / 2^n] rounded to the nearest integer, ties to even ([0 <= m]). *)
Definition rne_shift (m n : Z) : Z :=
  if n <=? 0 then m
  else
    let qt := m / 2 ^ n in
    let rm := m mod 2 ^ n in
    let h := 2 ^ (n - 1) in
    if rm <? h then qt
    else if h <? rm then qt + 1
    else if Z.even qt then qt else qt + 1.

(** The float with sign [s], mantissa [m] and exponent [e]; an infinity
    when the exponent is too large. *)
Definition mk_float (s : bool) (m e : Z) : f32 :=
  match m with
  | Z0 => S754_zero s
  | Zpos p => if e <=? 104 then S754_finite s p e else S754_infinity s
  | Zneg _ => S754_nan
  end.

(** The binary32 number nearest to [m * 2^e], for [0 < m] and
    [e <= fexp32 (Zdigits2 m + e)]. *)
Definition round_pos (s : bool) (m e : Z) : f32 :=
  let fe := fexp32 (Zdigits2 m + e) in
  let m1 := rne_shift m (fe - e) in
  if m1 =? 2 ^ 24 then mk_float s (2 ^ 23) (fe + 1) else mk_float s m1 fe.

(** [(m1, e1)] and [(m2, e2)] denote [m1 * 2^e1 <= m2 * 2^e2]. *)
Definition dyadic_le (m1 e1 m2 e2 : Z) : Prop :=
  m1 * 2 ^ (e1 - Z.min e1 e2) <= m2 * 2 ^ (e2 - Z.min e1 e2).

(** A finite binary32 number in canonical form. *)
Definition canonical32 (m : positive) (e : Z) : Prop :=
  fexp32 (Zpos (digits2_pos m) + e) = e /\ e <= 104.

(** A binary32 value other than NaN, in canonical form when finite. *)
Definition valid32 (x : f32) : Prop :=
  match x with
  | S754_finite _ m e => canonical32 m e
  | S754_nan => False
  | _ => True
  end.

(** A valid value whose sign bit is clear: +0, a positive number or
    +infinity. *)
Definition nonneg32 (x : f32) : Prop :=
  match x with
  | S754_zero s | S754_infinity s => s = false
  | S754_finite s m e => s = false /\ canonical32 m e
  | S754_nan => False
  end.

(** The mantissa and exponent given to the rounding by [binary_round]. *)
Definition align32 (m : positive) (e : Z) : Z * Z :=
  let fe := fexp32 (Zpos (digits2_pos m) + e) in
  if fe <? e then (Zpos m * 2 ^ (e - fe), fe) else (Zpos m, e).

(** The binary32 number [k / 2^24], for [0 <= k < 2^24]. *)
Definition dyadic24 (k : Z) : f32 :=
  if k =? 0 then zero
  else S754_finite false (Z.to_pos (k * 2 ^ (24 - Zdigits2 k))) (Zdigits2 k - 48).

(** The resource invariant of a cell: [0 <= stock <= capacity], and a zero
    capacity forces a zero stock and a zero recharge rate. *)
Definition resource_invariant (t : HexTile) : Prop :=
  (zero <=? nectar_stock t)%f32 = true /\
  (nectar_stock t <=? nectar_capacity t)%f32 = true /\
  (F32.eqb (nectar_capacity t) zero = true ->
   F32.eqb (nectar_stock t) zero = true /\
   F32.eqb (nectar_recharge_rate t) zero = true).

(** The rational value of a finite binary32 number (0 for the others). *)
Definition to_Q (x : f32) : Q :=
  match x with
  | S754_finite s m e =>
      (inject_Z (if s then Zneg m else Zpos m) * (2 # 1) ^ e)%Q
  | _ => 0%Q
  end.

Definition is_finite32 (x : f32) : bool :=
  match x with
  | S754_zero _ | S754_finite _ _ _ => true
  | _ => false
  end.

(** The noise value as the claim words it: 32-bit wrapping multiplications
    by 73856093 and 19349663, exclusive or, the mix (shift right by 13,
    multiply by 0x5bd1e995, shift right by 15), and the low 24 bits divided
    by 2^24. *)
Definition noise_spec (qv rv : Z) : Q :=
  let h := Z.lxor ((qv mod 2 ^ 32 * 73856093) mod 2 ^ 32)
                  ((rv mod 2 ^ 32 * 19349663) mod 2 ^ 32) in
  let h := Z.lxor h (h / 2 ^ 13) in
  let h := (h * 1540483477) mod 2 ^ 32 in
  let h := Z.lxor h (h / 2 ^ 15) in
  (h mod 2 ^ 24 # 2 ^ 24)%Q.

(** A world that holds tiles, with the given cell size and origin and the
    bounding box [lo, hi] x [lo, hi]. *)
Definition probe_world (cs ox oy : f32) (lo hi : Z) : HexWorld :=
  mkHexWorld cs ox oy lo hi lo hi 0 0 0 (Some []).

(** ** The colour table and the code that reads the lattice
       ([hex_tile_palette], and the overlay code of [src/app/app.c]) *)

Definition HEX_TERRAIN_COUNT : Z := 7.

(** The value of a terrain as stored in the [uint8_t terrain] field. *)
Definition terrain_code (t : HexTerrain) : Z :=
  match t with
  | HEX_TERRAIN_OPEN => 0
  | HEX_TERRAIN_FOREST => 1
  | HEX_TERRAIN_MOUNTAIN => 2
  | HEX_TERRAIN_WATER => 3
  | HEX_TERRAIN_HIVE => 4
  | HEX_TERRAIN_FLOWERS => 5
  | HEX_TERRAIN_ENTRANCE => 6
  end.

(** 0.82f = 0x3f51eb85, 0.85f = 0x3f59999a, 0.65f = 0x3f266666,
    0.56f = 0x3f0f5c29, 0.32f = 0x3ea3d70a, 0.22f = 0x3e6147ae,
    0.45f = 0x3ee66666, 0.9f = 0x3f666666, 0.74f = 0x3f3d70a4,
    0.24f = 0x3e75c28f, 0.94f = 0x3f70a3d7, 0.54f = 0x3f0a3d71,
    1.3f = 0x3fa66666, 1.02f = 0x3f828f5c *)
Definition c0_82 : f32 := S754_finite false 13757317 (-24).
Definition c0_85 : f32 := S754_finite false 14260634 (-24).
Definition c0_65 : f32 := S754_finite false 10905190 (-24).
Definition c0_25 : f32 := S754_finite false 8388608 (-25).
Definition c0_56 : f32 := S754_finite false 9395241 (-24).
Definition c0_32 : f32 := S754_finite false 10737418 (-25).
Definition c0_22 : f32 := S754_finite false 14763950 (-26).
Definition c0_45 : f32 := S754_finite false 15099494 (-25).
Definition c0_75 : f32 := S754_finite false 12582912 (-24).
Definition c0_9 : f32 := S754_finite false 15099494 (-24).
Definition c0_74 : f32 := S754_finite false 12415140 (-24).
Definition c0_24 : f32 := S754_finite false 16106127 (-26).
Definition c0_94 : f32 := S754_finite false 15770583 (-24).
Definition c0_54 : f32 := S754_finite false 9059697 (-24).
Definition c1_3 : f32 := S754_finite false 10905190 (-23).
Definition c1_02 : f32 := S754_finite false 8556380 (-23).

(** The [static const float palette[HEX_TERRAIN_COUNT][4]]. *)
Definition palette : list (list f32) :=
  [ [c0_8; c0_82; c0_85; c0_65];
    [c0_25; c0_56; c0_32; c0_8];
    [c0_5; c0_4; c0_32; c0_8];
    [c0_22; c0_45; c0_85; c0_75];
    [c0_9; c0_74; c0_24; c0_9];
    [c0_94; c0_54; c0_74; c0_85];
    [c0_35; c0_9; c0_95; c0_85] ].

(** [hex_tile_palette]: the array behind [out_rgba] after the call; the
    first four entries are overwritten. *)
Definition hex_tile_palette (terrain : Z) (out_rgba : option (list f32))
    : option (list f32) :=
  let idx := if terrain <? HEX_TERRAIN_COUNT then terrain else 0 in
  match out_rgba with
  | None => None
  | Some out => Some (nth (Z.to_nat idx) palette [] ++ skipn 4 out)
  end.

(** [hex_world_tile_mut]: the same lookup as [hex_world_tile], through a
    pointer that allows writing. *)
Definition hex_world_tile_mut (world : option HexWorld) (qv rv : Z) : option HexTile :=
  let index := hex_world_index world qv rv in
  if index =? SIZE_MAX then None
  else
    match world with
    | None => None
    | Some w =>
        match tiles w with
        | None => None
        | Some ts => nth_error ts (Z.to_nat index)
        end
    end.

Record RenderHexParams : Type := mkRenderHexParams {
  rhp_world : option HexWorld;
  rhp_selected_index : Z;
  rhp_enabled : bool;
  rhp_draw_on_top : bool
}.

Record HexInstance : Type := mkHexInstance {
  inst_center : f32 * f32;
  inst_scale : f32;
  inst_color : list f32
}.

(** The tiles of an array with their positions. *)
Definition indexed (ts : list HexTile) : list (Z * HexTile) :=
  combine (zrange 0 (length ts)) ts.

(** The instance written by the second loop of [hex_draw_render] for the
    visible tile at position [i]. *)
Definition hex_instance (world : HexWorld) (selected_valid : bool)
    (selected_index i : Z) (tile : HexTile) : HexInstance :=
  let scale :=
    match terrain tile with
    | HEX_TERRAIN_ENTRANCE => (cell_size world * c1_02)%f32
    | _ => cell_size world
    end in
  let color :=
    match hex_tile_palette (terrain_code (terrain tile))
            (Some [zero; zero; zero; zero]) with
    | Some c => c
    | None => []
    end in
  let is_selected := selected_valid && (i =? selected_index) in
  let color :=
    if is_selected then
      [clampf (nth 0 color zero * c1_3)%f32 zero c1_0;
       clampf (nth 1 color zero * c1_3)%f32 zero c1_0;
       clampf (nth 2 color zero * c1_3)%f32 zero c1_0;
       c1_0]
    else color in
  mkHexInstance (center_x tile, center_y tile) scale color.

(** The instance array filled by [hex_draw_render] ([src/app/app.c]), or
    [None] when the function returns before it draws.  [ctx_ok] tells
    whether the context pointer is not null, [ensure] whether
    [ensure_capacity] obtains room for that many instances.  The loops run
    over the first [count] tiles. *)
Definition hex_draw_instances (ctx_ok : bool) (ensure : Z -> bool)
    (params : option RenderHexParams) (fb_width fb_height : Z) (cam_zoom : f32)
    : option (list HexInstance) :=
  match params with
  | None => None
  | Some p =>
      if negb ctx_ok || negb (rhp_enabled p) then None
      else
        match rhp_world p with
        | None => None
        | Some world =>
            match tiles world with
            | None => None
            | Some ts =>
                if count world =? 0 then None
                else if (fb_width <=? 0) || (fb_height <=? 0) ||
                        (cam_zoom <=? zero)%f32 then None
                else
                  let total := count world in
                  let visible :=
                    filter (fun it =>
                              negb (Z.land (flags (snd it)) HEX_TILE_VISIBLE =? 0))
                           (firstn (Z.to_nat total) (indexed ts)) in
                  let visible_count := Z.of_nat (length visible) in
                  if visible_count =? 0 then None
                  else if negb (ensure visible_count) then None
                  else
                    let selected_valid :=
                      negb (rhp_selected_index p =? SIZE_MAX) &&
                      (rhp_selected_index p <? count world) in
                    Some (map (fun it =>
                                 hex_instance world selected_valid
                                   (rhp_selected_index p) (fst it) (snd it))
                              visible)
            end
        end
  end.

(** [render_hex_set]: the overlay parameters kept in the render state.
    [state] is [None] when the render or its state is missing. *)
Definition render_hex_set (state : option RenderHexParams)
    (params : option RenderHexParams) : option RenderHexParams :=
  match state with
  | None => None
  | Some _ =>
      match params with
      | None => Some (mkRenderHexParams None SIZE_MAX false false)
      | Some p =>
          let p :=
            match rhp_world p with
            | None => mkRenderHexParams (rhp_world p) (rhp_selected_index p)
                        false (rhp_draw_on_top p)
            | Some _ => p
            end in
          if negb (rhp_enabled p) then
            Some (mkRenderHexParams (rhp_world p) SIZE_MAX (rhp_enabled p)
                    (rhp_draw_on_top p))
          else
            match rhp_world p with
            | None => Some p
            | Some w =>
                if rhp_selected_index p >=? count w then
                  Some (mkRenderHexParams (rhp_world p) SIZE_MAX (rhp_enabled p)
                          (rhp_draw_on_top p))
                else Some p
            end
      end
  end.

(** What [app_refresh_hex_overlay] ([src/app/app.c]) hands over: the
    parameters given to [render_hex_set], the two flags given to
    [ui_set_hex_overlay], the position of the tile given to
    [ui_set_selected_hex] ([None] when the selection is reset), and the
    value of [g_hex_selected_index] afterwards. *)
Record OverlayRefresh : Type := mkOverlayRefresh {
  or_render : RenderHexParams;
  or_show_grid : bool;
  or_draw_on_top : bool;
  or_ui_tile : option Z;
  or_selected_index : Z
}.

Definition app_refresh_hex_overlay (g_hex_show_grid : bool) (g_params : Params)
    (g_hex_world : HexWorld) (g_hex_selected_index : Z)
    (g_hex_draw_on_top : bool) : OverlayRefresh :=
  let grid_requested := g_hex_show_grid && enabled (hex g_params) in
  let grid_active :=
    grid_requested &&
    (match tiles g_hex_world with Some _ => true | None => false end) &&
    (count g_hex_world >? 0) in
  let selected_index :=
    if grid_active && (g_hex_selected_index <? count g_hex_world)
    then g_hex_selected_index else SIZE_MAX in
  let params :=
    mkRenderHexParams (if grid_active then Some g_hex_world else None)
                      selected_index grid_active g_hex_draw_on_top in
  if grid_active && negb (selected_index =? SIZE_MAX) then
    mkOverlayRefresh params grid_requested g_hex_draw_on_top
                     (Some selected_index) g_hex_selected_index
  else
    mkOverlayRefresh params grid_requested g_hex_draw_on_top None SIZE_MAX.

(** [app_rebuild_hex_world] ([src/app/app.c]): the world and the grid flag
    it leaves, and what the final [app_refresh_hex_overlay] hands over. *)
Definition app_rebuild_hex_world (alloc : Z -> bool) (g_hex_world : HexWorld)
    (g_params : Params) (g_hex_show_grid : bool) (g_hex_selected_index : Z)
    (g_hex_draw_on_top : bool) : HexWorld * bool * OverlayRefresh :=
  let w := hex_world_init (hex_world_destroy (Some g_hex_world)) in
  let w :=
    if enabled (hex g_params) then snd (hex_world_create alloc w (Some g_params))
    else w in
  let w := match w with Some w => w | None => zero_world end in
  let show := if negb (enabled (hex g_params)) then false else g_hex_show_grid in
  (w, show,
   app_refresh_hex_overlay show g_params w g_hex_selected_index g_hex_draw_on_top).

(** The flow capacity that [assign_tile_defaults] gives to each terrain. *)
Definition flow_of_terrain (t : HexTerrain) : f32 :=
  match t with
  | HEX_TERRAIN_OPEN => c8
  | HEX_TERRAIN_FOREST => c6
  | HEX_TERRAIN_MOUNTAIN => c1_5
  | HEX_TERRAIN_WATER => c2_0
  | HEX_TERRAIN_HIVE => c35
  | HEX_TERRAIN_FLOWERS => c18
  | HEX_TERRAIN_ENTRANCE => c26
  end.

(** A value between 0 and 1. *)
Definition in_unit (c : f32) : Prop :=
  (zero <=? c)%f32 = true /\ (c <=? c1_0)%f32 = true.

(** The rule of [assign_tile_defaults] that produced a tile, with what it
    stored. *)
Inductive tile_rule (p : Params) (w : HexWorld) (t : HexTile) : Prop :=
| rule_hive :
    hive_enabled p = true -> in_hive_rect p t = true ->
    terrain t = HEX_TERRAIN_HIVE -> flow_capacity t = c35 ->
    nectar_capacity t = zero -> nectar_stock t = zero ->
    nectar_recharge_rate t = zero -> tile_rule p w t
| rule_entrance :
    hive_enabled p = true -> in_hive_rect p t = false ->
    entrance_axial_ok p w t = true -> entrance_radial_ok p w t = true ->
    terrain t = HEX_TERRAIN_ENTRANCE -> flow_capacity t = c26 ->
    nectar_capacity t = zero -> nectar_stock t = zero ->
    nectar_recharge_rate t = zero -> tile_rule p w t
| rule_flowers :
    (origin_dist w t >? cell_size w * c8)%f32 = true ->
    (pseudo_noise01 (q t) (r t) >? c0_68)%f32 = true ->
    terrain t = HEX_TERRAIN_FLOWERS -> flow_capacity t = c18 ->
    tile_rule p w t
| rule_water :
    (pseudo_noise01 (q t) (r t) <? c0_04)%f32 = true ->
    terrain t = HEX_TERRAIN_WATER -> flow_capacity t = c2_0 ->
    nectar_capacity t = zero -> nectar_stock t = zero ->
    nectar_recharge_rate t = zero -> tile_rule p w t
| rule_mountain :
    (pseudo_noise01 (q t) (r t) <? c0_04)%f32 = false ->
    (pseudo_noise01 (q t) (r t) <? c0_08)%f32 = true ->
    terrain t = HEX_TERRAIN_MOUNTAIN -> flow_capacity t = c1_5 ->
    nectar_capacity t = zero -> nectar_stock t = zero ->
    nectar_recharge_rate t = zero -> tile_rule p w t
| rule_forest :
    (pseudo_noise01 (q t) (r t) <? c0_08)%f32 = false ->
    (pseudo_noise01 (q t) (r t) <? c0_18)%f32 = true ->
    terrain t = HEX_TERRAIN_FOREST -> flow_capacity t = c6 ->
    nectar_capacity t = c30 -> nectar_stock t = (c30 * c0_3)%f32 ->
    nectar_recharge_rate t = c0_8 -> tile_rule p w t
| rule_open :
    (pseudo_noise01 (q t) (r t) <? c0_18)%f32 = false ->
    terrain t = HEX_TERRAIN_OPEN -> flow_capacity t = c8 ->
    nectar_capacity t = zero -> nectar_stock t = zero ->
    nectar_recharge_rate t = zero -> tile_rule p w t.

(** A configuration whose cell size is zero: origin (0,0), q and r in
    [-2,2], no colony; and the lattice built from it. *)
Definition flat_params : Params :=
  mkParams (mkHiveParams zero zero zero zero 0 zero zero)
           (mkHexParams true zero zero zero (-2) 2 (-2) 2).

Definition flat_lattice : HexWorld :=
  match snd (hex_world_create (fun _ => true) (Some zero_world)
               (Some flat_params)) with
  | Some w => w
  | None => zero_world
  end.

(** The binary32 number of value [n] or [- n] (sign [s]), for
    [0 < n < 2^24]: the mantissa is [n] shifted to 24 digits. *)
Definition int_float (s : bool) (n : Z) : f32 :=
  S754_finite s (Z.to_pos (n * 2 ^ (24 - Zdigits2 n))) (Zdigits2 n - 24).

(** A configuration whose cell size is not a number: origin (0,0), q and r
    in [-2,2], colony rectangle (0,0,100,100). *)
Definition nan_params : Params :=
  mkParams (mkHiveParams zero zero (of_int 100) (of_int 100) 0 c0_5 zero)
           (mkHexParams true S754_nan zero zero (-2) 2 (-2) 2).

(** [sizeof(HexInstance)]: seven floats. *)
Definition SIZEOF_HEX_INSTANCE : Z := 28.

(** The doubling loop of [ensure_capacity] ([src/app/app.c]) on 64-bit
    words; [fuel] bounds the number of iterations. *)
Fixpoint grow_capacity (fuel : nat) (new_capacity desired : Z) : option Z :=
  if new_capacity <? desired then
    match fuel with
    | O => None
    | S f => grow_capacity f (to_size_t (new_capacity * 2)) desired
    end
  else Some new_capacity.

(** [ensure_capacity]: the flag returned and the capacity left in the
    context; [realloc] tells whether a request for that many bytes
    succeeds.  [None] when the loop has not ended within [fuel]
    iterations. *)
Definition ensure_capacity (fuel : nat) (realloc : Z -> bool)
    (capacity desired : Z) : option (bool * Z) :=
  if desired =? 0 then Some (true, capacity)
  else if desired <=? capacity then Some (true, capacity)
  else
    let new_capacity := if capacity =? 0 then 256 else capacity in
    match grow_capacity fuel new_capacity desired with
    | None => None
    | Some new_capacity =>
        if negb (realloc (to_size_t (new_capacity * SIZEOF_HEX_INSTANCE)))
        then Some (false, capacity)
        else Some (true, new_capacity)
    end.

(** * Properties *)

(** ** Coordinate conversion on an empty lattice *)

(** C10: [hex_axial_to_world] stores (0,0) for every (q,r) when the world
    pointer is null or the world holds no tile array, whatever its cell size
    and origin; when the world holds tiles the result is the affine
    transform of the cell. *)
Theorem C10_axial_to_world_empty :
  forall (qv rv : Z),
    hex_axial_to_world None qv rv = (zero, zero) /\
    (forall w, tiles w = None ->
       hex_axial_to_world (Some w) qv rv = (zero, zero)) /\
    (forall w ts, tiles w = Some ts ->
       hex_axial_to_world (Some w) qv rv =
       (((SQRT3 * cell_size w) * (of_int qv + of_int rv * c0_5) + origin_x w)%f32,
        ((c1_5 * cell_size w) * of_int rv + origin_y w)%f32)).
Proof.
  intros qv rv. split; [reflexivity|]. split.
  - intros w Hw. unfold hex_axial_to_world. rewrite Hw. reflexivity.
  - intros w ts Hw. unfold hex_axial_to_world. rewrite Hw. reflexivity.
Qed.

(** ** Cube rounding *)

Lemma SFcompare_antisym : forall a b : f32,
  SFcompare b a = option_map CompOpp (SFcompare a b).
Proof.
  intros [sa|sa| |sa ma ea] [sb|sb| |sb mb eb]; simpl; try reflexivity;
    try (destruct sa; reflexivity); try (destruct sb; reflexivity);
    try (destruct sa, sb; reflexivity).
  destruct sa, sb; simpl; try reflexivity;
    rewrite (Z.compare_antisym ea eb); destruct (ea ?= eb); simpl;
    try reflexivity; rewrite (Pos.compare_cont_antisym ma mb Eq); simpl;
    try rewrite CompOpp_involutive; reflexivity.
Qed.

Lemma gtb_false_of_leb : forall a b : f32,
  (a <=? b)%f32 = true -> (a >? b)%f32 = false.
Proof.
  intros a b. unfold F32.leb, F32.gtb, SFleb, SFltb.
  rewrite (SFcompare_antisym a b).
  destruct (SFcompare a b) as [[| |]|]; simpl; congruence.
Qed.

Lemma hex_axial_round_cases : forall qf rf,
  let '(q_diff, r_diff, s_diff) := round_diffs qf rf in
  hex_axial_round qf rf =
  if (q_diff >? r_diff)%f32 && (q_diff >? s_diff)%f32 then q_recomputed qf rf
  else if (r_diff >? s_diff)%f32 then r_recomputed qf rf
  else none_recomputed qf rf.
Proof.
  intros qf rf. unfold hex_axial_round, q_recomputed, r_recomputed,
    none_recomputed, rounded_cube.
  destruct (round_diffs qf rf) as [[qd rd] sd]. reflexivity.
Qed.

(** C6, as the code has it: [q] is recomputed only when its rounding error
    is strictly greater than both other errors; otherwise (one of the two
    strict comparisons fails, be it by a smaller error, a tie or an error
    that is not a number) [r] is recomputed when its error is strictly
    greater than that of [s]; otherwise neither is changed (the discarded
    [s] absorbs the correction).  So when the error of [q] merely ties
    another error, [q] keeps its rounded value: ties go to [r] before [q]
    and to [s] before [r]. *)
Theorem C6_tie_break_order :
  forall qf rf,
    let '(q_diff, r_diff, s_diff) := round_diffs qf rf in
    ((q_diff >? r_diff)%f32 = true -> (q_diff >? s_diff)%f32 = true ->
       hex_axial_round qf rf = q_recomputed qf rf) /\
    ((q_diff >? r_diff)%f32 = false \/ (q_diff >? s_diff)%f32 = false ->
       (hex_axial_round qf rf =
          if (r_diff >? s_diff)%f32 then r_recomputed qf rf
          else none_recomputed qf rf) /\
       fst (hex_axial_round qf rf) = fst (fst (rounded_cube qf rf))) /\
    ((q_diff <=? r_diff)%f32 = true \/ (q_diff <=? s_diff)%f32 = true ->
       (q_diff >? r_diff)%f32 = false \/ (q_diff >? s_diff)%f32 = false).
Proof.
  intros qf rf. pose proof (hex_axial_round_cases qf rf) as H.
  destruct (round_diffs qf rf) as [[qd rd] sd]. split; [|split].
  - intros H1 H2. rewrite H, H1, H2. reflexivity.
  - intros Hf.
    assert (Hc : (qd >? rd)%f32 && (qd >? sd)%f32 = false).
    { destruct Hf as [Hf|Hf]; rewrite Hf; [reflexivity | apply andb_false_r]. }
    rewrite H, Hc. split; [reflexivity|].
    unfold r_recomputed, none_recomputed.
    destruct (rounded_cube qf rf) as [[qi ri] si].
    destruct (rd >? sd)%f32; reflexivity.
  - intros [Hle|Hle]; apply gtb_false_of_leb in Hle; [left | right]; exact Hle.
Qed.

(** C6 as stated fails at (qf, rf) = (0.5, 0.5): the errors of [q] and [r]
    tie (both 0.5) and exceed the error of [s] (0), yet the code recomputes
    [r], giving (0,1), where recomputing [q] would give (1,0). *)
Lemma C6_counterexample :
  let '(q_diff, r_diff, s_diff) := round_diffs c0_5 c0_5 in
  F32.eqb q_diff r_diff = true /\
  (s_diff <? q_diff)%f32 = true /\
  q_recomputed c0_5 c0_5 = (1, 0) /\
  hex_axial_round c0_5 c0_5 = (0, 1) /\
  hex_axial_round c0_5 c0_5 <> q_recomputed c0_5 c0_5.
Proof.
  vm_compute. repeat split; discriminate.
Qed.

(** A tie between the errors of [q] and [r], at (0.5, 0.5); and an input
    that is not a number, at which every comparison fails and neither
    coordinate is recomputed. *)
Lemma C6_tie_break_order_witness :
  ((hex_axial_round c0_5 c0_5 =
      if (snd (fst (round_diffs c0_5 c0_5)) >? snd (round_diffs c0_5 c0_5))%f32
      then r_recomputed c0_5 c0_5 else none_recomputed c0_5 c0_5) /\
   fst (hex_axial_round c0_5 c0_5) = fst (fst (rounded_cube c0_5 c0_5))) /\
  hex_axial_round S754_nan c0_5 = none_recomputed S754_nan c0_5.
Proof.
  pose proof (C6_tie_break_order c0_5 c0_5) as H.
  change (round_diffs c0_5 c0_5) with (c0_5, c0_5, zero) in H.
  cbv beta iota in H.
  pose proof (C6_tie_break_order S754_nan c0_5) as N.
  change (round_diffs S754_nan c0_5) with (S754_nan, c0_5, S754_nan) in N.
  cbv beta iota in N.
  split.
  - exact (proj1 (proj2 H) (or_introl eq_refl)).
  - exact (proj1 (proj1 (proj2 N) (or_introl eq_refl))).
Defined.

(** ** Building the lattice *)

Lemma to_int16_range : forall z, INT16_MIN <= to_int16 z <= INT16_MAX.
Proof.
  intros z. unfold to_int16, INT16_MIN, INT16_MAX.
  pose proof (Z.mod_pos_bound (z + 2 ^ 15) (2 ^ 16) ltac:(lia)). lia.
Qed.

Lemma to_int16_id : forall z, INT16_MIN <= z <= INT16_MAX -> to_int16 z = z.
Proof.
  intros z Hz. unfold to_int16, INT16_MIN, INT16_MAX in *.
  rewrite Z.mod_small; lia.
Qed.

Lemma to_uint16_range : forall z, 0 <= to_uint16 z < 2 ^ 16.
Proof. intros z. unfold to_uint16. apply Z.mod_pos_bound. lia. Qed.

(** The shape of every result of [hex_world_create] on a non-null world. *)
Lemma hex_world_create_cases :
  forall alloc w0 params,
    let res := hex_world_create alloc (Some w0) params in
    (res = (true, Some zero_world) /\
       (params = None \/ exists p, params = Some p /\ enabled (hex p) = false)) \/
    (res = (false, Some zero_world) /\ bad_span params) \/
    (exists p, params = Some p /\ enabled (hex p) = true /\
       0 < q_span_of p /\ 0 < r_span_of p /\
       let w := mkHexWorld (hex_cell_size (hex p)) (hex_origin_x (hex p))
                  (hex_origin_y (hex p))
                  (to_int16 (hex_q_min (hex p))) (to_int16 (hex_q_max (hex p)))
                  (to_int16 (hex_r_min (hex p))) (to_int16 (hex_r_max (hex p)))
                  (to_uint16 (q_span_of p)) (to_uint16 (r_span_of p))
                  (count_of p) None in
       (count_of p = 0 /\ res = (true, Some w)) \/
       (count_of p <> 0 /\ alloc (count_of p) = false /\ res = (false, Some w)) \/
       (count_of p <> 0 /\ alloc (count_of p) = true /\
        res = (true,
               Some (mkHexWorld (cell_size w) (origin_x w) (origin_y w)
                       (q_min w) (q_max w) (r_min w) (r_max w)
                       (width w) (height w) (count w)
                       (Some (build_tiles p w (hex_q_min (hex p))
                                (Z.to_nat (q_span_of p)) (hex_r_min (hex p))
                                (Z.to_nat (r_span_of p)))))))).
Proof.
  intros alloc w0 [p|]; cbv zeta; [|left; split; [reflexivity | left; reflexivity]].
  unfold hex_world_create.
  change (hex_world_init (hex_world_destroy (Some w0))) with (Some zero_world).
  cbv iota beta. change (tiles zero_world) with (@None (list HexTile)).
  destruct (enabled (hex p)) eqn:En; simpl negb; cbv iota.
  2:{ left. split; [reflexivity|]. right. exists p. auto. }
  fold (q_span_of p) (r_span_of p). cbv zeta. fold (count_of p).
  destruct ((q_span_of p <=? 0) || (r_span_of p <=? 0)) eqn:Sp.
  { right; left. split; [reflexivity|]. exists p. repeat split; auto.
    apply orb_true_iff in Sp. destruct Sp as [S|S]; apply Z.leb_le in S; auto. }
  apply orb_false_iff in Sp. destruct Sp as [S1 S2].
  apply Z.leb_gt in S1, S2.
  right; right. exists p. repeat split; auto.
  destruct (count_of p =? 0) eqn:C0.
  { left. apply Z.eqb_eq in C0. auto. }
  apply Z.eqb_neq in C0. right.
  destruct (alloc (count_of p)) eqn:Al; simpl negb; cbv iota.
  - right. auto.
  - left. auto.
Qed.

Lemma hex_world_create_wf :
  forall alloc w0 params ok w,
    hex_world_create alloc (Some w0) params = (ok, Some w) -> world_wf w.
Proof.
  intros alloc w0 params ok w H.
  pose proof (hex_world_create_cases alloc w0 params) as C. cbv zeta in C.
  rewrite H in C.
  assert (Z0 : world_wf zero_world).
  { unfold world_wf, INT16_MIN, INT16_MAX; simpl. lia. }
  destruct C as [[E _]|[[E _]|(p & _ & _ & _ & _ & C)]].
  - inversion E; subst; exact Z0.
  - inversion E; subst; exact Z0.
  - assert (forall ts, world_wf
       (mkHexWorld (hex_cell_size (hex p)) (hex_origin_x (hex p))
          (hex_origin_y (hex p))
          (to_int16 (hex_q_min (hex p))) (to_int16 (hex_q_max (hex p)))
          (to_int16 (hex_r_min (hex p))) (to_int16 (hex_r_max (hex p)))
          (to_uint16 (q_span_of p)) (to_uint16 (r_span_of p))
          (count_of p) ts)) as W.
    { intros ts. unfold world_wf; simpl.
      repeat split; try apply to_int16_range; apply to_uint16_range. }
    destruct C as [[_ E]|[(_ & _ & E)|(_ & _ & E)]];
      inversion E; subst; apply W.
Qed.

(** C7, as the code has it: the build returns false exactly when the world
    pointer is null, or the configuration is present and enabled with a
    non-positive q or r span, or the request for the tile array is refused.
    A null or disabled configuration is not a failure: the build returns
    true and leaves the empty world (count 0, no tiles).  After a failure
    on the spans the world is the empty world, and after every failure the
    world holds no tile array. *)
Theorem C7_build_failure :
  forall alloc world params,
    let res := hex_world_create alloc world params in
    (fst res = false <->
       world = None \/ bad_span params \/ alloc_fails alloc params) /\
    (forall w0, world = Some w0 ->
       params = None \/ (exists p, params = Some p /\ enabled (hex p) = false) ->
       res = (true, Some zero_world)) /\
    (forall w0, world = Some w0 -> bad_span params ->
       res = (false, Some zero_world)) /\
    (fst res = false -> forall w, snd res = Some w -> tiles w = None).
Proof.
  intros alloc [w0|] params; cbv zeta.
  2:{ simpl. repeat split; auto; try discriminate. }
  pose proof (hex_world_create_cases alloc w0 params) as C. cbv zeta in C.
  assert (Hb : forall p, params = Some p -> enabled (hex p) = false ->
                 ~ bad_span params /\ ~ alloc_fails alloc params).
  { intros p -> En. split; intros (p' & E & En' & _); inversion E; subst; congruence. }
  assert (Hn : params = None -> ~ bad_span params /\ ~ alloc_fails alloc params).
  { intros ->. split; intros (p' & E & _); discriminate. }
  destruct C as [[E D]|[[E B]|(p & -> & En & S1 & S2 & C)]].
  - rewrite E; simpl.
    assert (NB : ~ bad_span params /\ ~ alloc_fails alloc params).
    { destruct D as [D|(p & D & En)]; [apply (Hn D) | apply (Hb p D En)]. }
    destruct NB as [NB NA].
    split; [split; [discriminate | intros [?|[?|?]]; [discriminate|contradiction|contradiction]]|].
    split; [reflexivity|].
    split; [intros; contradiction | discriminate].
  - rewrite E; simpl.
    split; [split; [intros _; right; left; exact B | reflexivity]|].
    split.
    { intros w1 _ [->|(p & -> & En)]; exfalso;
        destruct B as (p' & E' & En' & _); inversion E'; subst; congruence. }
    split; [reflexivity|].
    intros _ w1 E1. inversion E1; reflexivity.
  - assert (NB : ~ bad_span (Some p)).
    { intros (p' & E' & _ & Sp). inversion E'; subst. lia. }
    assert (ND : ~ (Some p = None \/
                    exists p', Some p = Some p' /\ enabled (hex p') = false)).
    { intros [D|(p' & D & En')]; [discriminate|]. inversion D; subst; congruence. }
    destruct C as [[C0 E]|[(C0 & Al & E)|(C0 & Al & E)]]; rewrite E; simpl.
    + split.
      { split; [discriminate|].
        intros [?|[B|(p' & E' & _ & _ & _ & C1 & _)]];
          [discriminate|contradiction|inversion E'; subst; contradiction]. }
      split; [intros; contradiction|].
      split; [intros; contradiction | discriminate].
    + split.
      { split; [|reflexivity]. intros _. right; right. exists p.
        repeat split; auto. }
      split; [intros; contradiction|].
      split; [intros; contradiction|].
      intros _ w1 E1. inversion E1; reflexivity.
    + split.
      { split; [discriminate|].
        intros [?|[B|(p' & E' & _ & _ & _ & _ & Al')]];
          [discriminate|contradiction|inversion E'; subst; congruence]. }
      split; [intros; contradiction|].
      split; [intros; contradiction | discriminate].
Qed.

(** C7 as stated fails: with a null configuration the build returns true,
    not false; and when the allocation is refused the world keeps the
    non-zero count of the tiles it asked for. *)
Lemma C7_counterexample :
  fst (hex_world_create (fun _ => true) (Some zero_world) None) = true /\
  fst (hex_world_create (fun _ => false) (Some zero_world) (Some example_params))
    = false /\
  option_map count
    (snd (hex_world_create (fun _ => false) (Some zero_world) (Some example_params)))
    = Some 25.
Proof. vm_compute. auto. Qed.

(** ** The tile array as a row-major table *)

Section RowMajor.

Context {A B : Type}.

Lemma nth_error_flat_map_uniform :
  forall (f : A -> list B) (k : nat),
    (forall a, length (f a) = k) ->
    forall (l : list A) (i j : nat) (a : A),
      nth_error l i = Some a -> (j < k)%nat ->
      nth_error (flat_map f l) (i * k + j) = nth_error (f a) j.
Proof.
  intros f k Hk l. induction l as [|x l IH]; intros i j a Hi Hj.
  - destruct i; discriminate.
  - destruct i as [|i]; simpl in *.
    + inversion Hi; subst. rewrite nth_error_app1; [reflexivity|].
      rewrite Hk; exact Hj.
    + rewrite nth_error_app2 by (rewrite Hk; lia).
      rewrite Hk. replace (k + i * k + j - k)%nat with (i * k + j)%nat by lia.
      apply IH; assumption.
Qed.

Lemma length_flat_map_uniform :
  forall (f : A -> list B) (k : nat),
    (forall a, length (f a) = k) ->
    forall l : list A, length (flat_map f l) = (length l * k)%nat.
Proof.
  intros f k Hk l. induction l as [|x l IH]; simpl; [reflexivity|].
  rewrite length_app, Hk, IH. reflexivity.
Qed.

End RowMajor.

Lemma zrange_length : forall lo n, length (zrange lo n) = n.
Proof. intros. unfold zrange. rewrite length_map, length_seq. reflexivity. Qed.

Lemma nth_error_zrange : forall lo n i,
  (i < n)%nat -> nth_error (zrange lo n) i = Some (lo + Z.of_nat i).
Proof.
  intros lo n i Hi. unfold zrange.
  rewrite nth_error_map, nth_error_seq.
  destruct (Nat.ltb_spec i n); [reflexivity | lia].
Qed.

Lemma in_zrange : forall lo n z,
  In z (zrange lo n) <-> lo <= z < lo + Z.of_nat n.
Proof.
  intros lo n z. unfold zrange. rewrite in_map_iff. split.
  - intros (i & <- & Hi). apply in_seq in Hi. lia.
  - intros Hz. exists (Z.to_nat (z - lo)). split; [lia|]. apply in_seq. lia.
Qed.

(** [assign_tile_defaults] writes neither the coordinates nor the centre. *)
Lemma assign_by_noise_frame : forall w t,
  q (assign_by_noise w t) = q t /\ r (assign_by_noise w t) = r t /\
  center_x (assign_by_noise w t) = center_x t /\
  center_y (assign_by_noise w t) = center_y t.
Proof.
  intros w t. unfold assign_by_noise.
  repeat match goal with |- context [if ?c then _ else _] => destruct c end;
    simpl; auto.
Qed.

Lemma assign_tile_defaults_frame : forall params w t,
  q (assign_tile_defaults params w t) = q t /\
  r (assign_tile_defaults params w t) = r t /\
  center_x (assign_tile_defaults params w t) = center_x t /\
  center_y (assign_tile_defaults params w t) = center_y t.
Proof.
  intros [p|] w t; unfold assign_tile_defaults; [|simpl; auto].
  pose proof (assign_by_noise_frame w (tile_defaults t)) as N.
  repeat match goal with |- context [if ?c then _ else _] => destruct c end;
    simpl; auto.
Qed.

Lemma make_tile_qr : forall p w qv rv,
  q (make_tile p w qv rv) = to_int16 qv /\ r (make_tile p w qv rv) = to_int16 rv.
Proof.
  intros. unfold make_tile.
  match goal with |- context [assign_tile_defaults ?a ?b ?c] =>
    destruct (assign_tile_defaults_frame a b c) as (Hq & Hr & _) end.
  rewrite Hq, Hr. simpl. auto.
Qed.

Lemma build_tiles_length : forall p w qlo qn rlo rn,
  length (build_tiles p w qlo qn rlo rn) = (rn * qn)%nat.
Proof.
  intros. unfold build_tiles.
  rewrite (length_flat_map_uniform _ qn).
  - rewrite zrange_length. reflexivity.
  - intros a. rewrite length_map, zrange_length. reflexivity.
Qed.

Lemma build_tiles_nth : forall p w qlo qn rlo rn i j,
  (i < rn)%nat -> (j < qn)%nat ->
  nth_error (build_tiles p w qlo qn rlo rn) (i * qn + j) =
  Some (make_tile p w (qlo + Z.of_nat j) (rlo + Z.of_nat i)).
Proof.
  intros p w qlo qn rlo rn i j Hi Hj. unfold build_tiles.
  rewrite (nth_error_flat_map_uniform _ qn) with (a := rlo + Z.of_nat i).
  - rewrite nth_error_map, nth_error_zrange by assumption. reflexivity.
  - intros a. rewrite length_map, zrange_length. reflexivity.
  - apply nth_error_zrange. assumption.
  - assumption.
Qed.

Lemma build_tiles_in : forall p w qlo qn rlo rn t,
  In t (build_tiles p w qlo qn rlo rn) ->
  exists qv rv, t = make_tile p w qv rv.
Proof.
  intros p w qlo qn rlo rn t H. unfold build_tiles in H.
  apply in_flat_map in H. destruct H as (rv & _ & H).
  apply in_map_iff in H. destruct H as (qv & <- & _).
  exists qv, rv. reflexivity.
Qed.

(** What [params_validate] guarantees about an enabled hex configuration. *)
Lemma params_validate_hex_ranges : forall p,
  params_validate_hex p = true -> enabled (hex p) = true ->
  INT16_MIN <= hex_q_min (hex p) /\ hex_q_min (hex p) <= hex_q_max (hex p) /\
  hex_q_max (hex p) <= INT16_MAX /\
  INT16_MIN <= hex_r_min (hex p) /\ hex_r_min (hex p) <= hex_r_max (hex p) /\
  hex_r_max (hex p) <= INT16_MAX /\
  q_span_of p <= 65535 /\ r_span_of p <= 65535.
Proof.
  intros p V En. unfold params_validate_hex in V. rewrite En in V.
  fold (q_span_of p) (r_span_of p) in V. unfold q_span_of, r_span_of in *.
  repeat match type of V with
  | (if ?c then _ else _) = true => destruct c eqn:?; [try discriminate V|]
  | (if ?c then _ else _) = true => destruct c eqn:?; [|try discriminate V]
  end; try discriminate V.
  repeat match goal with
  | H : (_ || _) = false |- _ => apply orb_false_iff in H; destruct H
  end.
  unfold INT16_MIN, INT16_MAX in *. lia.
Qed.

(** The world built from a validated configuration. *)
Lemma hex_world_create_validated :
  forall alloc w0 p ok w ts,
    params_validate_hex p = true ->
    hex_world_create alloc (Some w0) (Some p) = (ok, Some w) ->
    tiles w = Some ts ->
    ok = true /\
    w = mkHexWorld (hex_cell_size (hex p)) (hex_origin_x (hex p))
          (hex_origin_y (hex p))
          (hex_q_min (hex p)) (hex_q_max (hex p))
          (hex_r_min (hex p)) (hex_r_max (hex p))
          (q_span_of p) (r_span_of p) (q_span_of p * r_span_of p) (Some ts) /\
    ts = build_tiles p
           (mkHexWorld (hex_cell_size (hex p)) (hex_origin_x (hex p))
              (hex_origin_y (hex p))
              (hex_q_min (hex p)) (hex_q_max (hex p))
              (hex_r_min (hex p)) (hex_r_max (hex p))
              (q_span_of p) (r_span_of p) (q_span_of p * r_span_of p) None)
           (hex_q_min (hex p)) (Z.to_nat (q_span_of p))
           (hex_r_min (hex p)) (Z.to_nat (r_span_of p)) /\
    enabled (hex p) = true /\
    1 <= q_span_of p <= 65535 /\ 1 <= r_span_of p <= 65535 /\
    INT16_MIN <= hex_q_min (hex p) /\ hex_q_max (hex p) <= INT16_MAX /\
    INT16_MIN <= hex_r_min (hex p) /\ hex_r_max (hex p) <= INT16_MAX.
Proof.
  intros alloc w0 p ok w ts V H T.
  pose proof (hex_world_create_cases alloc w0 (Some p)) as C. cbv zeta in C.
  rewrite H in C.
  destruct C as [[E _]|[[E _]|(p' & E' & En & S1 & S2 & C)]];
    try (inversion E; subst; discriminate T).
  inversion E'; subst p'; clear E'.
  pose proof (params_validate_hex_ranges p V En) as R.
  pose proof R as (R1 & R2 & R3 & R4 & R5 & R6 & R7 & R8).
  assert (Eq : count_of p = q_span_of p * r_span_of p).
  { unfold count_of, to_size_t. rewrite !Z.mod_small; try nia.
    rewrite !Z.mod_small; nia. }
  rewrite !to_int16_id in C
    by (unfold q_span_of, r_span_of, INT16_MIN, INT16_MAX in *; lia).
  unfold to_uint16 in C. rewrite !Z.mod_small in C by lia. rewrite Eq in C.
  destruct C as [[_ E]|[(_ & _ & E)|(_ & _ & E)]];
    inversion E; subst; try discriminate T.
  simpl in T. inversion T; subst ts.
  repeat split; auto; lia.
Qed.

(** C2: in the lattice built from a validated configuration, every (q,r)
    of the bounding box has index [(r - r_min) * width + (q - q_min)], the
    index is below [count = width * height], distinct cells have distinct
    indices, and the tile stored at that index (which is what
    [hex_world_tile] returns) carries the same q and r; every (q,r)
    outside the box gets [SIZE_MAX] from [hex_world_index] and no tile
    from [hex_world_tile]. *)
Theorem C2_index_bijection :
  forall alloc w0 p ok w ts,
    params_validate_hex p = true ->
    hex_world_create alloc (Some w0) (Some p) = (ok, Some w) ->
    tiles w = Some ts ->
    count w = width w * height w /\ Z.of_nat (length ts) = count w /\
    (forall qv rv,
       q_min w <= qv <= q_max w -> r_min w <= rv <= r_max w ->
       let index := (rv - r_min w) * width w + (qv - q_min w) in
       hex_world_index (Some w) qv rv = index /\
       0 <= index < count w /\
       exists t, nth_error ts (Z.to_nat index) = Some t /\
                 hex_world_tile (Some w) qv rv = Some t /\
                 q t = qv /\ r t = rv) /\
    (forall qv rv qv' rv',
       q_min w <= qv <= q_max w -> r_min w <= rv <= r_max w ->
       q_min w <= qv' <= q_max w -> r_min w <= rv' <= r_max w ->
       hex_world_index (Some w) qv rv = hex_world_index (Some w) qv' rv' ->
       qv = qv' /\ rv = rv') /\
    (forall qv rv,
       ~ (q_min w <= qv <= q_max w /\ r_min w <= rv <= r_max w) ->
       hex_world_index (Some w) qv rv = SIZE_MAX /\
       hex_world_tile (Some w) qv rv = None).
Proof.
  intros alloc w0 p ok w ts V H T.
  destruct (hex_world_create_validated alloc w0 p ok w ts V H T)
    as (_ & Ew & Ets & _ & Sq & Sr & R1 & R2 & R3 & R4).
  set (W := q_span_of p) in *. set (Ht := r_span_of p) in *.
  set (qlo := hex_q_min (hex p)) in *. set (rlo := hex_r_min (hex p)) in *.
  assert (Eqhi : hex_q_max (hex p) = qlo + W - 1) by (unfold W, q_span_of, qlo; lia).
  assert (Erhi : hex_r_max (hex p) = rlo + Ht - 1) by (unfold Ht, r_span_of, rlo; lia).
  assert (Hidx : forall qv rv,
            qlo <= qv <= qlo + W - 1 -> rlo <= rv <= rlo + Ht - 1 ->
            hex_world_index (Some w) qv rv = (rv - rlo) * W + (qv - qlo)).
  { intros qv rv Hq Hr. unfold hex_world_index, hex_world_in_bounds.
    rewrite Ew; simpl. fold qlo rlo. rewrite Eqhi, Erhi.
    replace ((qv >=? qlo) && (qv <=? qlo + W - 1) &&
             (rv >=? rlo) && (rv <=? rlo + Ht - 1)) with true
      by (symmetry; rewrite !andb_true_iff, !Z.geb_le, !Z.leb_le; lia).
    simpl. unfold to_size_t. unfold INT16_MIN, INT16_MAX in *.
    rewrite (Z.mod_small (qv - qlo)), (Z.mod_small (rv - rlo)),
      (Z.mod_small W) by lia.
    apply Z.mod_small. nia. }
  assert (Hout : forall qv rv,
            ~ (qlo <= qv <= qlo + W - 1 /\ rlo <= rv <= rlo + Ht - 1) ->
            hex_world_index (Some w) qv rv = SIZE_MAX).
  { intros qv rv Hn. unfold hex_world_index, hex_world_in_bounds.
    rewrite Ew; simpl. fold qlo rlo. rewrite Eqhi, Erhi.
    replace ((qv >=? qlo) && (qv <=? qlo + W - 1) &&
             (rv >=? rlo) && (rv <=? rlo + Ht - 1)) with false; [reflexivity|].
    symmetry. apply not_true_is_false. intros Ht'. apply Hn.
    rewrite !andb_true_iff, !Z.geb_le, !Z.leb_le in Ht'. lia. }
  assert (Ewf : q_min w = qlo /\ q_max w = qlo + W - 1 /\ r_min w = rlo /\
                r_max w = rlo + Ht - 1 /\ width w = W /\ height w = Ht /\
                count w = W * Ht).
  { rewrite Ew; simpl. fold qlo rlo. rewrite Eqhi, Erhi. repeat split. }
  destruct Ewf as (E1 & E2 & E3 & E4 & E5 & E6 & E7).
  rewrite E1, E2, E3, E4, E5, E6, E7.
  split; [reflexivity|]. split.
  { rewrite Ets, build_tiles_length. lia. }
  split; [|split].
  - intros qv rv Hq Hr. cbv zeta. rewrite (Hidx qv rv Hq Hr).
    split; [reflexivity|]. split; [nia|].
    exists (make_tile p
              (mkHexWorld (hex_cell_size (hex p)) (hex_origin_x (hex p))
                 (hex_origin_y (hex p)) qlo (hex_q_max (hex p)) rlo
                 (hex_r_max (hex p)) W Ht (W * Ht) None) qv rv).
    assert (Hn : nth_error ts (Z.to_nat ((rv - rlo) * W + (qv - qlo))) =
                 Some (make_tile p
                   (mkHexWorld (hex_cell_size (hex p)) (hex_origin_x (hex p))
                      (hex_origin_y (hex p)) qlo (hex_q_max (hex p)) rlo
                      (hex_r_max (hex p)) W Ht (W * Ht) None) qv rv)).
    { rewrite Z2Nat.inj_add, Z2Nat.inj_mul by nia.
      rewrite Ets, build_tiles_nth by lia.
      do 2 f_equal; lia. }
    split; [exact Hn|]. split.
    + unfold hex_world_tile. rewrite (Hidx qv rv Hq Hr).
      replace ((rv - rlo) * W + (qv - qlo) =? SIZE_MAX) with false
        by (symmetry; apply Z.eqb_neq; unfold SIZE_MAX; nia).
      rewrite Ew at 1. simpl tiles. cbv iota. exact Hn.
    + destruct (make_tile_qr p
              (mkHexWorld (hex_cell_size (hex p)) (hex_origin_x (hex p))
                 (hex_origin_y (hex p)) qlo (hex_q_max (hex p)) rlo
                 (hex_r_max (hex p)) W Ht (W * Ht) None) qv rv) as [Q R].
      rewrite Q, R, !to_int16_id by (unfold INT16_MIN, INT16_MAX in *; lia).
      auto.
  - intros qv rv qv' rv' Hq Hr Hq' Hr'.
    rewrite (Hidx qv rv Hq Hr), (Hidx qv' rv' Hq' Hr'). intros E.
    assert (Er : rv = rv').
    { destruct (Z.lt_trichotomy rv rv') as [L|[L|L]]; [exfalso|exact L|exfalso].
      - assert (W * 1 <= W * (rv' - rv)) by (apply Z.mul_le_mono_nonneg_l; lia).
        lia.
      - assert (W * 1 <= W * (rv - rv')) by (apply Z.mul_le_mono_nonneg_l; lia).
        lia. }
    subst rv'. split; [lia | reflexivity].
  - intros qv rv Hn. pose proof (Hout qv rv Hn) as E.
    split; [exact E|]. unfold hex_world_tile. rewrite E, Z.eqb_refl. reflexivity.
Qed.

(** The cell (1,-1) of the example lattice: index 8, tile with q = 1 and
    r = -1. *)
Lemma C2_index_bijection_witness :
  params_validate_hex example_params = true /\
  hex_world_index (Some example_lattice) 1 (-1) = 8 /\
  exists t, hex_world_tile (Some example_lattice) 1 (-1) = Some t /\
            q t = 1 /\ r t = -1.
Proof.
  split; [reflexivity|].
  assert (Hc : hex_world_create (fun _ => true) (Some zero_world)
                 (Some example_params) = (true, Some example_lattice))
    by (vm_compute; reflexivity).
  assert (Ht : tiles example_lattice = Some example_tiles)
    by (vm_compute; reflexivity).
  destruct (C2_index_bijection (fun _ => true) zero_world example_params true
              example_lattice example_tiles eq_refl Hc Ht) as (_ & _ & H & _).
  assert (Hq : q_min example_lattice <= 1 <= q_max example_lattice)
    by (vm_compute; split; discriminate).
  assert (Hr : r_min example_lattice <= -1 <= r_max example_lattice)
    by (vm_compute; split; discriminate).
  destruct (H 1 (-1) Hq Hr) as (Hi & _ & t & _ & Htile & Hqt & Hrt).
  split; [exact Hi|]. exists t. auto.
Defined.

(** ** Picking *)

Lemma hex_world_in_bounds_box : forall w qv rv,
  hex_world_in_bounds (Some w) qv rv = true <->
  tiles w <> None /\ q_min w <= qv <= q_max w /\ r_min w <= rv <= r_max w.
Proof.
  intros w qv rv. unfold hex_world_in_bounds.
  destruct (tiles w) as [ts|].
  - rewrite !andb_true_iff, !Z.geb_le, !Z.leb_le. split.
    + intros H. split; [discriminate | lia].
    + intros [_ H]. lia.
  - split; [discriminate | intros [H _]; contradiction].
Qed.

Lemma hex_world_index_in_range : forall w qv rv,
  world_wf w -> hex_world_in_bounds (Some w) qv rv = true ->
  0 <= hex_world_index (Some w) qv rv < 2 ^ 32.
Proof.
  intros w qv rv (Q1 & Q2 & R1 & R2 & Wd & _) H.
  unfold hex_world_index. rewrite H. simpl negb. cbv iota.
  apply hex_world_in_bounds_box in H. destruct H as (_ & Hq & Hr).
  unfold to_size_t, INT16_MIN, INT16_MAX in *.
  rewrite (Z.mod_small (qv - q_min w)), (Z.mod_small (rv - r_min w)),
    (Z.mod_small (width w)) by lia.
  rewrite Z.mod_small by nia. nia.
Qed.



(** ** Round trip through world coordinates *)

Lemma all_cells_spec : forall w f,
  all_cells w f = true ->
  forall qv rv,
    q_min w <= qv <= q_max w -> r_min w <= rv <= r_max w -> f qv rv = true.
Proof.
  intros w f H qv rv Hq Hr. unfold all_cells in H.
  rewrite forallb_forall in H.
  assert (Hin : In rv (zrange (r_min w) (Z.to_nat (r_max w - r_min w + 1))))
    by (apply in_zrange; lia).
  specialize (H rv Hin). rewrite forallb_forall in H.
  apply H. apply in_zrange. lia.
Qed.

Lemma round_trip_ok_spec : forall world qv rv,
  round_trip_ok world qv rv = true -> round_trip world qv rv = (qv, rv).
Proof.
  intros world qv rv. unfold round_trip_ok.
  destruct (round_trip world qv rv) as [a b].
  rewrite andb_true_iff, !Z.eqb_eq. intros [-> ->]. reflexivity.
Qed.

(** The round trip reads the cell size and the origin of the world, and
    whether it holds tiles; nothing else. *)
Lemma round_trip_ext : forall w w' qv rv,
  tiles w <> None -> tiles w' <> None ->
  cell_size w = cell_size w' -> origin_x w = origin_x w' ->
  origin_y w = origin_y w' ->
  round_trip (Some w) qv rv = round_trip (Some w') qv rv.
Proof.
  intros w w' qv rv T T' Hc Hx Hy.
  unfold round_trip, hex_axial_to_world, hex_world_to_axial_f.
  destruct (tiles w); [|contradiction]. destruct (tiles w'); [|contradiction].
  rewrite Hc, Hx, Hy. reflexivity.
Qed.

Lemma round_trip_window : forall cs ox oy lo hi w qv rv,
  all_cells (probe_world cs ox oy lo hi)
            (round_trip_ok (Some (probe_world cs ox oy lo hi))) = true ->
  tiles w <> None ->
  cell_size w = cs -> origin_x w = ox -> origin_y w = oy ->
  lo <= qv <= hi -> lo <= rv <= hi ->
  round_trip (Some w) qv rv = (qv, rv).
Proof.
  intros cs ox oy lo hi w qv rv H T Hc Hx Hy Hq Hr.
  rewrite (round_trip_ext w (probe_world cs ox oy lo hi));
    try assumption; try discriminate.
  apply round_trip_ok_spec.
  apply (all_cells_spec _ _ H); assumption.
Qed.




(** ** Terrain assignment *)

Lemma in_hive_rect_ext : forall p t t',
  center_x t = center_x t' -> center_y t = center_y t' ->
  in_hive_rect p t = in_hive_rect p t'.
Proof. intros p t t' Hx Hy. unfold in_hive_rect. rewrite Hx, Hy. reflexivity. Qed.

Lemma entrance_axial_ok_ext : forall p w w' t t',
  cell_size w = cell_size w' ->
  center_x t = center_x t' -> center_y t = center_y t' ->
  entrance_axial_ok p w t = entrance_axial_ok p w' t'.
Proof.
  intros p w w' t t' Hc Hx Hy. unfold entrance_axial_ok.
  rewrite Hc, Hx, Hy. reflexivity.
Qed.

Lemma entrance_radial_ok_ext : forall p w w' t t',
  cell_size w = cell_size w' ->
  center_x t = center_x t' -> center_y t = center_y t' ->
  entrance_radial_ok p w t = entrance_radial_ok p w' t'.
Proof.
  intros p w w' t t' Hc Hx Hy. unfold entrance_radial_ok.
  rewrite Hc, Hx, Hy. reflexivity.
Qed.

Lemma origin_dist_ext : forall w w' t t',
  origin_x w = origin_x w' -> origin_y w = origin_y w' ->
  center_x t = center_x t' -> center_y t = center_y t' ->
  origin_dist w t = origin_dist w' t'.
Proof.
  intros w w' t t' Hx Hy Hcx Hcy. unfold origin_dist.
  rewrite Hx, Hy, Hcx, Hcy. reflexivity.
Qed.

(** The colony rules of [assign_tile_defaults], read off the result. *)
Lemma assign_tile_defaults_colony : forall p w tile,
  hive_enabled p = true ->
  let t := assign_tile_defaults (Some p) w tile in
  (in_hive_rect p t = true -> terrain t = HEX_TERRAIN_HIVE) /\
  (in_hive_rect p t = false ->
   entrance_axial_ok p w t = true -> entrance_radial_ok p w t = true ->
   terrain t = HEX_TERRAIN_ENTRANCE).
Proof.
  intros p w tile He t.
  destruct (assign_tile_defaults_frame (Some p) w tile) as (_ & _ & Hx & Hy).
  fold t in Hx, Hy.
  assert (Hx' : center_x t = center_x (tile_defaults tile)) by (rewrite Hx; reflexivity).
  assert (Hy' : center_y t = center_y (tile_defaults tile)) by (rewrite Hy; reflexivity).
  rewrite (in_hive_rect_ext p t _ Hx' Hy').
  rewrite (entrance_axial_ok_ext p w w t _ eq_refl Hx' Hy').
  rewrite (entrance_radial_ok_ext p w w t _ eq_refl Hx' Hy').
  subst t. unfold assign_tile_defaults. rewrite He.
  destruct (in_hive_rect p (tile_defaults tile)).
  - split; [reflexivity | discriminate].
  - split; [discriminate|]. intros _ Ha Hr. rewrite Ha, Hr. reflexivity.
Qed.

(** The tiles of a built lattice are the results of [make_tile] in a world
    with the cell size and origin of the lattice. *)
Lemma hex_world_create_tiles :
  forall alloc w0 p ok w ts,
    hex_world_create alloc (Some w0) (Some p) = (ok, Some w) ->
    tiles w = Some ts ->
    exists w1, cell_size w1 = cell_size w /\ origin_x w1 = origin_x w /\
               origin_y w1 = origin_y w /\
               forall t, In t ts -> exists qv rv, t = make_tile p w1 qv rv.
Proof.
  intros alloc w0 p ok w ts H T.
  pose proof (hex_world_create_cases alloc w0 (Some p)) as C. cbv zeta in C.
  rewrite H in C.
  destruct C as [[E _]|[[E _]|(p' & E' & En & S1 & S2 & C)]];
    try (inversion E; subst; discriminate T).
  inversion E'; subst p'; clear E'.
  destruct C as [[_ E]|[(_ & _ & E)|(_ & _ & E)]];
    inversion E; subst; try discriminate T.
  simpl in T. inversion T; subst ts.
  eexists. split; [|split; [|split]];
    [| | | intros t Ht; apply build_tiles_in in Ht; exact Ht]; reflexivity.
Qed.

(** C3: when the colony placement is active, every generated cell whose
    centre lies in the colony rectangle (borders included) is Hive, and
    every generated cell outside the rectangle that passes both the axial
    and the radial entrance test is Entrance, whatever its noise value. *)
Theorem C3_colony_precedence :
  forall alloc w0 p ok w ts t,
    hex_world_create alloc (Some w0) (Some p) = (ok, Some w) ->
    tiles w = Some ts ->
    hive_enabled p = true ->
    In t ts ->
    (in_hive_rect p t = true -> terrain t = HEX_TERRAIN_HIVE) /\
    (in_hive_rect p t = false ->
     entrance_axial_ok p w t = true -> entrance_radial_ok p w t = true ->
     terrain t = HEX_TERRAIN_ENTRANCE).
Proof.
  intros alloc w0 p ok w ts t H T He Hin.
  destruct (hex_world_create_tiles alloc w0 p ok w ts H T)
    as (w1 & Hc & _ & _ & Hall).
  destruct (Hall t Hin) as (qv & rv & ->).
  rewrite <- (entrance_axial_ok_ext p w1 w _ _ Hc eq_refl eq_refl).
  rewrite <- (entrance_radial_ok_ext p w1 w _ _ Hc eq_refl eq_refl).
  unfold make_tile. apply assign_tile_defaults_colony. exact He.
Qed.

(** In the default lattice the cell (-4,1) lies in the colony rectangle and
    is Hive; the cell (-4,2) lies below the rectangle, passes both entrance
    tests and is Entrance. *)
Lemma C3_colony_precedence_witness :
  (exists t, nth_error default_tiles 174 = Some t /\ q t = -4 /\ r t = 1 /\
             terrain t = HEX_TERRAIN_HIVE) /\
  (exists t, nth_error default_tiles 195 = Some t /\ q t = -4 /\ r t = 2 /\
             terrain t = HEX_TERRAIN_ENTRANCE).
Proof.
  assert (Hc : hex_world_create (fun _ => true) (Some zero_world)
                 (Some params_init_defaults) = (true, Some default_lattice))
    by (vm_compute; reflexivity).
  assert (Ht : tiles default_lattice = Some default_tiles)
    by (vm_compute; reflexivity).
  assert (He : hive_enabled params_init_defaults = true) by reflexivity.
  split.
  - destruct (nth_error default_tiles 174) as [t|] eqn:E;
      [|vm_compute in E; discriminate E].
    exists t. split; [reflexivity|].
    pose proof (nth_error_In _ _ E) as Hin.
    destruct (C3_colony_precedence _ _ _ _ _ _ t Hc Ht He Hin) as [Hh _].
    vm_compute in E. inversion E; subst t.
    split; [reflexivity|]. split; [reflexivity|].
    apply Hh. vm_compute; reflexivity.
  - destruct (nth_error default_tiles 195) as [t|] eqn:E;
      [|vm_compute in E; discriminate E].
    exists t. split; [reflexivity|].
    pose proof (nth_error_In _ _ E) as Hin.
    destruct (C3_colony_precedence _ _ _ _ _ _ t Hc Ht He Hin) as [_ Hh].
    vm_compute in E. inversion E; subst t.
    split; [reflexivity|]. split; [reflexivity|].
    apply Hh; vm_compute; reflexivity.
Defined.

(** The flower rule of [assign_tile_defaults], read off the result. *)
Lemma assign_by_noise_flowers : forall w t,
  terrain t = HEX_TERRAIN_OPEN ->
  terrain (assign_by_noise w t) = HEX_TERRAIN_FLOWERS ->
  let noise := pseudo_noise01 (q t) (r t) in
  (origin_dist w t >? cell_size w * c8)%f32 = true /\
  (noise >? c0_68)%f32 = true /\
  nectar_capacity (assign_by_noise w t) = flowers_capacity noise /\
  nectar_stock (assign_by_noise w t) = flowers_stock noise /\
  nectar_recharge_rate (assign_by_noise w t) = flowers_recharge noise.
Proof.
  intros w t Ht. unfold assign_by_noise.
  destruct ((origin_dist w t >? cell_size w * c8)%f32 &&
            (pseudo_noise01 (q t) (r t) >? c0_68)%f32) eqn:C.
  - intros _. apply andb_true_iff in C. destruct C as [C1 C2].
    cbv zeta. split; [exact C1|]. split; [exact C2|].
    split; [reflexivity|]. split; reflexivity.
  - repeat match goal with |- context [if ?c then _ else _] => destruct c end;
      simpl; rewrite ?Ht; discriminate.
Qed.

Lemma assign_tile_defaults_flowers : forall p w tile,
  let t := assign_tile_defaults (Some p) w tile in
  terrain t = HEX_TERRAIN_FLOWERS ->
  let noise := pseudo_noise01 (q t) (r t) in
  (origin_dist w t >? cell_size w * c8)%f32 = true /\
  (noise >? c0_68)%f32 = true /\
  nectar_capacity t = flowers_capacity noise /\
  nectar_stock t = flowers_stock noise /\
  nectar_recharge_rate t = flowers_recharge noise.
Proof.
  intros p w tile t Hf.
  destruct (assign_tile_defaults_frame (Some p) w tile) as (Hq & Hr & Hx & Hy).
  fold t in Hq, Hr, Hx, Hy.
  assert (Hd : origin_dist w t = origin_dist w (tile_defaults tile))
    by (apply origin_dist_ext; auto).
  assert (E : t = assign_by_noise w (tile_defaults tile)).
  { subst t. unfold assign_tile_defaults in *.
    destruct (hive_enabled p); [|reflexivity].
    destruct (in_hive_rect p (tile_defaults tile)); [discriminate Hf|].
    destruct (entrance_axial_ok p w (tile_defaults tile) &&
              entrance_radial_ok p w (tile_defaults tile));
      [discriminate Hf | reflexivity]. }
  cbv zeta. rewrite Hd, Hq, Hr. rewrite E in Hf |- *.
  apply (assign_by_noise_flowers w (tile_defaults tile) eq_refl Hf).
Qed.

(** C8, as the code has it: for every generated cell classified Flowers,
    the distance of its centre from the lattice origin exceeds 8 cell sizes
    and its noise value exceeds 0.68; its capacity is 240 + 60 * noise
    (the noise value itself, not its excess over 0.68); its stock is the
    capacity times clamp(0.55 + 0.4 * (noise - 0.68), 0.35, 0.95); and its
    recharge rate is 4.5 + 2.0 * (noise - 0.68). *)
Theorem C8_flowers_resources :
  forall alloc w0 p ok w ts t,
    hex_world_create alloc (Some w0) (Some p) = (ok, Some w) ->
    tiles w = Some ts ->
    In t ts ->
    terrain t = HEX_TERRAIN_FLOWERS ->
    let noise := pseudo_noise01 (q t) (r t) in
    (origin_dist w t >? cell_size w * c8)%f32 = true /\
    (noise >? c0_68)%f32 = true /\
    nectar_capacity t = (c240 + c60 * noise)%f32 /\
    nectar_stock t =
      (nectar_capacity t *
       clampf (c0_55 + c0_4 * (noise - c0_68)) c0_35 c0_95)%f32 /\
    nectar_recharge_rate t = (c4_5 + c2_0 * (noise - c0_68))%f32.
Proof.
  intros alloc w0 p ok w ts t H T Hin Hf.
  destruct (hex_world_create_tiles alloc w0 p ok w ts H T)
    as (w1 & Hc & Hx & Hy & Hall).
  destruct (Hall t Hin) as (qv & rv & E).
  rewrite <- (origin_dist_ext w1 w t t Hx Hy eq_refl eq_refl), <- Hc.
  rewrite E in Hf |- *. unfold make_tile in *.
  match goal with |- context [assign_tile_defaults (Some p) w1 ?tl] =>
    destruct (assign_tile_defaults_flowers p w1 tl Hf) as (D & N & C & S & R)
  end.
  cbv zeta. rewrite C at 2.
  split; [exact D|]. split; [exact N|]. split; [exact C|].
  split; [exact S | exact R].
Qed.

(** The Flowers cell (1,-6) of the default lattice. *)
Lemma C8_flowers_resources_witness :
  exists t, nth_error default_tiles 32 = Some t /\
            nectar_capacity t = (c240 + c60 * pseudo_noise01 1 (-6))%f32.
Proof.
  assert (Hc : hex_world_create (fun _ => true) (Some zero_world)
                 (Some params_init_defaults) = (true, Some default_lattice))
    by (vm_compute; reflexivity).
  assert (Ht : tiles default_lattice = Some default_tiles)
    by (vm_compute; reflexivity).
  destruct (nth_error default_tiles 32) as [t|] eqn:E;
    [|vm_compute in E; discriminate E].
  exists t. split; [reflexivity|].
  pose proof (nth_error_In _ _ E) as Hin.
  pose proof (C8_flowers_resources _ _ _ _ _ _ t Hc Ht Hin) as H.
  vm_compute in E. inversion E; subst t.
  destruct (H eq_refl) as (_ & _ & Hcap & _). exact Hcap.
Defined.

(** C8 as stated fails at the Flowers cell (1,-6) of the default lattice:
    its noise exceeds 0.68 by less than 0.0072, yet its capacity is
    240 + 60 * noise = 281.2..., which is neither 240 + 60 * excess nor
    240 + 187.5 * excess (the slope that adds 60 at the largest excess,
    0.32), and exceeds both. *)
Lemma C8_counterexample :
  exists t, nth_error default_tiles 32 = Some t /\
    q t = 1 /\ r t = -6 /\ terrain t = HEX_TERRAIN_FLOWERS /\
    let noise := pseudo_noise01 1 (-6) in
    nectar_capacity t = (c240 + c60 * noise)%f32 /\
    nectar_capacity t <> capacity_scaled_by_excess c60 noise /\
    nectar_capacity t <> capacity_scaled_by_excess (of_int 375 / c2_0)%f32 noise /\
    (capacity_scaled_by_excess c60 noise <? nectar_capacity t)%f32 = true /\
    (capacity_scaled_by_excess (of_int 375 / c2_0)%f32 noise
       <? nectar_capacity t)%f32 = true /\
    (of_int 281 <? nectar_capacity t)%f32 = true.
Proof.
  eexists. split; [vm_compute; reflexivity|].
  vm_compute. repeat split; discriminate.
Qed.

(** * Single-precision rounding *)

(** ** Facts on binary digits *)

Lemma digits2_pos_size : forall p, digits2_pos p = Pos.size p.
Proof. induction p; simpl; congruence. Qed.

Lemma digits2_pos_bounds : forall p,
  2 ^ (Zpos (digits2_pos p) - 1) <= Zpos p < 2 ^ Zpos (digits2_pos p).
Proof.
  assert (S : forall d, 0 < d -> 2 ^ d = 2 * 2 ^ (d - 1)).
  { intros d Hd. replace d with (Z.succ (d - 1)) at 1 by lia.
    apply Z.pow_succ_r. lia. }
  induction p as [p IH|p IH|]; simpl digits2_pos.
  - rewrite Pos2Z.inj_succ, (Pos2Z.inj_xI p).
    replace (Z.succ (Zpos (digits2_pos p)) - 1) with (Zpos (digits2_pos p)) by lia.
    rewrite Z.pow_succ_r by lia.
    rewrite (S (Zpos (digits2_pos p))) in * by lia.
    set (P := 2 ^ (Zpos (digits2_pos p) - 1)) in *. clearbody P. clear S. lia.
  - rewrite Pos2Z.inj_succ, (Pos2Z.inj_xO p).
    replace (Z.succ (Zpos (digits2_pos p)) - 1) with (Zpos (digits2_pos p)) by lia.
    rewrite Z.pow_succ_r by lia.
    rewrite (S (Zpos (digits2_pos p))) in * by lia.
    set (P := 2 ^ (Zpos (digits2_pos p) - 1)) in *. clearbody P. clear S. lia.
  - simpl. lia.
Qed.

Lemma Zdigits2_bounds : forall m, 0 < m ->
  0 < Zdigits2 m /\ 2 ^ (Zdigits2 m - 1) <= m < 2 ^ Zdigits2 m.
Proof.
  intros [|p|p] Hm; try lia. simpl. split; [lia | apply digits2_pos_bounds].
Qed.

Lemma Zdigits2_unique : forall m d, 0 < d ->
  2 ^ (d - 1) <= m < 2 ^ d -> Zdigits2 m = d.
Proof.
  intros m d Hd Hm.
  assert (0 < m) by (pose proof (Z.pow_pos_nonneg 2 (d - 1)); lia).
  destruct (Zdigits2_bounds m H) as [Hp Hb].
  destruct (Z.lt_trichotomy (Zdigits2 m) d) as [L|[L|L]]; [exfalso|exact L|exfalso].
  - assert (2 ^ Zdigits2 m <= 2 ^ (d - 1)) by (apply Z.pow_le_mono_r; lia). lia.
  - assert (2 ^ d <= 2 ^ (Zdigits2 m - 1)) by (apply Z.pow_le_mono_r; lia). lia.
Qed.

Lemma Zdigits2_le : forall m d, 0 < m -> 0 <= d -> m < 2 ^ d -> Zdigits2 m <= d.
Proof.
  intros m d Hm Hd Hlt. destruct (Zdigits2_bounds m Hm) as [Hp Hb].
  destruct (Z_le_gt_dec (Zdigits2 m) d) as [L|L]; [exact L|exfalso].
  assert (2 ^ d <= 2 ^ (Zdigits2 m - 1)) by (apply Z.pow_le_mono_r; lia). lia.
Qed.

Lemma Zdigits2_ge : forall m d, 0 < d -> 2 ^ (d - 1) <= m -> d <= Zdigits2 m.
Proof.
  intros m d Hd Hle.
  assert (0 < m) by (pose proof (Z.pow_pos_nonneg 2 (d - 1)); lia).
  destruct (Zdigits2_bounds m H) as [Hp Hb].
  destruct (Z_le_gt_dec d (Zdigits2 m)) as [L|L]; [exact L|exfalso].
  assert (2 ^ Zdigits2 m <= 2 ^ (d - 1)) by (apply Z.pow_le_mono_r; lia). lia.
Qed.

(** ** Shifting right with a round bit and a sticky bit *)

Lemma iter_pos_nat : forall (A : Type) (f : A -> A) (n : positive) (x : A),
  iter_pos f n x = Nat.iter (Pos.to_nat n) f x.
Proof.
  intros A f n. induction n as [n IH|n IH|]; intros x; simpl iter_pos.
  - rewrite !IH, Pos2Nat.inj_xI.
    replace (S (2 * Pos.to_nat n)) with (Pos.to_nat n + Pos.to_nat n + 1)%nat by lia.
    rewrite !Nat.iter_add. reflexivity.
  - rewrite !IH, Pos2Nat.inj_xO.
    replace (2 * Pos.to_nat n)%nat with (Pos.to_nat n + Pos.to_nat n)%nat by lia.
    rewrite Nat.iter_add. reflexivity.
  - reflexivity.
Qed.

Lemma shr_1_spec : forall m rb sb, 0 <= m ->
  shr_1 (Build_shr_record m rb sb) = Build_shr_record (m / 2) (Z.odd m) (rb || sb).
Proof.
  intros m rb sb Hm. rewrite <- Z.div2_div.
  destruct m as [|[p|p|]|p]; try lia; reflexivity.
Qed.

Lemma shr_iter_spec : forall (k : nat) m, 0 <= m ->
  Nat.iter (S k) shr_1 (Build_shr_record m false false) =
  Build_shr_record (m / 2 ^ Z.of_nat (S k))
    (2 ^ Z.of_nat k <=? m mod 2 ^ Z.of_nat (S k))
    (negb (m mod 2 ^ Z.of_nat k =? 0)).
Proof.
  induction k as [|k IH]; intros m Hm.
  - change (Nat.iter 1 shr_1 ?x) with (shr_1 x).
    rewrite shr_1_spec by assumption.
    change (2 ^ Z.of_nat 1) with 2. change (2 ^ Z.of_nat 0) with 1.
    rewrite Z.mod_1_r. f_equal.
    rewrite Zodd_mod. pose proof (Z.mod_pos_bound m 2 ltac:(lia)).
    destruct (Z.eqb_spec (m mod 2) 1); destruct (Z.leb_spec 1 (m mod 2)); lia || reflexivity.
  - change (Nat.iter (S (S k)) shr_1 ?x) with (shr_1 (Nat.iter (S k) shr_1 x)).
    rewrite IH by assumption.
    assert (P : 0 < 2 ^ Z.of_nat k) by (apply Z.pow_pos_nonneg; lia).
    assert (E1 : 2 ^ Z.of_nat (S k) = 2 ^ Z.of_nat k * 2)
      by (rewrite Nat2Z.inj_succ, Z.pow_succ_r; lia).
    assert (E2 : 2 ^ Z.of_nat (S (S k)) = 2 ^ Z.of_nat (S k) * 2)
      by (rewrite (Nat2Z.inj_succ (S k)), Z.pow_succ_r; lia).
    rewrite shr_1_spec by (apply Z.div_pos; lia).
    rewrite Z.div_div by lia. rewrite <- E2. f_equal.
    + rewrite E2, Z.rem_mul_r by lia.
      rewrite Zodd_mod.
      pose proof (Z.mod_pos_bound m (2 ^ Z.of_nat (S k)) ltac:(lia)).
      pose proof (Z.mod_pos_bound (m / 2 ^ Z.of_nat (S k)) 2 ltac:(lia)).
      destruct (Z.eqb_spec ((m / 2 ^ Z.of_nat (S k)) mod 2) 1);
        destruct (Z.leb_spec (2 ^ Z.of_nat (S k))
                    (m mod 2 ^ Z.of_nat (S k) +
                     2 ^ Z.of_nat (S k) * ((m / 2 ^ Z.of_nat (S k)) mod 2)));
        lia || reflexivity.
    + assert (E3 : m mod 2 ^ Z.of_nat (S k) =
                   m mod 2 ^ Z.of_nat k + 2 ^ Z.of_nat k * ((m / 2 ^ Z.of_nat k) mod 2))
        by (rewrite E1; apply Z.rem_mul_r; lia).
      rewrite E3.
      pose proof (Z.mod_pos_bound m (2 ^ Z.of_nat k) ltac:(lia)).
      pose proof (Z.mod_pos_bound (m / 2 ^ Z.of_nat k) 2 ltac:(lia)).
      set (a := m mod 2 ^ Z.of_nat k) in *.
      set (b := (m / 2 ^ Z.of_nat k) mod 2) in *.
      set (P2 := 2 ^ Z.of_nat k) in *. clearbody a b P2.
      assert (Hb : b = 0 \/ b = 1) by lia.
      destruct Hb as [-> | ->];
        match goal with |- (?u <=? ?v) || negb (?x =? 0) = negb (?y =? 0) =>
          destruct (Z.leb_spec u v); destruct (Z.eqb_spec x 0);
          destruct (Z.eqb_spec y 0)
        end; simpl; try reflexivity; exfalso; lia.
Qed.

Lemma fexp32_ge : forall x, -149 <= fexp32 x.
Proof. intros x. unfold fexp32. lia. Qed.

Lemma fexp32_mono : forall x y, x <= y -> fexp32 x <= fexp32 y.
Proof. intros x y H. unfold fexp32. lia. Qed.

Lemma shr_pos_spec : forall m e n, 0 <= m -> 0 < n ->
  shr (Build_shr_record m false false) e n =
  (Build_shr_record (m / 2 ^ n) (2 ^ (n - 1) <=? m mod 2 ^ n)
     (negb (m mod 2 ^ (n - 1) =? 0)), e + n).
Proof.
  intros m e [|p|p] Hm Hn; try lia. unfold shr.
  rewrite iter_pos_nat.
  destruct (Pos2Nat.is_succ p) as [k Hk]. rewrite Hk.
  rewrite shr_iter_spec by assumption.
  assert (E1 : Z.of_nat (S k) = Zpos p) by (rewrite <- Hk; apply positive_nat_Z).
  assert (E2 : Z.of_nat k = Zpos p - 1) by lia.
  rewrite E1, E2. reflexivity.
Qed.

Lemma round_shr_spec : forall m n, 0 <= m -> 0 < n ->
  let rec := Build_shr_record (m / 2 ^ n) (2 ^ (n - 1) <=? m mod 2 ^ n)
               (negb (m mod 2 ^ (n - 1) =? 0)) in
  round_nearest_even (shr_m rec) (loc_of_shr_record rec) = rne_shift m n.
Proof.
  intros m n Hm Hn rec. subst rec. unfold rne_shift.
  destruct (Z.leb_spec n 0); [lia|]. cbv zeta.
  assert (P : 0 < 2 ^ (n - 1)) by (apply Z.pow_pos_nonneg; lia).
  assert (E : 2 ^ n = 2 ^ (n - 1) * 2).
  { replace n with (Z.succ (n - 1)) at 1 by lia. rewrite Z.pow_succ_r; lia. }
  assert (E3 : m mod 2 ^ n =
               m mod 2 ^ (n - 1) + 2 ^ (n - 1) * ((m / 2 ^ (n - 1)) mod 2))
    by (rewrite E; apply Z.rem_mul_r; lia).
  rewrite E3.
  pose proof (Z.mod_pos_bound m (2 ^ (n - 1)) ltac:(lia)).
  pose proof (Z.mod_pos_bound (m / 2 ^ (n - 1)) 2 ltac:(lia)).
  set (a := m mod 2 ^ (n - 1)) in *.
  set (b := (m / 2 ^ (n - 1)) mod 2) in *.
  set (h := 2 ^ (n - 1)) in *.
  set (qt := m / 2 ^ n). clearbody a b h qt.
  assert (Hb : b = 0 \/ b = 1) by lia.
  simpl shr_m.
  destruct Hb as [-> | ->];
    match goal with |- context [loc_of_shr_record
        {| shr_m := _; shr_r := (?u <=? ?v); shr_s := negb (?x =? 0) |}] =>
      destruct (Z.leb_spec u v); destruct (Z.eqb_spec x 0);
      destruct (Z.ltb_spec v u); destruct (Z.ltb_spec u v)
    end; simpl; try reflexivity; exfalso; lia.
Qed.

Lemma rne_shift_bounds : forall m n, 0 <= m -> 0 < n ->
  m / 2 ^ n <= rne_shift m n <= m / 2 ^ n + 1 /\
  (m mod 2 ^ n = 0 -> rne_shift m n = m / 2 ^ n).
Proof.
  intros m n Hm Hn. unfold rne_shift.
  destruct (Z.leb_spec n 0); [lia|]. cbv zeta.
  assert (P : 0 < 2 ^ (n - 1)) by (apply Z.pow_pos_nonneg; lia).
  split.
  - destruct (_ <? _); [lia|]. destruct (_ <? _); [lia|].
    destruct (Z.even _); lia.
  - intros ->. destruct (Z.ltb_spec 0 (2 ^ (n - 1))); [reflexivity | lia].
Qed.

(** [binary_round_aux] on an exact positive mantissa whose exponent does
    not exceed the target exponent. *)
Lemma binary_round_aux_spec : forall s m e,
  0 < m -> e <= fexp32 (Zdigits2 m + e) ->
  binary_round_aux prec emax s m e loc_Exact = round_pos s m e.
Proof.
  intros s m e Hm Hreg.
  destruct (Zdigits2_bounds m Hm) as [Hd Hb].
  unfold binary_round_aux, round_pos, shr_fexp.
  change (fexp prec emax) with fexp32.
  remember (fexp32 (Zdigits2 m + e)) as fe eqn:Efe.
  cbv zeta. simpl shr_record_of_loc.
  assert (Hfe : -149 <= fe) by (rewrite Efe; apply fexp32_ge).
  assert (Hfe2 : Zdigits2 m + e - 24 <= fe) by (rewrite Efe; unfold fexp32; lia).
  assert (Hlt : m < 2 ^ 24 * 2 ^ (fe - e)).
  { rewrite <- Z.pow_add_r by lia.
    apply Z.lt_le_trans with (2 ^ Zdigits2 m); [lia|].
    apply Z.pow_le_mono_r; lia. }
  assert (Hfin : forall m1, m1 <> 2 ^ 24 -> 0 <= m1 <= 2 ^ 24 ->
            (let '(mrs'', e'') :=
               shr (Build_shr_record m1 false false) fe
                   (fexp32 (Zdigits2 m1 + fe) - fe) in
             match shr_m mrs'' with
             | 0 => S754_zero s
             | Z.pos p => if e'' <=? emax - prec then S754_finite s p e''
                          else S754_infinity s
             | Z.neg _ => S754_nan
             end) = mk_float s m1 fe).
  { intros m1 Hne Hle.
    assert (Hs : fexp32 (Zdigits2 m1 + fe) - fe <= 0).
    { destruct m1 as [|p|p]; [unfold fexp32; simpl; lia| |lia].
      assert (Zdigits2 (Zpos p) <= 24) by (apply Zdigits2_le; lia).
      unfold fexp32. lia. }
    unfold shr. destruct (fexp32 (Zdigits2 m1 + fe) - fe); try lia; reflexivity. }
  destruct (Z.eq_dec fe e) as [E0|Hne].
  - (* no shift *)
    subst e. rewrite Z.sub_diag in *. unfold shr at 1. simpl loc_of_shr_record.
    simpl shr_m. unfold round_nearest_even, rne_shift. change (0 <=? 0) with true.
    cbv iota.
    assert (Hm24 : m <> 2 ^ 24).
    { intros ->. change (Zdigits2 (2 ^ 24)) with 25 in *.
      unfold fexp32 in Efe. lia. }
    replace (m =? 2 ^ 24) with false by (symmetry; apply Z.eqb_neq; exact Hm24).
    apply Hfin; [exact Hm24 | change (2 ^ 0) with 1 in Hlt; lia].
  - assert (Hn : 0 < fe - e) by lia.
    rewrite shr_pos_spec by lia.
    rewrite round_shr_spec by lia.
    replace (e + (fe - e)) with fe by lia.
    destruct (rne_shift_bounds m (fe - e) ltac:(lia) Hn) as [[B1 B2] _].
    assert (Hq : m / 2 ^ (fe - e) < 2 ^ 24).
    { apply Z.div_lt_upper_bound; [apply Z.pow_pos_nonneg; lia|]. lia. }
    assert (0 <= m / 2 ^ (fe - e))
      by (apply Z.div_pos; [lia | apply Z.pow_pos_nonneg; lia]).
    destruct (Z.eqb_spec (rne_shift m (fe - e)) (2 ^ 24)) as [E|E].
    + rewrite E. change (Zdigits2 (2 ^ 24)) with 25.
      replace (fexp32 (25 + fe) - fe) with 1 by (unfold fexp32; lia).
      reflexivity.
    + apply Hfin; [exact E | lia].
Qed.

(** ** Order of dyadic numbers *)

Lemma pow2_pos : forall k, 0 <= k -> 0 < 2 ^ k.
Proof. intros. apply Z.pow_pos_nonneg; lia. Qed.

Lemma pow2_split : forall a b, 0 <= b <= a -> 2 ^ a = 2 ^ (a - b) * 2 ^ b.
Proof. intros a b H. rewrite <- Z.pow_add_r by lia. f_equal. lia. Qed.

Lemma dyadic_le_scale : forall m1 e1 m2 e2 E,
  E <= e1 -> E <= e2 ->
  (dyadic_le m1 e1 m2 e2 <-> m1 * 2 ^ (e1 - E) <= m2 * 2 ^ (e2 - E)).
Proof.
  intros m1 e1 m2 e2 E H1 H2. unfold dyadic_le.
  set (M := Z.min e1 e2).
  assert (HM : E <= M) by (unfold M; lia).
  assert (HM1 : M <= e1) by (unfold M; lia).
  assert (HM2 : M <= e2) by (unfold M; lia).
  rewrite (pow2_split (e1 - E) (M - E)), (pow2_split (e2 - E) (M - E)) by lia.
  replace (e1 - E - (M - E)) with (e1 - M) by lia.
  replace (e2 - E - (M - E)) with (e2 - M) by lia.
  pose proof (pow2_pos (M - E) ltac:(lia)) as P.
  set (a := 2 ^ (e1 - M)) in *. set (b := 2 ^ (e2 - M)) in *.
  set (c := 2 ^ (M - E)) in *. clearbody a b c. split; intros H; nia.
Qed.

(** Values with more binary digits before the point are larger. *)
Lemma dyadic_le_digits : forall m1 e1 m2 e2,
  0 < m1 -> 0 < m2 -> dyadic_le m1 e1 m2 e2 ->
  Zdigits2 m1 + e1 <= Zdigits2 m2 + e2.
Proof.
  intros m1 e1 m2 e2 H1 H2 H.
  destruct (Zdigits2_bounds m1 H1) as [D1 B1].
  destruct (Zdigits2_bounds m2 H2) as [D2 B2].
  destruct (Z_le_gt_dec (Zdigits2 m1 + e1) (Zdigits2 m2 + e2)) as [L|L];
    [exact L | exfalso].
  assert (HE : exists E, E <= e1 /\ E <= e2) by (exists (Z.min e1 e2); lia).
  destruct HE as (E & HE1 & HE2).
  apply (dyadic_le_scale m1 e1 m2 e2 E) in H; try lia.
  assert (A : 2 ^ (Zdigits2 m1 - 1) * 2 ^ (e1 - E) <= m1 * 2 ^ (e1 - E)).
  { apply Z.mul_le_mono_nonneg_r; [apply Z.lt_le_incl, pow2_pos; lia | lia]. }
  assert (B : m2 * 2 ^ (e2 - E) < 2 ^ Zdigits2 m2 * 2 ^ (e2 - E)).
  { apply Z.mul_lt_mono_pos_r; [apply pow2_pos; lia | lia]. }
  rewrite <- Z.pow_add_r in A, B by lia.
  assert (C : 2 ^ (Zdigits2 m2 + (e2 - E)) <= 2 ^ (Zdigits2 m1 - 1 + (e1 - E)))
    by (apply Z.pow_le_mono_r; lia).
  eapply Z.lt_irrefl, Z.le_lt_trans; [|exact B].
  eapply Z.le_trans; [exact C|]. eapply Z.le_trans; [exact A | exact H].
Qed.

(** ** Comparison of canonical numbers *)

Lemma canonical32_digits : forall m e, canonical32 m e ->
  Zdigits2 (Zpos m) <= 24 /\ -149 <= e /\
  (-149 < e -> Zdigits2 (Zpos m) = 24).
Proof.
  intros m e [H _]. simpl Zdigits2. unfold fexp32 in H. lia.
Qed.

Lemma canonical32_lt : forall m e, canonical32 m e -> Zpos m < 2 ^ 24.
Proof.
  intros m e H. destruct (canonical32_digits m e H) as (D & _ & _).
  destruct (Zdigits2_bounds (Zpos m) ltac:(lia)) as [_ [_ B]].
  apply Z.lt_le_trans with (2 ^ Zdigits2 (Zpos m)); [exact B|].
  apply Z.pow_le_mono_r; lia.
Qed.

Lemma SFcompare_canonical : forall m1 e1 m2 e2,
  canonical32 m1 e1 -> canonical32 m2 e2 ->
  (dyadic_le (Zpos m1) e1 (Zpos m2) e2 <->
   SFleb (S754_finite false m1 e1) (S754_finite false m2 e2) = true).
Proof.
  intros m1 e1 m2 e2 C1 C2.
  assert (Hgt : forall a ea b eb, canonical32 a ea -> canonical32 b eb ->
            ea < eb -> ~ dyadic_le (Zpos b) eb (Zpos a) ea).
  { intros a ea b eb Ca Cb Hlt H.
    destruct (canonical32_digits a ea Ca) as (Da & La & _).
    destruct (canonical32_digits b eb Cb) as (Db & Lb & Nb).
    pose proof (dyadic_le_digits (Zpos b) eb (Zpos a) ea (Pos2Z.is_pos b)
                  (Pos2Z.is_pos a) H) as Hd.
    specialize (Nb ltac:(lia)). simpl Zdigits2 in *. lia. }
  unfold SFleb, SFcompare. rewrite Pos.compare_cont_spec. simpl Pos.switch_Eq.
  destruct (Z.compare_spec e1 e2) as [E|E|E].
  - subst e2. unfold dyadic_le. rewrite Z.min_id, Z.sub_diag.
    change (2 ^ 0) with 1. rewrite !Z.mul_1_r.
    unfold Z.le. simpl Z.compare.
    destruct (m1 ?= m2)%positive; split; intros H; try reflexivity;
      try discriminate; exfalso; apply H; reflexivity.
  - split; [reflexivity | intros _].
    apply (dyadic_le_scale _ _ _ _ e1); try lia.
    rewrite Z.sub_diag. change (2 ^ 0) with 1.
    pose proof (pow2_pos (e2 - e1) ltac:(lia)).
    destruct (canonical32_digits m1 e1 C1) as (D1 & L1 & _).
    destruct (canonical32_digits m2 e2 C2) as (D2 & L2 & N2).
    pose proof (canonical32_lt m1 e1 C1) as B1.
    assert (Zdigits2 (Zpos m2) = 24) by (apply N2; lia).
    destruct (Zdigits2_bounds (Zpos m2) ltac:(lia)) as [_ [B2 _]].
    rewrite H0 in B2. change (2 ^ (24 - 1)) with 8388608 in B2.
    change (2 ^ 24) with 16777216 in B1.
    assert (2 <= 2 ^ (e2 - e1)).
    { change 2 with (2 ^ 1) at 1. apply Z.pow_le_mono_r; lia. }
    nia.
  - split; [intros H; exfalso; exact (Hgt m2 e2 m1 e1 C2 C1 E H) | discriminate].
Qed.

(** ** The value and the form of a rounded number *)

Lemma rne_shift_props : forall m n, 0 <= m -> 0 <= n ->
  m / 2 ^ n <= rne_shift m n <= m / 2 ^ n + 1 /\
  (m mod 2 ^ n = 0 -> rne_shift m n = m / 2 ^ n).
Proof.
  intros m n Hm Hn. destruct (Z.eq_dec n 0) as [->|Hne].
  - unfold rne_shift. simpl. rewrite Z.div_1_r. lia.
  - apply rne_shift_bounds; lia.
Qed.

Lemma mk_float_pos : forall s m e, 0 < m -> e <= 104 ->
  exists p, m = Zpos p /\ mk_float s m e = S754_finite s p e.
Proof.
  intros s [|p|p] e Hm He; try lia. exists p. split; [reflexivity|].
  unfold mk_float. destruct (Z.leb_spec e 104); [reflexivity | lia].
Qed.

Lemma round_pos_value : forall s m e,
  0 < m -> e <= fexp32 (Zdigits2 m + e) ->
  let fe := fexp32 (Zdigits2 m + e) in
  exists m1 e1,
    round_pos s m e = mk_float s m1 e1 /\
    0 <= m1 < 2 ^ 24 /\ fe <= e1 <= fe + 1 /\
    (0 < m1 -> fexp32 (Zdigits2 m1 + e1) = e1) /\
    m1 * 2 ^ (e1 - e) = rne_shift m (fe - e) * 2 ^ (fe - e).
Proof.
  intros s m e Hm Hreg fe. fold fe in Hreg.
  destruct (Zdigits2_bounds m Hm) as [Hd Hb].
  assert (Hfe : -149 <= fe) by apply fexp32_ge.
  assert (Hfe2 : Zdigits2 m + e - 24 <= fe) by (unfold fe, fexp32; lia).
  assert (Hn : 0 <= fe - e) by lia.
  pose proof (pow2_pos (fe - e) Hn) as P.
  destruct (rne_shift_props m (fe - e) ltac:(lia) Hn) as [[B1 B2] _].
  assert (Hq0 : 0 <= m / 2 ^ (fe - e)) by (apply Z.div_pos; lia).
  assert (Hq : m / 2 ^ (fe - e) < 2 ^ 24).
  { apply Z.div_lt_upper_bound; [exact P|].
    rewrite Z.mul_comm, <- Z.pow_add_r by lia.
    apply Z.lt_le_trans with (2 ^ Zdigits2 m); [lia|].
    apply Z.pow_le_mono_r; lia. }
  assert (Hq23 : -149 < fe -> 2 ^ 23 <= m / 2 ^ (fe - e)).
  { intros Hs. assert (Efe : fe = Zdigits2 m + e - 24) by (unfold fe, fexp32 in *; lia).
    apply Z.div_le_lower_bound; [exact P|].
    rewrite <- Z.pow_add_r by lia.
    apply Z.le_trans with (2 ^ (Zdigits2 m - 1)); [|lia].
    apply Z.pow_le_mono_r; lia. }
  unfold round_pos. fold fe.
  destruct (Z.eqb_spec (rne_shift m (fe - e)) (2 ^ 24)) as [E|E].
  - exists (2 ^ 23), (fe + 1). split; [reflexivity|].
    split; [simpl; lia|]. split; [lia|]. split.
    + intros _. change (Zdigits2 (2 ^ 23)) with 24. unfold fexp32. lia.
    + rewrite E. replace (fe + 1 - e) with (1 + (fe - e)) by lia.
      rewrite Z.pow_add_r by lia. change (2 ^ 24) with (2 ^ 23 * 2 ^ 1). lia.
  - exists (rne_shift m (fe - e)), fe. split; [reflexivity|].
    split; [lia|]. split; [lia|]. split; [|reflexivity].
    intros Hpos.
    assert (D : Zdigits2 (rne_shift m (fe - e)) <= 24) by (apply Zdigits2_le; lia).
    destruct (Z.eq_dec fe (-149)) as [Es|Es].
    + rewrite Es in *. unfold fexp32. lia.
    + assert (24 <= Zdigits2 (rne_shift m (fe - e))).
      { apply Zdigits2_ge; [lia|]. specialize (Hq23 ltac:(lia)).
        change (2 ^ (24 - 1)) with (2 ^ 23). lia. }
      unfold fexp32. lia.
Qed.

(** A rounded number is not above a binary32 number that bounds the
    exact value from above, nor below one that bounds it from below. *)
Lemma round_pos_le : forall m e mx ex,
  0 < m -> e <= fexp32 (Zdigits2 m + e) ->
  canonical32 mx ex -> e <= ex ->
  m <= Zpos mx * 2 ^ (ex - e) ->
  SFleb (round_pos false m e) (S754_finite false mx ex) = true.
Proof.
  intros m e mx ex Hm Hreg Cx Hex Hle.
  destruct (round_pos_value false m e Hm Hreg) as (m1 & e1 & -> & Hm1 & He1 & Hc & Hv).
  set (fe := fexp32 (Zdigits2 m + e)) in *.
  assert (Hfe : -149 <= fe) by apply fexp32_ge.
  assert (Hn : 0 <= fe - e) by lia.
  pose proof (pow2_pos (fe - e) Hn) as P.
  destruct (rne_shift_props m (fe - e) ltac:(lia) Hn) as [[B1 B2] Bx].
  (* the target exponent does not exceed that of the bound *)
  assert (Hfx : fe <= ex).
  { assert (D : dyadic_le m e (Zpos mx) ex).
    { apply (dyadic_le_scale _ _ _ _ e); try lia.
      rewrite Z.sub_diag. change (2 ^ 0) with 1. lia. }
    pose proof (dyadic_le_digits _ _ _ _ Hm (Pos2Z.is_pos mx) D) as Hd.
    destruct Cx as [Cx _]. rewrite <- Cx. apply fexp32_mono. exact Hd. }
  (* the bound is a multiple of the rounding step *)
  assert (Ex : Zpos mx * 2 ^ (ex - e) = (Zpos mx * 2 ^ (ex - fe)) * 2 ^ (fe - e)).
  { rewrite <- Z.mul_assoc, <- Z.pow_add_r by lia. do 2 f_equal. lia. }
  set (X := Zpos mx * 2 ^ (ex - fe)) in *.
  assert (Hr : rne_shift m (fe - e) <= X).
  { assert (Hq : m / 2 ^ (fe - e) <= X).
    { apply Z.div_le_upper_bound; [exact P|]. lia. }
    destruct (Z.eq_dec (m / 2 ^ (fe - e)) X) as [Eq|Nq]; [|lia].
    rewrite Bx; [lia|].
    pose proof (Z.div_mod m (2 ^ (fe - e)) ltac:(lia)) as DM.
    pose proof (Z.mod_pos_bound m (2 ^ (fe - e)) P) as MB.
    rewrite Eq in DM. nia. }
  destruct (Z.eq_dec m1 0) as [->|Hnz]; [reflexivity|].
  assert (Hv2 : m1 * 2 ^ (e1 - e) <= Zpos mx * 2 ^ (ex - e)).
  { rewrite Hv, Ex. apply Z.mul_le_mono_nonneg_r; lia. }
  assert (He1x : e1 <= ex).
  { destruct (Z_le_gt_dec e1 ex) as [L|G]; [exact L | exfalso].
    assert (e1 = fe + 1 /\ ex = fe) as [E1 E2] by lia.
    pose proof (canonical32_lt mx ex Cx) as Bm.
    assert (C : fexp32 (Zdigits2 m1 + e1) = e1) by (apply Hc; lia).
    assert (24 <= Zdigits2 m1) by (unfold fexp32 in C; lia).
    destruct (Zdigits2_bounds m1 ltac:(lia)) as [_ [Bl _]].
    assert (2 ^ 23 <= m1).
    { apply Z.le_trans with (2 ^ (Zdigits2 m1 - 1)); [|exact Bl].
      apply Z.pow_le_mono_r; lia. }
    rewrite E1, E2 in Hv2.
    replace (fe + 1 - e) with (1 + (fe - e)) in Hv2 by lia.
    rewrite Z.pow_add_r in Hv2 by lia. change (2 ^ 1) with 2 in Hv2.
    change (2 ^ 24) with 16777216 in Bm. change (2 ^ 23) with 8388608 in H0.
    nia. }
  destruct (mk_float_pos false m1 e1 ltac:(lia) ltac:(destruct Cx; lia))
    as (p1 & Ep & ->).
  subst m1.
  apply SFcompare_canonical;
    [split; [apply Hc; lia | destruct Cx; lia] | exact Cx |].
  apply (dyadic_le_scale _ _ _ _ e); lia.
Qed.

Lemma SFleb_finite_mk_float : forall mx ex m1 e1,
  canonical32 mx ex -> 0 < m1 -> fexp32 (Zdigits2 m1 + e1) = e1 ->
  dyadic_le (Zpos mx) ex m1 e1 ->
  SFleb (S754_finite false mx ex) (mk_float false m1 e1) = true.
Proof.
  intros mx ex m1 e1 Cx Hm1 Hc D.
  destruct m1 as [|p1|p1]; try lia. unfold mk_float.
  destruct (Z.leb_spec e1 104); [|reflexivity].
  apply SFcompare_canonical; [exact Cx | split; assumption | exact D].
Qed.

Lemma round_pos_ge : forall m e mx ex,
  0 < m -> e <= fexp32 (Zdigits2 m + e) ->
  canonical32 mx ex -> e <= ex ->
  Zpos mx * 2 ^ (ex - e) <= m ->
  SFleb (S754_finite false mx ex) (round_pos false m e) = true.
Proof.
  intros m e mx ex Hm Hreg Cx Hex Hle.
  destruct (round_pos_value false m e Hm Hreg) as (m1 & e1 & -> & Hm1 & He1 & Hc & Hv).
  set (fe := fexp32 (Zdigits2 m + e)) in *.
  assert (Hfe : -149 <= fe) by apply fexp32_ge.
  assert (Hn : 0 <= fe - e) by lia.
  pose proof (pow2_pos (fe - e) Hn) as P.
  pose proof (pow2_pos (ex - e) ltac:(lia)) as Px.
  destruct (rne_shift_props m (fe - e) ltac:(lia) Hn) as [[B1 B2] Bx].
  destruct (Zdigits2_bounds m Hm) as [Hd Hb].
  assert (Hfx : ex <= fe).
  { assert (D : dyadic_le (Zpos mx) ex m e).
    { apply (dyadic_le_scale _ _ _ _ e); try lia.
      rewrite Z.sub_diag. change (2 ^ 0) with 1. lia. }
    pose proof (dyadic_le_digits _ _ _ _ (Pos2Z.is_pos mx) Hm D) as Hdd.
    destruct Cx as [Cx _]. rewrite <- Cx. apply fexp32_mono. exact Hdd. }
  assert (Hr : Zpos mx * 2 ^ (ex - e) <= rne_shift m (fe - e) * 2 ^ (fe - e)).
  { apply Z.le_trans with (m / 2 ^ (fe - e) * 2 ^ (fe - e));
      [|apply Z.mul_le_mono_nonneg_r; lia].
    destruct (Z.eq_dec ex fe) as [E|N].
    - rewrite E. apply Z.mul_le_mono_nonneg_r; [lia|].
      apply Z.div_le_lower_bound; [exact P|]. rewrite E in Hle. lia.
    - destruct (canonical32_digits mx ex Cx) as (_ & Lx & _).
      assert (Efe : fe = Zdigits2 m + e - 24) by (unfold fe, fexp32 in *; lia).
      pose proof (canonical32_lt mx ex Cx) as Bm.
      assert (Hq23 : 2 ^ 23 <= m / 2 ^ (fe - e)).
      { apply Z.div_le_lower_bound; [exact P|].
        rewrite <- Z.pow_add_r by lia.
        apply Z.le_trans with (2 ^ (Zdigits2 m - 1)); [|lia].
        apply Z.pow_le_mono_r; lia. }
      assert (E2 : 2 ^ (fe - e) = 2 ^ (fe - ex) * 2 ^ (ex - e)).
      { rewrite <- Z.pow_add_r by lia. f_equal. lia. }
      assert (2 <= 2 ^ (fe - ex)).
      { change 2 with (2 ^ 1) at 1. apply Z.pow_le_mono_r; lia. }
      change (2 ^ 24) with 16777216 in Bm.
      change (2 ^ 23) with 8388608 in Hq23.
      set (qq := m / 2 ^ (fe - e)) in *. rewrite E2.
      set (a := 2 ^ (fe - ex)) in *. set (b := 2 ^ (ex - e)) in *.
      clearbody a b qq.
      assert (16777216 <= qq * a) by nia.
      rewrite Z.mul_assoc. apply Z.mul_le_mono_nonneg_r; lia. }
  rewrite <- Hv in Hr.
  assert (Hpos : 0 < m1).
  { destruct (Z.eq_dec m1 0) as [->|]; [|lia]. rewrite Z.mul_0_l in Hr.
    pose proof (Pos2Z.is_pos mx). nia. }
  apply SFleb_finite_mk_float; [exact Cx | exact Hpos | apply Hc; exact Hpos |].
  apply (dyadic_le_scale _ _ _ _ e); lia.
Qed.

(** ** The operations in terms of the rounding *)

Lemma Zdigits2_shift : forall m k, 0 < m -> 0 <= k ->
  Zdigits2 (m * 2 ^ k) = Zdigits2 m + k.
Proof.
  intros m k Hm Hk. destruct (Zdigits2_bounds m Hm) as [Hd Hb].
  pose proof (pow2_pos k Hk) as P.
  apply Zdigits2_unique; [lia|].
  replace (Zdigits2 m + k - 1) with (Zdigits2 m - 1 + k) by lia.
  rewrite !Z.pow_add_r by lia. nia.
Qed.

Lemma iter_xO_spec : forall m d,
  Zpos (Pos.iter xO m d) = Zpos m * 2 ^ Zpos d.
Proof.
  intros m d. change (Pos.iter xO m d) with (shift_pos d m).
  rewrite shift_pos_correct, Z.pow_pos_fold. lia.
Qed.

Lemma shl_align_spec : forall m e e', e' <= e ->
  Zpos (fst (shl_align m e e')) = Zpos m * 2 ^ (e - e') /\
  snd (shl_align m e e') = e'.
Proof.
  intros m e e' H. unfold shl_align.
  destruct (e' - e) as [|p|p] eqn:E; try lia.
  - replace (e - e') with 0 by lia. simpl. lia.
  - simpl fst. simpl snd. rewrite iter_xO_spec.
    replace (e - e') with (Zpos p) by lia. auto.
Qed.

Lemma align32_regime : forall m e,
  let '(m', e') := align32 m e in
  0 < m' /\ e' <= fexp32 (Zdigits2 m' + e') /\ e' <= e /\
  m' = Zpos m * 2 ^ (e - e').
Proof.
  intros m e. unfold align32.
  set (fe := fexp32 (Zpos (digits2_pos m) + e)).
  destruct (Z.ltb_spec fe e) as [L|L].
  - pose proof (pow2_pos (e - fe) ltac:(lia)) as P.
    split; [nia|]. split; [|split; [lia | reflexivity]].
    rewrite Zdigits2_shift by lia. simpl Zdigits2.
    replace (Zpos (digits2_pos m) + (e - fe) + fe) with (Zpos (digits2_pos m) + e) by lia.
    fold fe. lia.
  - split; [lia|]. split; [exact L|]. split; [lia|].
    rewrite Z.sub_diag. simpl. lia.
Qed.

Lemma binary_round_spec : forall s m e,
  binary_round prec emax s m e =
  round_pos s (fst (align32 m e)) (snd (align32 m e)).
Proof.
  intros s m e. pose proof (align32_regime m e) as R.
  unfold binary_round. change (fexp prec emax) with fexp32.
  unfold align32 in *. set (fe := fexp32 (Zpos (digits2_pos m) + e)) in *.
  destruct (Z.ltb_spec fe e) as [L|L].
  - destruct (shl_align_spec m e fe ltac:(lia)) as [E1 E2].
    destruct (shl_align m e fe) as [mz ez]. simpl in E1, E2. subst ez.
    simpl fst in *. simpl snd in *. rewrite E1.
    apply binary_round_aux_spec; lia || apply R.
  - unfold shl_align. destruct (fe - e) as [|p|p] eqn:E; try lia;
      simpl fst; simpl snd; apply binary_round_aux_spec; lia || apply R.
Qed.

Lemma mk_float_valid : forall s m e,
  0 <= m -> (0 < m -> fexp32 (Zdigits2 m + e) = e) ->
  valid32 (mk_float s m e) /\ (s = false -> nonneg32 (mk_float s m e)).
Proof.
  intros s [|p|p] e Hm Hc; try lia; simpl; [auto|].
  destruct (Z.leb_spec e 104); simpl; [|auto].
  assert (C : canonical32 p e) by (split; [apply Hc; lia | assumption]).
  auto.
Qed.

Lemma round_pos_valid : forall s m e,
  0 < m -> e <= fexp32 (Zdigits2 m + e) ->
  valid32 (round_pos s m e) /\ (s = false -> nonneg32 (round_pos s m e)).
Proof.
  intros s m e Hm Hreg.
  destruct (round_pos_value s m e Hm Hreg) as (m1 & e1 & -> & Hm1 & _ & Hc & _).
  apply mk_float_valid; [lia | exact Hc].
Qed.

Lemma binary_round_valid : forall s m e,
  valid32 (binary_round prec emax s m e) /\
  (s = false -> nonneg32 (binary_round prec emax s m e)).
Proof.
  intros s m e. rewrite binary_round_spec.
  pose proof (align32_regime m e) as R. destruct (align32 m e) as [m' e'].
  apply round_pos_valid; apply R.
Qed.

Lemma binary_normalize_valid : forall z e,
  valid32 (binary_normalize prec emax z e false) /\
  (0 <= z -> nonneg32 (binary_normalize prec emax z e false)).
Proof.
  intros [|p|p] e; simpl.
  - auto.
  - destruct (binary_round_valid false p e) as [V N]. auto.
  - destruct (binary_round_valid true p e) as [V _]. split; [exact V | lia].
Qed.

(** The product of two canonical mantissas needs no alignment. *)
Lemma mul_regime : forall mx ex my ey,
  canonical32 mx ex -> canonical32 my ey ->
  ex + ey <= fexp32 (Zdigits2 (Zpos (mx * my)) + (ex + ey)).
Proof.
  intros mx ex my ey Cx Cy.
  destruct (canonical32_digits mx ex Cx) as (Dx & Lx & Nx).
  destruct (canonical32_digits my ey Cy) as (Dy & Ly & Ny).
  destruct (Zdigits2_bounds (Zpos mx) ltac:(lia)) as [Px [Bx _]].
  destruct (Zdigits2_bounds (Zpos my) ltac:(lia)) as [Py [By _]].
  assert (D : Zdigits2 (Zpos mx) + Zdigits2 (Zpos my) - 1 <= Zdigits2 (Zpos (mx * my))).
  { apply Zdigits2_ge; [lia|]. rewrite Pos2Z.inj_mul.
    replace (Zdigits2 (Zpos mx) + Zdigits2 (Zpos my) - 1 - 1)
      with ((Zdigits2 (Zpos mx) - 1) + (Zdigits2 (Zpos my) - 1)) by lia.
    rewrite Z.pow_add_r by lia.
    pose proof (pow2_pos (Zdigits2 (Zpos mx) - 1) ltac:(lia)).
    pose proof (pow2_pos (Zdigits2 (Zpos my) - 1) ltac:(lia)).
    nia. }
  unfold fexp32.
  destruct (Z.eq_dec ex (-149)); destruct (Z.eq_dec ey (-149));
    try specialize (Nx ltac:(lia)); try specialize (Ny ltac:(lia)); lia.
Qed.

Lemma mul_finite_spec : forall sx mx ex sy my ey,
  canonical32 mx ex -> canonical32 my ey ->
  F32.mul (S754_finite sx mx ex) (S754_finite sy my ey) =
  round_pos (xorb sx sy) (Zpos (mx * my)) (ex + ey).
Proof.
  intros. unfold F32.mul, SFmul.
  apply binary_round_aux_spec; [lia | apply mul_regime; assumption].
Qed.

Lemma mul_valid : forall x y,
  valid32 x -> valid32 y ->
  (forall s, x = S754_infinity s -> forall s', y <> S754_zero s') ->
  (forall s, y = S754_infinity s -> forall s', x <> S754_zero s') ->
  valid32 (F32.mul x y) /\
  (nonneg32 x -> nonneg32 y -> nonneg32 (F32.mul x y)).
Proof.
  intros [sx|sx| |sx mx ex] [sy|sy| |sy my ey] Vx Vy H1 H2;
    try contradiction;
    try (exfalso; eapply H1; reflexivity);
    try (exfalso; eapply H2; reflexivity).
  all: try match goal with
    |- context [F32.mul (S754_finite ?a ?b ?c) (S754_finite ?d ?e ?f)] =>
      rewrite mul_finite_spec by assumption;
      destruct (round_pos_valid (xorb a d) (Zpos (b * e)) (c + f)
                  ltac:(lia) (mul_regime b c e f Vx Vy)) as [V N];
      split; [exact V|]; intros [-> _] [-> _]; apply N; reflexivity
    end.
  all: simpl;
    try (split; [exact I | intros; subst; reflexivity]);
    try (split; [exact I | intros [? _] ?; subst; reflexivity]);
    try (split; [exact I | intros ? [? _]; subst; reflexivity]).
Qed.

Lemma round_pos_exact : forall s m e,
  0 < m -> fexp32 (Zdigits2 m + e) = e -> e <= 104 ->
  round_pos s m e = S754_finite s (Z.to_pos m) e.
Proof.
  intros s m e Hm Hc He. unfold round_pos. rewrite Hc, Z.sub_diag.
  unfold rne_shift. change (0 <=? 0) with true. cbv iota.
  assert (Hne : m <> 2 ^ 24).
  { intros ->. change (Zdigits2 (2 ^ 24)) with 25 in Hc. unfold fexp32 in Hc. lia. }
  replace (m =? 2 ^ 24) with false by (symmetry; apply Z.eqb_neq; exact Hne).
  destruct m as [|p|p]; try lia. simpl.
  destruct (Z.leb_spec e 104); [reflexivity | lia].
Qed.

Lemma add_finite_spec : forall sx mx ex sy my ey,
  F32.add (S754_finite sx mx ex) (S754_finite sy my ey) =
  binary_normalize prec emax
    (cond_Zopp sx (Zpos mx * 2 ^ (ex - Z.min ex ey)) +
     cond_Zopp sy (Zpos my * 2 ^ (ey - Z.min ex ey))) (Z.min ex ey) false.
Proof.
  intros. unfold F32.add, SFadd.
  destruct (shl_align_spec mx ex (Z.min ex ey) ltac:(lia)) as [-> _].
  destruct (shl_align_spec my ey (Z.min ex ey) ltac:(lia)) as [-> _].
  reflexivity.
Qed.

Lemma sub_finite_spec : forall sx mx ex sy my ey,
  F32.sub (S754_finite sx mx ex) (S754_finite sy my ey) =
  binary_normalize prec emax
    (cond_Zopp sx (Zpos mx * 2 ^ (ex - Z.min ex ey)) -
     cond_Zopp sy (Zpos my * 2 ^ (ey - Z.min ex ey))) (Z.min ex ey) false.
Proof.
  intros. unfold F32.sub, SFsub.
  destruct (shl_align_spec mx ex (Z.min ex ey) ltac:(lia)) as [-> _].
  destruct (shl_align_spec my ey (Z.min ex ey) ltac:(lia)) as [-> _].
  reflexivity.
Qed.

Lemma add_finite_valid : forall sx mx ex sy my ey,
  valid32 (F32.add (S754_finite sx mx ex) (S754_finite sy my ey)) /\
  (sx = false -> sy = false ->
   nonneg32 (F32.add (S754_finite sx mx ex) (S754_finite sy my ey))).
Proof.
  intros. rewrite add_finite_spec.
  match goal with |- context [binary_normalize _ _ ?z ?e0 false] =>
    destruct (binary_normalize_valid z e0) as [V N] end.
  split; [exact V|]. intros -> ->. apply N. unfold cond_Zopp.
  pose proof (pow2_pos (ex - Z.min ex ey) ltac:(lia)).
  pose proof (pow2_pos (ey - Z.min ex ey) ltac:(lia)).
  pose proof (Pos2Z.is_pos mx). pose proof (Pos2Z.is_pos my). nia.
Qed.

(** A sum is valid unless it is infinity minus infinity; the sum of two
    non-negative values is non-negative. *)
Lemma add_valid : forall x y,
  valid32 x -> valid32 y ->
  (forall s, x = S754_infinity s -> y <> S754_infinity (negb s)) ->
  valid32 (F32.add x y) /\
  (nonneg32 x -> nonneg32 y -> nonneg32 (F32.add x y)).
Proof.
  intros [sx|sx| |sx mx ex] [sy|sy| |sy my ey] Vx Vy H1; try contradiction.
  all: try match goal with
    |- context [F32.add (S754_finite ?a ?b ?c) (S754_finite ?d ?e ?f)] =>
      destruct (add_finite_valid a b c d e f) as [V N];
      split; [exact V|]; intros [-> _] [-> _]; apply N; reflexivity
    end.
  all: try (specialize (H1 _ eq_refl)).
  all: destruct sx, sy; simpl in *; try (exfalso; apply H1; reflexivity);
    try (split; [exact I || assumption | intros; subst; auto; try discriminate]);
    auto; try tauto.
Qed.

Lemma sub_valid : forall x y,
  valid32 x -> valid32 y ->
  (forall s, x = S754_infinity s -> y <> S754_infinity s) ->
  valid32 (F32.sub x y).
Proof.
  intros [sx|sx| |sx mx ex] [sy|sy| |sy my ey] Vx Vy H1; try contradiction.
  all: try match goal with
    |- context [F32.sub (S754_finite ?a ?b ?c) (S754_finite ?d ?e ?f)] =>
      rewrite sub_finite_spec;
      match goal with |- context [binary_normalize _ _ ?z ?e0 false] =>
        destruct (binary_normalize_valid z e0) as [V N] end;
      exact V
    end.
  all: try (specialize (H1 _ eq_refl)).
  all: destruct sx, sy; simpl in *; try (exfalso; apply H1; reflexivity);
    auto.
Qed.

Lemma SFleb_refl_finite : forall m e,
  SFleb (S754_finite false m e) (S754_finite false m e) = true.
Proof.
  intros m e. unfold SFleb, SFcompare. rewrite Z.compare_refl.
  rewrite Pos.compare_cont_refl. reflexivity.
Qed.

Lemma nonneg32_leb_zero : forall x, nonneg32 x -> (zero <=? x)%f32 = true.
Proof.
  intros [s|s| |s m e] H; simpl in H.
  - subst s. reflexivity.
  - subst s. reflexivity.
  - contradiction.
  - destruct H as [-> _]. reflexivity.
Qed.

(** Adding a non-negative value to a positive number does not decrease it. *)
Lemma add_ge_left : forall mx ex y,
  canonical32 mx ex -> nonneg32 y ->
  (S754_finite false mx ex <=? S754_finite false mx ex + y)%f32 = true.
Proof.
  intros mx ex [sy|sy| |sy my ey] Cx Ny; simpl in Ny; try contradiction.
  - subst sy. apply SFleb_refl_finite.
  - subst sy. reflexivity.
  - destruct Ny as [-> Cy]. rewrite add_finite_spec. unfold cond_Zopp.
    set (ez := Z.min ex ey).
    pose proof (pow2_pos (ex - ez) ltac:(unfold ez; lia)) as P1.
    pose proof (pow2_pos (ey - ez) ltac:(unfold ez; lia)) as P2.
    pose proof (Pos2Z.is_pos mx) as Qx. pose proof (Pos2Z.is_pos my) as Qy.
    destruct (Zpos mx * 2 ^ (ex - ez) + Zpos my * 2 ^ (ey - ez)) as [|p|p] eqn:E;
      try (exfalso; nia).
    simpl binary_normalize. unfold F32.leb. rewrite binary_round_spec.
    pose proof (align32_regime p ez) as R.
    destruct (align32 p ez) as [m' e']. simpl fst. simpl snd.
    destruct R as (R1 & R2 & R3 & R4).
    apply round_pos_ge; try assumption; [unfold ez in *; lia|].
    rewrite R4, <- E.
    replace (ex - e') with ((ex - ez) + (ez - e')) by lia.
    rewrite Z.pow_add_r by (unfold ez in *; lia).
    pose proof (pow2_pos (ez - e') ltac:(lia)) as P3.
    rewrite Z.mul_assoc. apply Z.mul_le_mono_nonneg_r; [lia|].
    nia.
Qed.

(** Multiplying a positive number by a number below one does not
    increase it. *)
Lemma mul_le_left : forall mx ex my ey,
  canonical32 mx ex -> canonical32 my ey -> ey <= -24 ->
  (S754_finite false mx ex * S754_finite false my ey <=? S754_finite false mx ex)%f32
    = true.
Proof.
  intros mx ex my ey Cx Cy Hey. rewrite mul_finite_spec by assumption.
  simpl xorb. unfold F32.leb.
  apply round_pos_le; try assumption; [lia | apply mul_regime; assumption | lia |].
  replace (ex - (ex + ey)) with (- ey) by lia. rewrite Pos2Z.inj_mul.
  pose proof (canonical32_lt my ey Cy) as B.
  assert (2 ^ 24 <= 2 ^ (- ey)) by (apply Z.pow_le_mono_r; lia).
  apply Z.mul_le_mono_nonneg_l; lia.
Qed.

(** ** The noise value is an exact multiple of 2^-24 *)

Lemma round_pos_shift : forall s m e k,
  0 < m -> 0 <= k -> fexp32 (Zdigits2 m + e) = e -> e <= 104 ->
  round_pos s (m * 2 ^ k) (e - k) = S754_finite s (Z.to_pos m) e.
Proof.
  intros s m e k Hm Hk Hc He. pose proof (pow2_pos k Hk) as P.
  unfold round_pos. rewrite Zdigits2_shift by assumption.
  replace (Zdigits2 m + k + (e - k)) with (Zdigits2 m + e) by lia.
  rewrite Hc. replace (e - (e - k)) with k by lia.
  destruct (rne_shift_props (m * 2 ^ k) k ltac:(nia) Hk) as [_ Hx].
  rewrite Hx by (apply Z.mod_mul; lia). rewrite Z.div_mul by lia.
  assert (Hne : m <> 2 ^ 24).
  { intros ->. change (Zdigits2 (2 ^ 24)) with 25 in Hc. unfold fexp32 in Hc. lia. }
  replace (m =? 2 ^ 24) with false by (symmetry; apply Z.eqb_neq; exact Hne).
  destruct m as [|p|p]; try lia. simpl.
  destruct (Z.leb_spec e 104); [reflexivity | lia].
Qed.

Lemma of_int_small : forall k, 0 < k < 2 ^ 24 ->
  of_int k =
  S754_finite false (Z.to_pos (k * 2 ^ (24 - Zdigits2 k))) (Zdigits2 k - 24) /\
  Zdigits2 (k * 2 ^ (24 - Zdigits2 k)) = 24 /\ 0 < Zdigits2 k <= 24.
Proof.
  intros k Hk. destruct (Zdigits2_bounds k ltac:(lia)) as [Hd Hb].
  assert (Hd24 : Zdigits2 k <= 24) by (apply Zdigits2_le; lia).
  assert (E24 : Zdigits2 (k * 2 ^ (24 - Zdigits2 k)) = 24)
    by (rewrite Zdigits2_shift by lia; lia).
  split; [|split; [exact E24 | lia]].
  destruct k as [|p|p]; try lia.
  unfold of_int. simpl binary_normalize. rewrite binary_round_spec.
  unfold align32. change (Zpos (digits2_pos p)) with (Zdigits2 (Zpos p)).
  set (d := Zdigits2 (Zpos p)) in *.
  assert (Ef : fexp32 (d + 0) = d - 24) by (unfold fexp32; lia).
  rewrite Ef. pose proof (pow2_pos (24 - d) ltac:(lia)) as P.
  destruct (Z.ltb_spec (d - 24) 0) as [L|L]; cbn [fst snd].
  - replace (0 - (d - 24)) with (24 - d) by lia.
    rewrite round_pos_exact; [reflexivity | nia | | lia].
    rewrite E24. unfold fexp32. lia.
  - assert (Ed : d = 24) by lia. rewrite Ed. change (2 ^ (24 - 24)) with 1.
    rewrite Z.mul_1_r. change (24 - 24) with 0.
    rewrite round_pos_exact; [reflexivity | lia | | lia].
    fold d. rewrite Ed. reflexivity.
Qed.

Lemma div_eucl_pair : forall a b, Z.div_eucl a b = (a / b, a mod b).
Proof.
  intros a b. unfold Z.div, Z.modulo. destruct (Z.div_eucl a b). reflexivity.
Qed.

(** Dividing a normal number by 2^24 subtracts 24 from its exponent. *)
Lemma div_pow24 : forall p e1,
  Zdigits2 (Zpos p) = 24 -> -24 <= e1 <= 0 ->
  (S754_finite false p e1 / of_int 0x1000000)%f32 = S754_finite false p (e1 - 24).
Proof.
  intros p e1 Hd He.
  change (of_int 0x1000000) with (S754_finite false 8388608 1).
  unfold F32.div, SFdiv, SFdiv_core_binary.
  change (fexp prec emax) with fexp32. rewrite Hd.
  change (Zdigits2 (Zpos 8388608)) with 24.
  replace (Z.min (fexp32 (24 + e1 - (24 + 1))) (e1 - 1)) with (e1 - 25)
    by (unfold fexp32; lia).
  replace (e1 - 1 - (e1 - 25)) with 24 by lia. cbv iota.
  rewrite Z.shiftl_mul_pow2 by lia. rewrite div_eucl_pair.
  replace (Zpos p * 2 ^ 24) with ((Zpos p * 2) * 8388608) by (change (2 ^ 24) with 16777216; lia).
  rewrite Z.div_mul, Z.mod_mul by lia.
  change (new_location 8388608 0) with loc_Exact. cbv iota beta.
  simpl xorb.
  rewrite binary_round_aux_spec.
  - change (Zpos p * 2) with (Zpos p * 2 ^ 1).
    replace (e1 - 25) with ((e1 - 24) - 1) by lia.
    rewrite round_pos_shift; [reflexivity | lia | lia | | lia].
    rewrite Hd. unfold fexp32. lia.
  - lia.
  - change (Zpos p * 2) with (Zpos p * 2 ^ 1).
    rewrite Zdigits2_shift by lia. rewrite Hd. unfold fexp32. lia.
Qed.

Lemma noise_low_bits : forall qv rv,
  Z.land (noise_hash qv rv) 0xFFFFFF = noise_hash qv rv mod 2 ^ 24 /\
  0 <= Z.land (noise_hash qv rv) 0xFFFFFF < 2 ^ 24.
Proof.
  intros qv rv. change 0xFFFFFF with (Z.ones 24).
  rewrite Z.land_ones by lia. split; [reflexivity|].
  apply Z.mod_pos_bound. lia.
Qed.

Lemma pseudo_noise01_dyadic : forall qv rv,
  pseudo_noise01 qv rv = dyadic24 (Z.land (noise_hash qv rv) 0xFFFFFF).
Proof.
  intros qv rv. unfold pseudo_noise01, dyadic24.
  destruct (noise_low_bits qv rv) as [_ Hk].
  set (k := Z.land (noise_hash qv rv) 0xFFFFFF) in *. clearbody k.
  destruct (Z.eqb_spec k 0) as [->|Hne]; [reflexivity|].
  destruct (of_int_small k ltac:(lia)) as (E & D24 & Dk). rewrite E.
  assert (Hpos : 0 < k * 2 ^ (24 - Zdigits2 k)).
  { pose proof (pow2_pos (24 - Zdigits2 k) ltac:(lia)). nia. }
  rewrite div_pow24.
  - f_equal. lia.
  - rewrite Z2Pos.id by exact Hpos. exact D24.
  - lia.
Qed.

Lemma dyadic24_nonneg : forall k, 0 <= k < 2 ^ 24 ->
  nonneg32 (dyadic24 k) /\ (dyadic24 k <? c1_0)%f32 = true.
Proof.
  intros k Hk. unfold dyadic24.
  destruct (Z.eqb_spec k 0) as [->|Hne]; [split; reflexivity|].
  destruct (of_int_small k ltac:(lia)) as (_ & D24 & Dk).
  assert (Hpos : 0 < k * 2 ^ (24 - Zdigits2 k)).
  { pose proof (pow2_pos (24 - Zdigits2 k) ltac:(lia)). nia. }
  split.
  - unfold nonneg32, canonical32. split; [reflexivity|]. split; [|lia].
    change (Zpos (digits2_pos (Z.to_pos (k * 2 ^ (24 - Zdigits2 k)))))
      with (Zdigits2 (Zpos (Z.to_pos (k * 2 ^ (24 - Zdigits2 k))))).
    rewrite Z2Pos.id by exact Hpos. rewrite D24. unfold fexp32. lia.
  - unfold F32.ltb, SFltb, SFcompare, c1_0.
    destruct (Z.compare_spec (Zdigits2 k - 48) (-23)); try reflexivity; lia.
Qed.

Lemma pseudo_noise01_nonneg : forall qv rv, nonneg32 (pseudo_noise01 qv rv).
Proof.
  intros qv rv. rewrite pseudo_noise01_dyadic.
  apply dyadic24_nonneg. apply noise_low_bits.
Qed.

(** ** The resource invariant *)

Lemma SFcompare_some : forall a b : f32,
  valid32 a -> valid32 b -> exists c, SFcompare a b = Some c.
Proof.
  intros [sa|sa| |sa ma ea] [sb|sb| |sb mb eb] Va Vb; try contradiction;
    simpl; eexists; reflexivity.
Qed.

Lemma ltb_false_leb : forall a b : f32,
  valid32 a -> valid32 b -> (a <? b)%f32 = false -> (b <=? a)%f32 = true.
Proof.
  intros a b Va Vb. unfold F32.ltb, F32.leb, SFltb, SFleb.
  rewrite (SFcompare_antisym a b).
  destruct (SFcompare_some a b Va Vb) as [c ->]. destruct c; simpl; congruence.
Qed.

Lemma clampf_between : forall v lo hi,
  valid32 v -> valid32 lo -> valid32 hi ->
  (lo <=? hi)%f32 = true -> (lo <=? lo)%f32 = true -> (hi <=? hi)%f32 = true ->
  valid32 (clampf v lo hi) /\
  (lo <=? clampf v lo hi)%f32 = true /\ (clampf v lo hi <=? hi)%f32 = true.
Proof.
  intros v lo hi Vv Vl Vh Hlh Hll Hhh. unfold clampf.
  destruct (v <? lo)%f32 eqn:E1; [auto|].
  change (v >? hi)%f32 with (hi <? v)%f32. destruct (hi <? v)%f32 eqn:E2; [auto|].
  split; [exact Vv|]. split; apply ltb_false_leb; assumption.
Qed.

Lemma between_0_35_0_95 : forall f,
  valid32 f -> (c0_35 <=? f)%f32 = true -> (f <=? c0_95)%f32 = true ->
  exists mf ef, f = S754_finite false mf ef /\ canonical32 mf ef /\ ef <= -24.
Proof.
  intros [s|s| |s mf ef] V H1 H2; try contradiction;
    try (destruct s; discriminate).
  destruct s; [discriminate|]. exists mf, ef. split; [reflexivity|].
  split; [exact V|].
  unfold F32.leb, SFleb, SFcompare, c0_95 in H2.
  destruct (Z.compare_spec ef (-24)); try lia.
Qed.

Lemma canonical32_const : forall m e,
  (fexp32 (Zpos (digits2_pos m) + e) =? e) = true -> (e <=? 104) = true ->
  canonical32 m e.
Proof.
  intros m e H1 H2. split; [apply Z.eqb_eq | apply Z.leb_le]; assumption.
Qed.

(** The resources computed by the flower rule satisfy the invariant for
    every non-negative noise value. *)
Lemma flowers_invariant : forall noise,
  nonneg32 noise ->
  (zero <=? flowers_stock noise)%f32 = true /\
  (flowers_stock noise <=? flowers_capacity noise)%f32 = true /\
  F32.eqb (flowers_capacity noise) zero = false.
Proof.
  intros n Nn.
  assert (Vn : valid32 n) by (destruct n; simpl in *; tauto).
  assert (C60 : canonical32 15728640 (-18)) by (apply canonical32_const; reflexivity).
  assert (C240 : canonical32 15728640 (-16)) by (apply canonical32_const; reflexivity).
  assert (C068 : canonical32 11408507 (-24)) by (apply canonical32_const; reflexivity).
  assert (C04 : canonical32 13421773 (-25)) by (apply canonical32_const; reflexivity).
  assert (C055 : canonical32 9227469 (-24)) by (apply canonical32_const; reflexivity).
  assert (C035 : canonical32 11744051 (-25)) by (apply canonical32_const; reflexivity).
  assert (C095 : canonical32 15938355 (-24)) by (apply canonical32_const; reflexivity).
  (* the capacity *)
  destruct (mul_valid c60 n C60 Vn) as [V1 N1];
    [discriminate | intros s _ s'; discriminate |].
  specialize (N1 (conj eq_refl C60) Nn).
  assert (Hcap : (c240 <=? flowers_capacity n)%f32 = true)
    by (apply add_ge_left; assumption).
  destruct (add_valid c240 (c60 * n)%f32 C240 V1) as [Vc Nc]; [discriminate|].
  specialize (Nc (conj eq_refl C240) N1).
  fold (flowers_capacity n) in Vc, Nc.
  (* the stock factor *)
  assert (V2 : valid32 (n - c0_68)%f32).
  { apply sub_valid; [exact Vn | exact C068 | discriminate]. }
  destruct (mul_valid c0_4 (n - c0_68)%f32 C04 V2) as [V3 _];
    [discriminate | intros s _ s'; discriminate |].
  destruct (add_valid c0_55 (c0_4 * (n - c0_68))%f32 C055 V3) as [V4 _];
    [discriminate|].
  destruct (clampf_between (c0_55 + c0_4 * (n - c0_68))%f32 c0_35 c0_95
              V4 C035 C095 eq_refl eq_refl eq_refl) as (Vf & F1 & F2).
  destruct (between_0_35_0_95 _ Vf F1 F2) as (mf & ef & Ef & Cf & Hef).
  unfold flowers_stock. rewrite Ef.
  destruct (flowers_capacity n) as [s|s| |s mc ec] eqn:Ec; simpl in Nc;
    try contradiction.
  - subst s. discriminate Hcap.
  - subst s. repeat split; reflexivity.
  - destruct Nc as [-> Cc]. split; [|split].
    + apply nonneg32_leb_zero.
      destruct (mul_valid (S754_finite false mc ec) (S754_finite false mf ef) Cc Cf)
        as [_ N]; [discriminate | discriminate |].
      apply N; split; auto.
    + apply mul_le_left; assumption.
    + reflexivity.
Qed.

Lemma resource_invariant_zero : forall t,
  nectar_stock t = zero -> nectar_capacity t = zero ->
  nectar_recharge_rate t = zero -> resource_invariant t.
Proof.
  intros t H1 H2 H3. unfold resource_invariant. rewrite H1, H2, H3.
  repeat split; reflexivity.
Qed.

Lemma assign_by_noise_invariant : forall w t,
  nectar_stock t = zero -> nectar_capacity t = zero ->
  nectar_recharge_rate t = zero ->
  resource_invariant (assign_by_noise w t).
Proof.
  intros w t H1 H2 H3. unfold assign_by_noise.
  destruct (_ && _).
  - destruct (flowers_invariant (pseudo_noise01 (q t) (r t))
                (pseudo_noise01_nonneg _ _)) as (A & B & C).
    match goal with |- resource_invariant ?x => set (t' := x) end.
    assert (Ec : nectar_capacity t' = flowers_capacity (pseudo_noise01 (q t) (r t)))
      by reflexivity.
    assert (Es : nectar_stock t' = flowers_stock (pseudo_noise01 (q t) (r t)))
      by reflexivity.
    unfold resource_invariant. rewrite Ec, Es.
    split; [exact A|]. split; [exact B|].
    intros H. rewrite C in H. discriminate H.
  - destruct (_ <? _)%f32; [apply resource_invariant_zero; assumption|].
    destruct (_ <? _)%f32; [apply resource_invariant_zero; assumption|].
    destruct (_ <? _)%f32; [|apply resource_invariant_zero; assumption].
    unfold resource_invariant. simpl. repeat split; discriminate.
Qed.

Lemma assign_tile_defaults_invariant : forall params w tile,
  resource_invariant (assign_tile_defaults params w tile).
Proof.
  intros params w tile. unfold assign_tile_defaults.
  assert (Z0 : resource_invariant (tile_defaults tile))
    by (apply resource_invariant_zero; reflexivity).
  assert (N : resource_invariant (assign_by_noise w (tile_defaults tile)))
    by (apply assign_by_noise_invariant; reflexivity).
  destruct params as [p|]; [|exact Z0].
  destruct (hive_enabled p); [|exact N].
  destruct (in_hive_rect p (tile_defaults tile));
    [apply resource_invariant_zero; reflexivity|].
  destruct (_ && _); [apply resource_invariant_zero; reflexivity | exact N].
Qed.

Lemma noise_hash_spec : forall qv rv,
  (noise_hash qv rv mod 2 ^ 24 # 2 ^ 24 == noise_spec qv rv)%Q.
Proof.
  intros qv rv. unfold noise_hash, noise_spec, to_uint32.
  rewrite !Z.shiftr_div_pow2 by lia. reflexivity.
Qed.

Lemma dyadic24_value : forall k, 0 <= k < 2 ^ 24 ->
  (to_Q (dyadic24 k) == k # 2 ^ 24)%Q.
Proof.
  intros k Hk. unfold dyadic24.
  destruct (Z.eqb_spec k 0) as [->|Hne]; [reflexivity|].
  destruct (of_int_small k ltac:(lia)) as (_ & _ & Dk).
  set (d := Zdigits2 k) in *.
  pose proof (pow2_pos (24 - d) ltac:(lia)) as P.
  unfold to_Q. rewrite Z2Pos.id by nia.
  rewrite inject_Z_mult, Zpower_Qpower by lia.
  replace (d - 48) with (- (24 - d) + - 24) by lia.
  rewrite Qpower_plus by discriminate.
  change (inject_Z 2) with (2 # 1)%Q.
  rewrite Qpower_opp.
  assert (Hp : (0 < (2 # 1) ^ (24 - d))%Q) by (apply Qpower_0_lt; reflexivity).
  rewrite (Qmake_Qdiv k). change ((2 # 1) ^ (-24))%Q with (1 # 16777216)%Q.
  change (inject_Z (Zpos (2 ^ 24))) with (16777216 # 1)%Q.
  set (X := ((2 # 1) ^ (24 - d))%Q) in *. clearbody X.
  field. intros H. rewrite H in Hp. discriminate Hp.
Qed.

(** C5: [pseudo_noise01] depends on q and r only, through their values
    modulo 2^32; the result is exactly the low 24 bits of the hash, computed
    in 32-bit wrapping arithmetic with the odd and distinct multipliers
    73856093 and 19349663 and the mix shift-multiply-shift, divided by
    2^24; it is a finite non-negative number below 1. *)
Theorem C5_noise_contract :
  forall qv rv,
    let noise := pseudo_noise01 qv rv in
    is_finite32 noise = true /\
    (to_Q noise == noise_spec qv rv)%Q /\
    (0 <= to_Q noise)%Q /\ (to_Q noise < 1)%Q /\
    (zero <=? noise)%f32 = true /\ (noise <? c1_0)%f32 = true /\
    (forall qv' rv',
       to_uint32 qv' = to_uint32 qv -> to_uint32 rv' = to_uint32 rv ->
       pseudo_noise01 qv' rv' = noise) /\
    Z.odd 73856093 = true /\ Z.odd 19349663 = true /\ 73856093 <> 19349663.
Proof.
  intros qv rv noise.
  destruct (noise_low_bits qv rv) as [Ek Hk].
  pose proof (pseudo_noise01_dyadic qv rv) as E. fold noise in E.
  destruct (dyadic24_nonneg _ Hk) as [N L]. rewrite <- E in N, L.
  pose proof (dyadic24_value _ Hk) as V. rewrite <- E, Ek in V.
  assert (Vs : (to_Q noise == noise_spec qv rv)%Q)
    by (rewrite V; apply noise_hash_spec).
  assert (Hm : 0 <= noise_hash qv rv mod 2 ^ 24 < 2 ^ 24)
    by (apply Z.mod_pos_bound; lia).
  split.
  { destruct noise as [s|s| |s m e]; simpl in *; try reflexivity;
      try contradiction; subst; discriminate L. }
  split; [exact Vs|]. split; [|split].
  { rewrite V. unfold Qle. simpl. lia. }
  { rewrite V. unfold Qlt. simpl. lia. }
  split; [apply nonneg32_leb_zero; exact N|]. split; [exact L|].
  split; [|repeat split; discriminate].
  intros qv' rv' Hq Hr. unfold noise, pseudo_noise01, noise_hash.
  rewrite Hq, Hr. reflexivity.
Qed.

(** C4: every cell of a generated lattice satisfies
    [0 <= nectar_stock <= nectar_capacity], and a zero capacity comes with a
    zero stock and a zero recharge rate, whatever rule classified the
    cell. *)
Theorem C4_resource_invariant :
  forall alloc w0 p ok w ts t,
    hex_world_create alloc (Some w0) (Some p) = (ok, Some w) ->
    tiles w = Some ts ->
    In t ts ->
    (zero <=? nectar_stock t)%f32 = true /\
    (nectar_stock t <=? nectar_capacity t)%f32 = true /\
    (F32.eqb (nectar_capacity t) zero = true ->
     F32.eqb (nectar_stock t) zero = true /\
     F32.eqb (nectar_recharge_rate t) zero = true).
Proof.
  intros alloc w0 p ok w ts t H T Hin.
  destruct (hex_world_create_tiles alloc w0 p ok w ts H T) as (w1 & _ & _ & _ & Hall).
  destruct (Hall t Hin) as (qv & rv & ->).
  unfold make_tile. apply assign_tile_defaults_invariant.
Qed.

(** The Flowers cell (1,-6) of the default lattice. *)
Lemma C4_resource_invariant_witness :
  exists t, nth_error default_tiles 32 = Some t /\
            terrain t = HEX_TERRAIN_FLOWERS /\
            (zero <=? nectar_stock t)%f32 = true /\
            (nectar_stock t <=? nectar_capacity t)%f32 = true.
Proof.
  assert (Hc : hex_world_create (fun _ => true) (Some zero_world)
                 (Some params_init_defaults) = (true, Some default_lattice))
    by (vm_compute; reflexivity).
  assert (Ht : tiles default_lattice = Some default_tiles)
    by (vm_compute; reflexivity).
  destruct (nth_error default_tiles 32) as [t|] eqn:E;
    [|vm_compute in E; discriminate E].
  exists t. split; [reflexivity|].
  pose proof (nth_error_In _ _ E) as Hin.
  destruct (C4_resource_invariant _ _ _ _ _ _ t Hc Ht Hin) as (H1 & H2 & _).
  split; [|split; assumption].
  vm_compute in E. inversion E; reflexivity.
Defined.

(** * Further properties of the hex world and of the code that reads it *)

(** The example lattice and the lattice with cell size 0, as
    [hex_world_create] leaves them. *)
Lemma example_created :
  hex_world_create (fun _ => true) (Some zero_world) (Some example_params)
  = (true, Some example_lattice).
Proof. vm_compute. reflexivity. Qed.

Lemma example_tiles_eq : tiles example_lattice = Some example_tiles.
Proof. vm_compute. reflexivity. Qed.


(** ** Lifecycle *)

Lemma hex_world_create_some : forall alloc w0 params,
  exists w, snd (hex_world_create alloc (Some w0) params) = Some w.
Proof.
  intros alloc w0 params.
  destruct (hex_world_create alloc (Some w0) params) as [ok [w|]] eqn:E.
  - exists w. reflexivity.
  - exfalso. unfold hex_world_create in E. simpl in E.
    destruct params as [p|]; [|discriminate E].
    destruct (negb (enabled (hex p))); [discriminate E|].
    cbv zeta in E.
    destruct ((hex_q_max (hex p) - hex_q_min (hex p) + 1 <=? 0) ||
              (hex_r_max (hex p) - hex_r_min (hex p) + 1 <=? 0));
      [discriminate E|].
    match type of E with
    | (if ?c then _ else _) = _ => destruct c; [discriminate E|]
    end.
    match type of E with
    | (if ?c then _ else _) = _ => destruct c; discriminate E
    end.
Qed.

Lemma count_of_small : forall p,
  0 < q_span_of p < 2 ^ 31 -> 0 < r_span_of p < 2 ^ 31 ->
  count_of p = q_span_of p * r_span_of p /\ 0 < count_of p.
Proof.
  intros p Hq Hr. unfold count_of, to_size_t.
  rewrite (Z.mod_small (q_span_of p)) by lia.
  rewrite (Z.mod_small (r_span_of p)) by lia.
  assert (0 < q_span_of p * r_span_of p < 2 ^ 62).
  { split; [nia|].
    change (2 ^ 62) with (2 ^ 31 * 2 ^ 31).
    apply Z.mul_lt_mono_nonneg; lia. }
  rewrite Z.mod_small by lia. lia.
Qed.

(** X1: for a configuration accepted by the hex checks of
    [params_validate], with the grid enabled, [hex_world_create] succeeds
    as soon as the allocator grants [q_span * r_span] tiles: it returns
    true and leaves a world whose bounds, width, height and count are those
    of the configuration, untruncated, with a tile array of exactly
    [count > 0] tiles; and the accepted cell size is not [<= 0]. *)
Theorem create_validated_succeeds :
  forall alloc w0 p,
    params_validate_hex p = true ->
    enabled (hex p) = true ->
    alloc (q_span_of p * r_span_of p) = true ->
    exists ts,
      hex_world_create alloc (Some w0) (Some p) =
      (true,
       Some (mkHexWorld (hex_cell_size (hex p)) (hex_origin_x (hex p))
               (hex_origin_y (hex p))
               (hex_q_min (hex p)) (hex_q_max (hex p))
               (hex_r_min (hex p)) (hex_r_max (hex p))
               (q_span_of p) (r_span_of p) (q_span_of p * r_span_of p)
               (Some ts))) /\
      Z.of_nat (length ts) = q_span_of p * r_span_of p /\
      0 < q_span_of p * r_span_of p /\
      (hex_cell_size (hex p) <=? zero)%f32 = false.
Proof.
  intros alloc w0 p V En A.
  pose proof (params_validate_hex_ranges p V En)
    as (Hq1 & Hq2 & Hq3 & Hr1 & Hr2 & Hr3 & Hqs & Hrs).
  assert (Hqp : 0 < q_span_of p) by (unfold q_span_of; lia).
  assert (Hrp : 0 < r_span_of p) by (unfold r_span_of; lia).
  destruct (count_of_small p) as [Hc Hc0]; [lia | lia |].
  destruct (hex_world_create_cases alloc w0 (Some p))
    as [[_ [D | (p' & D & F)]] | [[_ (p' & D & _ & B)] | (p' & D & _ & _ & _ & C)]].
  - discriminate D.
  - injection D as <-. congruence.
  - injection D as <-. lia.
  - injection D as <-. cbv zeta in C.
    destruct C as [[Z0 _] | [(_ & Af & _) | (_ & _ & R)]].
    + lia.
    + rewrite Hc in Af. congruence.
    + eexists. split; [|split; [|split]].
      * rewrite R. cbn [cell_size origin_x origin_y q_min q_max r_min r_max
                         width height count].
        rewrite !to_int16_id by (unfold INT16_MIN, INT16_MAX in *; lia).
        unfold to_uint16. rewrite !Z.mod_small by lia.
        rewrite Hc. reflexivity.
      * rewrite build_tiles_length. rewrite Nat2Z.inj_mul, !Z2Nat.id by lia. lia.
      * lia.
      * unfold params_validate_hex in V. rewrite En in V.
        destruct (hex_cell_size (hex p) <=? zero)%f32; [discriminate V | reflexivity].
Qed.

(** The default configuration: 21 x 15 = 315 tiles. *)
Lemma create_validated_succeeds_witness :
  exists ts,
    hex_world_create (fun _ => true) (Some zero_world) (Some params_init_defaults) =
    (true,
     Some (mkHexWorld (of_int 48) (of_int 640) (of_int 360) (-10) 10 (-7) 7
             21 15 315 (Some ts))) /\
    Z.of_nat (length ts) = 315.
Proof.
  destruct (create_validated_succeeds (fun _ => true) zero_world
              params_init_defaults eq_refl eq_refl eq_refl)
    as (ts & H & L & _).
  exists ts. split; [exact H | exact L].
Defined.

(** X2: after [hex_world_destroy] a world is the zeroed world: destroying
    or initialising it again changes nothing, no cell is in bounds,
    [hex_world_index] gives [SIZE_MAX], [hex_world_tile] and
    [hex_world_tile_mut] give no tile, [hex_world_pick] finds nothing and
    both coordinate conversions give (0,0). *)
Theorem destroyed_world_answers_absent :
  forall w qv rv x y,
    let d := hex_world_destroy (Some w) in
    hex_world_destroy d = d /\ hex_world_init d = d /\
    hex_world_in_bounds d qv rv = false /\
    hex_world_index d qv rv = SIZE_MAX /\
    hex_world_tile d qv rv = None /\
    hex_world_tile_mut d qv rv = None /\
    hex_world_pick d x y = None /\
    hex_axial_to_world d qv rv = (zero, zero) /\
    hex_world_to_axial_f d x y = (zero, zero).
Proof.
  intros w qv rv x y. cbv zeta. simpl hex_world_destroy.
  repeat split; reflexivity.
Qed.

(** X3: [hex_world_create] first destroys the world it is given: what an
    earlier [hex_world_create] left behind the pointer, whatever its
    configuration and allocator, has no influence on the result of the
    next call. *)
Theorem create_forgets_previous_world :
  forall alloc alloc' w0 w0' params params',
    hex_world_create alloc (snd (hex_world_create alloc' (Some w0') params')) params =
    hex_world_create alloc (Some w0) params.
Proof.
  intros alloc alloc' w0 w0' params params'.
  destruct (hex_world_create_some alloc' w0' params') as [w ->].
  reflexivity.
Qed.

(** ** Tiles *)

Lemma tile_defaults_fields : forall t,
  terrain (tile_defaults t) = HEX_TERRAIN_OPEN /\
  nectar_capacity (tile_defaults t) = zero /\
  nectar_stock (tile_defaults t) = zero /\
  nectar_recharge_rate (tile_defaults t) = zero /\
  flow_capacity (tile_defaults t) = c8 /\
  flags (tile_defaults t) = HEX_TILE_VISIBLE.
Proof. intros t. repeat split; reflexivity. Qed.

Lemma assign_by_noise_rule : forall p w t,
  terrain t = HEX_TERRAIN_OPEN -> flow_capacity t = c8 ->
  nectar_capacity t = zero -> nectar_stock t = zero ->
  nectar_recharge_rate t = zero ->
  tile_rule p w (assign_by_noise w t) /\
  flags (assign_by_noise w t) = flags t.
Proof.
  intros p w t Ht Hf Hc Hs Hr. unfold assign_by_noise.
  destruct ((origin_dist w t >? cell_size w * c8)%f32 &&
            (pseudo_noise01 (q t) (r t) >? c0_68)%f32) eqn:F.
  - apply andb_prop in F. destruct F as [F1 F2].
    split; [|reflexivity]. apply rule_flowers; try reflexivity; assumption.
  - destruct (pseudo_noise01 (q t) (r t) <? c0_04)%f32 eqn:N1.
    { split; [|reflexivity]. apply rule_water; try reflexivity; assumption. }
    destruct (pseudo_noise01 (q t) (r t) <? c0_08)%f32 eqn:N2.
    { split; [|reflexivity]. apply rule_mountain; try reflexivity; assumption. }
    destruct (pseudo_noise01 (q t) (r t) <? c0_18)%f32 eqn:N3.
    { split; [|reflexivity]. apply rule_forest; try reflexivity; assumption. }
    split; [|reflexivity]. apply rule_open; assumption.
Qed.

Lemma assign_tile_defaults_rule : forall p w tile,
  tile_rule p w (assign_tile_defaults (Some p) w tile) /\
  flags (assign_tile_defaults (Some p) w tile) = HEX_TILE_VISIBLE.
Proof.
  intros p w tile. unfold assign_tile_defaults.
  pose proof (tile_defaults_fields tile) as (D1 & D2 & D3 & D4 & D5 & D6).
  set (t0 := tile_defaults tile) in *.
  assert (N : tile_rule p w (assign_by_noise w t0) /\
              flags (assign_by_noise w t0) = HEX_TILE_VISIBLE).
  { destruct (assign_by_noise_rule p w t0 D1 D5 D2 D3 D4) as [R F].
    split; [exact R | rewrite F; exact D6]. }
  destruct (hive_enabled p) eqn:He; [|exact N].
  destruct (in_hive_rect p t0) eqn:Hr.
  { split; [|exact D6]. apply rule_hive; try reflexivity; assumption. }
  destruct (entrance_axial_ok p w t0 && entrance_radial_ok p w t0) eqn:En; [|exact N].
  apply andb_prop in En. destruct En as [E1 E2].
  split; [|exact D6]. apply rule_entrance; try reflexivity; assumption.
Qed.

Lemma hex_world_create_rule :
  forall alloc w0 p ok w ts t,
    hex_world_create alloc (Some w0) (Some p) = (ok, Some w) ->
    tiles w = Some ts -> In t ts ->
    exists w1, cell_size w1 = cell_size w /\ origin_x w1 = origin_x w /\
               origin_y w1 = origin_y w /\
               tile_rule p w1 t /\ flags t = HEX_TILE_VISIBLE.
Proof.
  intros alloc w0 p ok w ts t H T Hin.
  destruct (hex_world_create_tiles alloc w0 p ok w ts H T)
    as (w1 & Hc & Hx & Hy & Hall).
  destruct (Hall t Hin) as (qv & rv & ->).
  exists w1. repeat split; try assumption; unfold make_tile;
    apply assign_tile_defaults_rule.
Qed.

(** X4: every tile of a generated lattice is flagged visible, and its flow
    capacity is the one of its terrain: Open 8, Forest 6, Mountain 1.5,
    Water 2, Hive 35, Flowers 18, Entrance 26. *)
Theorem tiles_visible_flow_by_terrain :
  forall alloc w0 p ok w ts t,
    hex_world_create alloc (Some w0) (Some p) = (ok, Some w) ->
    tiles w = Some ts -> In t ts ->
    flags t = HEX_TILE_VISIBLE /\ flow_capacity t = flow_of_terrain (terrain t).
Proof.
  intros alloc w0 p ok w ts t H T Hin.
  destruct (hex_world_create_rule alloc w0 p ok w ts t H T Hin)
    as (w1 & _ & _ & _ & R & F).
  split; [exact F|].
  destruct R;
    match goal with Ht : terrain t = _ |- _ => rewrite Ht end; assumption.
Qed.

(** The Forest cell (2,-2) of the example lattice. *)
Lemma tiles_visible_flow_by_terrain_witness :
  exists t, nth_error example_tiles 4 = Some t /\
            terrain t = HEX_TERRAIN_FOREST /\
            flags t = HEX_TILE_VISIBLE /\ flow_capacity t = c6.
Proof.
  destruct (nth_error example_tiles 4) as [t|] eqn:E;
    [|vm_compute in E; discriminate E].
  exists t. split; [reflexivity|].
  pose proof (nth_error_In _ _ E) as Hin.
  destruct (tiles_visible_flow_by_terrain _ _ _ _ _ _ t example_created
              example_tiles_eq Hin) as [F C].
  assert (Ht : terrain t = HEX_TERRAIN_FOREST)
    by (vm_compute in E; inversion E; reflexivity).
  split; [exact Ht|]. split; [exact F|]. rewrite C, Ht. reflexivity.
Defined.

(** X5: the resources of a generated tile follow from its terrain: a Forest
    tile has capacity 30, stock 9 (30 * 0.3 in single precision) and
    recharge rate 0.8; a Flowers tile has a capacity different from zero;
    a tile of any other terrain has capacity, stock and recharge rate
    zero. *)
Theorem resources_by_terrain :
  forall alloc w0 p ok w ts t,
    hex_world_create alloc (Some w0) (Some p) = (ok, Some w) ->
    tiles w = Some ts -> In t ts ->
    match terrain t with
    | HEX_TERRAIN_FLOWERS => F32.eqb (nectar_capacity t) zero = false
    | HEX_TERRAIN_FOREST =>
        nectar_capacity t = c30 /\ nectar_stock t = of_int 9 /\
        nectar_recharge_rate t = c0_8
    | _ =>
        nectar_capacity t = zero /\ nectar_stock t = zero /\
        nectar_recharge_rate t = zero
    end.
Proof.
  intros alloc w0 p ok w ts t H T Hin.
  pose proof (hex_world_create_tiles alloc w0 p ok w ts H T)
    as (w2 & _ & _ & _ & Hall).
  destruct (hex_world_create_rule alloc w0 p ok w ts t H T Hin)
    as (w1 & _ & _ & _ & R & _).
  destruct R;
    match goal with Ht : terrain t = _ |- _ => rewrite Ht end;
    try (repeat split; assumption).
  destruct (Hall t Hin) as (qv & rv & E).
    pose proof (assign_tile_defaults_flowers p w2
                  (mkHexTile (to_int16 qv) (to_int16 rv) HEX_TERRAIN_OPEN
                     zero zero zero zero
                     (origin_x w2 + (SQRT3 * cell_size w2) *
                        (of_int qv + of_int rv * c0_5))%f32
                     (origin_y w2 + (c1_5 * cell_size w2) * of_int rv)%f32 0))
      as HF.
    cbv zeta in HF. unfold make_tile in E. rewrite <- E in HF.
    destruct (HF ltac:(assumption)) as (_ & _ & Hcap & _).
    rewrite Hcap.
    apply (flowers_invariant (pseudo_noise01 (q t) (r t))).
    apply pseudo_noise01_nonneg.
Qed.

(** The Forest cell (2,-2) of the example lattice. *)
Lemma resources_by_terrain_witness :
  exists t, nth_error example_tiles 4 = Some t /\
            nectar_capacity t = c30 /\ nectar_stock t = of_int 9 /\
            nectar_recharge_rate t = c0_8.
Proof.
  destruct (nth_error example_tiles 4) as [t|] eqn:E;
    [|vm_compute in E; discriminate E].
  exists t. split; [reflexivity|].
  pose proof (nth_error_In _ _ E) as Hin.
  pose proof (resources_by_terrain _ _ _ _ _ _ t example_created
                example_tiles_eq Hin) as R.
  assert (Ht : terrain t = HEX_TERRAIN_FOREST)
    by (vm_compute in E; inversion E; reflexivity).
  rewrite Ht in R. exact R.
Defined.

Lemma nonneg32_valid : forall x, nonneg32 x -> valid32 x.
Proof. intros [s| s| |s m e]; simpl; tauto. Qed.

Lemma noise_not_below : forall qv rv m e,
  canonical32 m e ->
  (pseudo_noise01 qv rv <? S754_finite false m e)%f32 = false ->
  (S754_finite false m e <=? pseudo_noise01 qv rv)%f32 = true.
Proof.
  intros qv rv m e C H. apply ltb_false_leb; [| exact C | exact H].
  apply nonneg32_valid, pseudo_noise01_nonneg.
Qed.

(** X6: the terrain of a generated tile tells which rule of
    [assign_tile_defaults] produced it.  A Hive tile has its centre in the
    colony rectangle of an active colony; an Entrance tile lies outside the
    rectangle of an active colony and passes both entrance tests; a Flowers
    tile has noise above 0.68, a Water tile noise below 0.04, a Mountain
    tile noise in [0.04, 0.08), a Forest tile noise in [0.08, 0.18) and an
    Open tile noise at least 0.18.  In particular no tile is Hive or
    Entrance when the colony placement is inactive. *)
Theorem terrain_reveals_rule :
  forall alloc w0 p ok w ts t,
    hex_world_create alloc (Some w0) (Some p) = (ok, Some w) ->
    tiles w = Some ts -> In t ts ->
    let noise := pseudo_noise01 (q t) (r t) in
    match terrain t with
    | HEX_TERRAIN_HIVE => hive_enabled p = true /\ in_hive_rect p t = true
    | HEX_TERRAIN_ENTRANCE =>
        hive_enabled p = true /\ in_hive_rect p t = false /\
        entrance_axial_ok p w t = true /\ entrance_radial_ok p w t = true
    | HEX_TERRAIN_FLOWERS => (c0_68 <? noise)%f32 = true
    | HEX_TERRAIN_WATER => (noise <? c0_04)%f32 = true
    | HEX_TERRAIN_MOUNTAIN =>
        (c0_04 <=? noise)%f32 = true /\ (noise <? c0_08)%f32 = true
    | HEX_TERRAIN_FOREST =>
        (c0_08 <=? noise)%f32 = true /\ (noise <? c0_18)%f32 = true
    | HEX_TERRAIN_OPEN => (c0_18 <=? noise)%f32 = true
    end.
Proof.
  intros alloc w0 p ok w ts t H T Hin noise.
  destruct (hex_world_create_rule alloc w0 p ok w ts t H T Hin)
    as (w1 & Hc & _ & _ & R & _).
  destruct R;
    match goal with Ht : terrain t = _ |- _ => rewrite Ht end;
    try assumption.
  - split; assumption.
  - rewrite <- (entrance_axial_ok_ext p w1 w t t Hc eq_refl eq_refl).
    rewrite <- (entrance_radial_ok_ext p w1 w t t Hc eq_refl eq_refl).
    repeat split; assumption.
  - split; [|assumption]. apply noise_not_below; [|assumption].
    apply canonical32_const; reflexivity.
  - split; [|assumption]. apply noise_not_below; [|assumption].
    apply canonical32_const; reflexivity.
  - apply noise_not_below; [|assumption].
    apply canonical32_const; reflexivity.
Qed.

(** The Water cell (0,0) of the example lattice. *)
Lemma terrain_reveals_rule_witness :
  exists t, nth_error example_tiles 12 = Some t /\
            q t = 0 /\ r t = 0 /\ terrain t = HEX_TERRAIN_WATER /\
            (pseudo_noise01 0 0 <? c0_04)%f32 = true.
Proof.
  destruct (nth_error example_tiles 12) as [t|] eqn:E;
    [|vm_compute in E; discriminate E].
  exists t. split; [reflexivity|].
  pose proof (nth_error_In _ _ E) as Hin.
  pose proof (terrain_reveals_rule _ _ _ _ _ _ t example_created
                example_tiles_eq Hin) as R.
  cbv zeta in R.
  assert (Ht : terrain t = HEX_TERRAIN_WATER /\ q t = 0 /\ r t = 0)
    by (vm_compute in E; inversion E; auto).
  destruct Ht as (Ht & Hq & Hr). rewrite Ht, Hq, Hr in R. auto.
Defined.

(** ** The tile array *)

Lemma build_tiles_in_range : forall p w qlo qn rlo rn t,
  In t (build_tiles p w qlo qn rlo rn) ->
  exists qv rv, qlo <= qv < qlo + Z.of_nat qn /\ rlo <= rv < rlo + Z.of_nat rn /\
                t = make_tile p w qv rv.
Proof.
  intros p w qlo qn rlo rn t H. unfold build_tiles in H.
  apply in_flat_map in H. destruct H as (rv & Hr & H).
  apply in_map_iff in H. destruct H as (qv & E & Hq).
  exists qv, rv. rewrite in_zrange in Hr, Hq. auto.
Qed.

(** The world that [hex_world_create] fills from a validated
    configuration, before the tile array is attached. *)
Lemma validated_cell :
  forall alloc w0 p ok w ts,
    params_validate_hex p = true ->
    hex_world_create alloc (Some w0) (Some p) = (ok, Some w) ->
    tiles w = Some ts ->
    exists w1,
      cell_size w1 = cell_size w /\ origin_x w1 = origin_x w /\
      origin_y w1 = origin_y w /\
      INT16_MIN <= q_min w /\ q_max w <= INT16_MAX /\
      INT16_MIN <= r_min w /\ r_max w <= INT16_MAX /\
      0 < width w /\ 0 < height w /\
      width w = q_max w - q_min w + 1 /\ height w = r_max w - r_min w + 1 /\
      count w = width w * height w /\
      Z.of_nat (length ts) = count w /\
      (forall t, In t ts ->
         exists qv rv, q_min w <= qv <= q_max w /\ r_min w <= rv <= r_max w /\
                       t = make_tile p w1 qv rv) /\
      (forall qv rv,
         q_min w <= qv <= q_max w -> r_min w <= rv <= r_max w ->
         let index := (rv - r_min w) * width w + (qv - q_min w) in
         hex_world_in_bounds (Some w) qv rv = true /\
         hex_world_index (Some w) qv rv = index /\
         0 <= index < count w /\
         nth_error ts (Z.to_nat index) = Some (make_tile p w1 qv rv) /\
         hex_world_tile (Some w) qv rv = Some (make_tile p w1 qv rv)).
Proof.
  intros alloc w0 p ok w ts V H T.
  destruct (hex_world_create_validated alloc w0 p ok w ts V H T)
    as (_ & Ew & Ets & _ & Sq & Sr & R1 & R2 & R3 & R4).
  set (w1 := mkHexWorld (hex_cell_size (hex p)) (hex_origin_x (hex p))
               (hex_origin_y (hex p))
               (hex_q_min (hex p)) (hex_q_max (hex p))
               (hex_r_min (hex p)) (hex_r_max (hex p))
               (q_span_of p) (r_span_of p) (q_span_of p * r_span_of p) None) in *.
  exists w1.
  assert (Ef : cell_size w = cell_size w1 /\ origin_x w = origin_x w1 /\
               origin_y w = origin_y w1 /\
               q_min w = hex_q_min (hex p) /\ q_max w = hex_q_max (hex p) /\
               r_min w = hex_r_min (hex p) /\ r_max w = hex_r_max (hex p) /\
               width w = q_span_of p /\ height w = r_span_of p /\
               count w = q_span_of p * r_span_of p).
  { rewrite Ew. simpl. repeat split. }
  destruct Ef as (E1 & E2 & E3 & E4 & E5 & E6 & E7 & E8 & E9 & E10).
  rewrite E4, E5, E6, E7, E8, E9, E10.
  set (W := q_span_of p) in *. set (Ht := r_span_of p) in *.
  set (qlo := hex_q_min (hex p)) in *. set (rlo := hex_r_min (hex p)) in *.
  assert (Eqhi : hex_q_max (hex p) = qlo + W - 1) by (unfold W, q_span_of, qlo; lia).
  assert (Erhi : hex_r_max (hex p) = rlo + Ht - 1) by (unfold Ht, r_span_of, rlo; lia).
  rewrite Eqhi, Erhi.
  split; [auto|]. split; [auto|]. split; [auto|].
  split; [lia|]. split; [lia|]. split; [lia|]. split; [lia|].
  split; [lia|]. split; [lia|]. split; [lia|]. split; [lia|].
  split; [reflexivity|].
  split; [rewrite Ets, build_tiles_length; lia|].
  split.
  - intros t Hin. rewrite Ets in Hin.
    apply build_tiles_in_range in Hin.
    destruct Hin as (qv & rv & Hq & Hr & E).
    exists qv, rv. rewrite Z2Nat.id in Hq, Hr by lia.
    split; [lia|]. split; [lia|]. exact E.
  - intros qv rv Hq Hr. cbv zeta.
    assert (Hb : hex_world_in_bounds (Some w) qv rv = true).
    { apply hex_world_in_bounds_box. rewrite T, E4, E5, E6, E7.
      fold qlo rlo. rewrite Eqhi, Erhi.
      split; [discriminate|]. split; lia. }
    assert (Hidx : hex_world_index (Some w) qv rv = (rv - rlo) * W + (qv - qlo)).
    { unfold hex_world_index. rewrite Hb. simpl negb. cbv iota.
      rewrite E4, E6, E8. fold qlo rlo W.
      unfold to_size_t. unfold INT16_MIN, INT16_MAX in *.
      rewrite (Z.mod_small (qv - qlo)), (Z.mod_small (rv - rlo)),
        (Z.mod_small W) by lia.
      apply Z.mod_small. nia. }
    assert (Hn : nth_error ts (Z.to_nat ((rv - rlo) * W + (qv - qlo))) =
                 Some (make_tile p w1 qv rv)).
    { rewrite Z2Nat.inj_add, Z2Nat.inj_mul by nia.
      rewrite Ets, build_tiles_nth by lia.
      do 2 f_equal; lia. }
    split; [exact Hb|]. split; [exact Hidx|]. split; [nia|]. split; [exact Hn|].
    unfold hex_world_tile. rewrite Hidx.
    replace ((rv - rlo) * W + (qv - qlo) =? SIZE_MAX) with false
      by (symmetry; apply Z.eqb_neq; unfold SIZE_MAX; nia).
    rewrite T. exact Hn.
Qed.

Lemma add_comm32 : forall x y : f32, (x + y)%f32 = (y + x)%f32.
Proof.
  intros [sx|sx| |sx mx ex] [sy|sy| |sy my ey]; try reflexivity;
    try (destruct sx, sy; reflexivity).
  rewrite !add_finite_spec. rewrite (Z.min_comm ey ex). f_equal. apply Z.add_comm.
Qed.

(** X7: in the lattice built from a validated configuration the centre
    cached in a tile is what [hex_axial_to_world] computes for the tile's
    own (q,r), bit for bit, and that (q,r) is in bounds. *)
Theorem tile_center_is_axial_to_world :
  forall alloc w0 p ok w ts t,
    params_validate_hex p = true ->
    hex_world_create alloc (Some w0) (Some p) = (ok, Some w) ->
    tiles w = Some ts -> In t ts ->
    hex_world_in_bounds (Some w) (q t) (r t) = true /\
    hex_axial_to_world (Some w) (q t) (r t) = (center_x t, center_y t).
Proof.
  intros alloc w0 p ok w ts t V H T Hin.
  destruct (validated_cell alloc w0 p ok w ts V H T)
    as (w1 & Ec & Ex & Ey & Q1 & Q2 & R1 & R2 & _ & _ & _ & _ & _ & _ & Hall & Hcell).
  destruct (Hall t Hin) as (qv & rv & Hq & Hr & ->).
  destruct (make_tile_qr p w1 qv rv) as [Eq Er].
  rewrite Eq, Er, !to_int16_id by lia.
  split; [apply (Hcell qv rv Hq Hr)|].
  unfold hex_axial_to_world. rewrite T.
  unfold make_tile.
  destruct (assign_tile_defaults_frame (Some p) w1
              (mkHexTile (to_int16 qv) (to_int16 rv) HEX_TERRAIN_OPEN
                 zero zero zero zero
                 (origin_x w1 + (SQRT3 * cell_size w1) *
                    (of_int qv + of_int rv * c0_5))%f32
                 (origin_y w1 + (c1_5 * cell_size w1) * of_int rv)%f32 0))
    as (_ & _ & Fx & Fy).
  rewrite Fx, Fy. cbn [center_x center_y].
  rewrite Ec, Ex, Ey.
  rewrite (add_comm32 (origin_x w)), (add_comm32 (origin_y w)). reflexivity.
Qed.

(** The cell (1,-1) of the example lattice. *)
Lemma tile_center_is_axial_to_world_witness :
  exists t, nth_error example_tiles 8 = Some t /\ q t = 1 /\ r t = -1 /\
            hex_axial_to_world (Some example_lattice) 1 (-1) =
            (center_x t, center_y t).
Proof.
  destruct (nth_error example_tiles 8) as [t|] eqn:E;
    [|vm_compute in E; discriminate E].
  exists t. split; [reflexivity|].
  pose proof (nth_error_In _ _ E) as Hin.
  destruct (tile_center_is_axial_to_world (fun _ => true) zero_world example_params
              true example_lattice example_tiles t eq_refl example_created
              example_tiles_eq Hin) as [_ R].
  assert (Ht : q t = 1 /\ r t = -1) by (vm_compute in E; inversion E; auto).
  destruct Ht as (Hq & Hr). rewrite Hq, Hr in R. auto.
Defined.

(** X8: in the lattice built from a validated configuration every position
    [i < count] of the tile array holds the tile of the cell
    [(q_min + i mod width, r_min + i / width)], and [hex_world_index] and
    [hex_world_tile] of that cell give back [i] and the tile: the index
    map is onto the array. *)
Theorem index_onto :
  forall alloc w0 p ok w ts i,
    params_validate_hex p = true ->
    hex_world_create alloc (Some w0) (Some p) = (ok, Some w) ->
    tiles w = Some ts ->
    0 <= i < count w ->
    exists t,
      nth_error ts (Z.to_nat i) = Some t /\
      q t = q_min w + i mod width w /\ r t = r_min w + i / width w /\
      hex_world_index (Some w) (q t) (r t) = i /\
      hex_world_tile (Some w) (q t) (r t) = Some t.
Proof.
  intros alloc w0 p ok w ts i V H T Hi.
  destruct (validated_cell alloc w0 p ok w ts V H T)
    as (w1 & _ & _ & _ & Q1 & Q2 & R1 & R2 & Wp & Hp & EW & EH & EC & _ & _ & Hcell).
  set (W := width w) in *. set (Hh := height w) in *.
  pose proof (Z.mod_pos_bound i W Wp) as Hm.
  pose proof (Z.div_mod i W ltac:(lia)) as Hd.
  assert (Hq : 0 <= i / W < Hh).
  { split; [apply Z.div_pos; lia|].
    apply Z.div_lt_upper_bound; [lia|]. lia. }
  destruct (Hcell (q_min w + i mod W) (r_min w + i / W) ltac:(lia) ltac:(lia))
    as (_ & Hidx & _ & Hn & Ht).
  cbv zeta in Hidx, Hn.
  assert (Ei : (r_min w + i / W - r_min w) * W + (q_min w + i mod W - q_min w) = i)
    by (rewrite Hd at 3; ring).
  rewrite Ei in Hidx, Hn.
  destruct (make_tile_qr p w1 (q_min w + i mod W) (r_min w + i / W)) as [Eq Er].
  rewrite !to_int16_id in Eq, Er by (unfold INT16_MIN, INT16_MAX in *; lia).
  exists (make_tile p w1 (q_min w + i mod W) (r_min w + i / W)).
  rewrite Eq, Er. auto.
Qed.

(** Position 8 of the example lattice holds the cell (1,-1). *)
Lemma index_onto_witness :
  exists t, nth_error example_tiles 8 = Some t /\ q t = 1 /\ r t = -1 /\
            hex_world_index (Some example_lattice) 1 (-1) = 8.
Proof.
  destruct (index_onto (fun _ => true) zero_world example_params true
              example_lattice example_tiles 8 eq_refl example_created example_tiles_eq
              ltac:(vm_compute; split; [discriminate | reflexivity]))
    as (t & N & Hq & Hr & Hi & _).
  change (q_min example_lattice + 8 mod width example_lattice) with 1 in Hq.
  change (r_min example_lattice + 8 / width example_lattice) with (-1) in Hr.
  exists t. rewrite Hq, Hr in Hi. auto.
Defined.

(** X9: in the lattice built from a validated configuration a match of
    [hex_world_pick] is a reference to a tile: the index is below [count],
    and the tile at that index, which [hex_world_tile] also returns for the
    picked (q,r), carries the picked q and r. *)
Theorem pick_returns_tile :
  forall alloc w0 p ok w ts x y qv rv i,
    params_validate_hex p = true ->
    hex_world_create alloc (Some w0) (Some p) = (ok, Some w) ->
    tiles w = Some ts ->
    hex_world_pick (Some w) x y = Some (qv, rv, i) ->
    0 <= i < count w /\
    exists t, nth_error ts (Z.to_nat i) = Some t /\
              hex_world_tile (Some w) qv rv = Some t /\
              q t = qv /\ r t = rv.
Proof.
  intros alloc w0 p ok w ts x y qv rv i V H T P.
  destruct (validated_cell alloc w0 p ok w ts V H T)
    as (w1 & _ & _ & _ & Q1 & Q2 & R1 & R2 & _ & _ & _ & _ & _ & _ & _ & Hcell).
  unfold hex_world_pick in P. rewrite T in P.
  destruct (hex_world_to_axial_f (Some w) x y) as [qf rf].
  destruct (hex_axial_round qf rf) as [qv' rv'].
  destruct (hex_world_in_bounds (Some w) qv' rv') eqn:B; [|discriminate P].
  simpl negb in P. cbv iota in P.
  destruct (hex_world_index (Some w) qv' rv' =? SIZE_MAX); [discriminate P|].
  injection P as <- <- <-.
  apply hex_world_in_bounds_box in B. destruct B as (_ & Hq & Hr).
  destruct (Hcell qv' rv' Hq Hr) as (_ & Hidx & Hlt & Hn & Ht).
  cbv zeta in Hidx, Hlt, Hn. rewrite Hidx.
  split; [exact Hlt|].
  exists (make_tile p w1 qv' rv'). split; [exact Hn|]. split; [exact Ht|].
  destruct (make_tile_qr p w1 qv' rv') as [Eq Er].
  rewrite Eq, Er, !to_int16_id by (unfold INT16_MIN, INT16_MAX in *; lia).
  auto.
Qed.

(** The example lattice, picked at (0,0). *)
Lemma pick_returns_tile_witness :
  exists t, nth_error example_tiles 12 = Some t /\
            hex_world_tile (Some example_lattice) 0 0 = Some t /\
            q t = 0 /\ r t = 0.
Proof.
  assert (P : hex_world_pick (Some example_lattice) zero zero = Some (0, 0, 12))
    by (vm_compute; reflexivity).
  destruct (pick_returns_tile (fun _ => true) zero_world example_params true
              example_lattice example_tiles zero zero 0 0 12 eq_refl example_created
              example_tiles_eq P) as (_ & t & H).
  exists t. exact H.
Defined.




Lemma create_count_length :
  forall alloc w0 p ok w ts,
    hex_world_create alloc (Some w0) (Some p) = (ok, Some w) ->
    tiles w = Some ts ->
    q_span_of p < 2 ^ 31 -> r_span_of p < 2 ^ 31 ->
    Z.of_nat (length ts) = count w /\ 0 < count w < 2 ^ 62 /\
    enabled (hex p) = true.
Proof.
  intros alloc w0 p ok w ts H T Hqs Hrs.
  pose proof (hex_world_create_cases alloc w0 (Some p)) as C. cbv zeta in C.
  rewrite H in C.
  destruct C as [[E _]|[[E _]|(p' & E' & En & S1 & S2 & C)]];
    try (inversion E; subst; discriminate T).
  inversion E'; subst p'; clear E'.
  destruct (count_of_small p) as [Hc Hc0]; [lia | lia |].
  destruct C as [[_ E]|[(_ & _ & E)|(_ & _ & E)]];
    inversion E; subst; try discriminate T.
  simpl in T. inversion T; subst ts. clear T E.
  cbn [count]. rewrite build_tiles_length, Nat2Z.inj_mul, !Z2Nat.id by lia.
  split; [lia|]. split; [|exact En]. split; [lia|]. rewrite Hc.
  change (2 ^ 62) with (2 ^ 31 * 2 ^ 31). apply Z.mul_lt_mono_nonneg; lia.
Qed.

(** ** Picking with a cell size that is not positive *)

(** X11: on a lattice whose cell size is [<= 0] (which
    [hex_world_create] does not refuse) [hex_world_to_axial_f] gives (0,0)
    for every point, so [hex_world_pick] answers every query with the cell
    (0,0) when that cell is in bounds, and with no match otherwise. *)
Theorem pick_degenerate_cell_size :
  forall alloc w0 params ok w x y,
    hex_world_create alloc (Some w0) params = (ok, Some w) ->
    (cell_size w <=? zero)%f32 = true ->
    hex_world_to_axial_f (Some w) x y = (zero, zero) /\
    hex_world_pick (Some w) x y =
      if hex_world_in_bounds (Some w) 0 0
      then Some (0, 0, hex_world_index (Some w) 0 0)
      else None.
Proof.
  intros alloc w0 params ok w x y H Hc.
  pose proof (hex_world_create_wf alloc w0 params ok w H) as Wf.
  assert (E : hex_world_to_axial_f (Some w) x y = (zero, zero))
    by (unfold hex_world_to_axial_f; rewrite Hc; reflexivity).
  split; [exact E|].
  unfold hex_world_pick. rewrite E.
  change (hex_axial_round zero zero) with (0, 0). cbv beta iota.
  destruct (hex_world_in_bounds (Some w) 0 0) eqn:B.
  - assert (T : tiles w <> None) by (apply hex_world_in_bounds_box in B; tauto).
    destruct (tiles w); [|contradiction].
    simpl negb. cbv iota.
    pose proof (hex_world_index_in_range w 0 0 Wf B) as Hi.
    replace (hex_world_index (Some w) 0 0 =? SIZE_MAX) with false
      by (symmetry; apply Z.eqb_neq; unfold SIZE_MAX; lia).
    reflexivity.
  - destruct (tiles w); reflexivity.
Qed.

(** The lattice with cell size 0, picked at (1000,-77). *)
Lemma pick_degenerate_cell_size_witness :
  hex_world_pick (Some (flat_lattice)) (of_int 1000) (of_int (-77)) = Some (0, 0, 12).
Proof.
  assert (Hc : hex_world_create (fun _ => true) (Some zero_world)
                 (Some flat_params) = (true, Some flat_lattice))
    by (vm_compute; reflexivity).
  destruct (pick_degenerate_cell_size (fun _ => true) zero_world (Some flat_params)
              true flat_lattice (of_int 1000) (of_int (-77)) Hc eq_refl) as [_ P].
  exact P.
Defined.

(** ** Clamping *)

Lemma SFcompare_not_nan : forall a b : f32,
  is_nan a = false -> is_nan b = false -> exists c, SFcompare a b = Some c.
Proof.
  intros [sa|sa| |sa ma ea] [sb|sb| |sb mb eb] Ha Hb;
    try discriminate Ha; try discriminate Hb; simpl; eexists; reflexivity.
Qed.

Lemma SFcompare_refl : forall a : f32,
  is_nan a = false -> SFcompare a a = Some Eq.
Proof.
  intros [sa|sa| |sa ma ea] Ha; try discriminate Ha; simpl.
  - reflexivity.
  - destruct sa; reflexivity.
  - destruct sa; rewrite Z.compare_refl, Pos.compare_cont_refl; reflexivity.
Qed.

Lemma leb_not_nan : forall a b : f32,
  (a <=? b)%f32 = true -> is_nan a = false /\ is_nan b = false.
Proof.
  intros a b H. unfold F32.leb, SFleb in H.
  destruct a, b; try discriminate H; auto.
Qed.

Lemma ltb_false_leb_total : forall a b : f32,
  is_nan a = false -> is_nan b = false ->
  (a <? b)%f32 = false -> (b <=? a)%f32 = true.
Proof.
  intros a b Ha Hb H. unfold F32.ltb, SFltb in H. unfold F32.leb, SFleb.
  rewrite (SFcompare_antisym a b).
  destruct (SFcompare_not_nan a b Ha Hb) as [c Hc]. rewrite Hc in *.
  destruct c; simpl; try reflexivity. discriminate H.
Qed.

(** X12: [clampf] with [lo <= hi]: a NaN is returned unchanged; for any
    other [v] the result lies between [lo] and [hi], and is [v] itself
    when [v] already does. *)
Theorem clampf_range :
  forall v lo hi,
    (lo <=? hi)%f32 = true ->
    (is_nan v = true /\ clampf v lo hi = v) \/
    (is_nan v = false /\
     (lo <=? clampf v lo hi)%f32 = true /\ (clampf v lo hi <=? hi)%f32 = true /\
     ((lo <=? v)%f32 = true -> (v <=? hi)%f32 = true -> clampf v lo hi = v)).
Proof.
  intros v lo hi L. destruct (leb_not_nan lo hi L) as [Nl Nh].
  destruct (is_nan v) eqn:Nv.
  - left. split; [reflexivity|]. destruct v; try discriminate Nv.
    destruct lo, hi; reflexivity.
  - right. split; [reflexivity|]. unfold clampf.
    destruct (v <? lo)%f32 eqn:A.
    + split; [|split].
      * unfold F32.leb, SFleb. rewrite (SFcompare_refl lo Nl). reflexivity.
      * exact L.
      * intros H1 _. exfalso.
        unfold F32.leb, SFleb in H1. unfold F32.ltb, SFltb in A.
        rewrite (SFcompare_antisym v lo) in H1.
        destruct (SFcompare v lo) as [[| |]|]; simpl in *; discriminate.
    + change (v >? hi)%f32 with (hi <? v)%f32.
      destruct (hi <? v)%f32 eqn:B.
      * split; [exact L|]. split.
        { unfold F32.leb, SFleb. rewrite (SFcompare_refl hi Nh). reflexivity. }
        intros _ H2. exfalso.
        unfold F32.leb, SFleb in H2. unfold F32.ltb, SFltb in B.
        rewrite (SFcompare_antisym hi v) in H2.
        destruct (SFcompare hi v) as [[| |]|]; simpl in *; discriminate.
      * split; [apply ltb_false_leb_total; assumption|].
        split; [apply ltb_false_leb_total; assumption|].
        reflexivity.
Qed.

(** 0.9 * 1.3 is clamped to 1. *)
Lemma clampf_range_witness :
  (zero <=? clampf (c0_9 * c1_3)%f32 zero c1_0)%f32 = true /\
  (clampf (c0_9 * c1_3)%f32 zero c1_0 <=? c1_0)%f32 = true.
Proof.
  destruct (clampf_range (c0_9 * c1_3)%f32 zero c1_0 eq_refl)
    as [[N _] | (_ & H1 & H2 & _)].
  - discriminate N.
  - split; assumption.
Defined.

(** ** Colours *)

Lemma palette_rows : forall terrain,
  0 <= terrain < 256 ->
  exists cr cg cb ca,
    nth (Z.to_nat (if terrain <? HEX_TERRAIN_COUNT then terrain else 0)) palette []
      = [cr; cg; cb; ca] /\
    in_unit cr /\ in_unit cg /\ in_unit cb /\ in_unit ca /\
    in_unit (clampf (cr * c1_3)%f32 zero c1_0) /\
    in_unit (clampf (cg * c1_3)%f32 zero c1_0) /\
    in_unit (clampf (cb * c1_3)%f32 zero c1_0).
Proof.
  intros terrain H. unfold HEX_TERRAIN_COUNT.
  assert (C : terrain = 0 \/ terrain = 1 \/ terrain = 2 \/ terrain = 3 \/
              terrain = 4 \/ terrain = 5 \/ terrain = 6 \/ 7 <= terrain) by lia.
  destruct C as [C|[C|[C|[C|[C|[C|[C|C]]]]]]].
  1-7: subst terrain; do 4 eexists; split; [reflexivity|];
       repeat split; vm_compute; reflexivity.
  replace (terrain <? 7) with false by (symmetry; apply Z.ltb_ge; lia).
  do 4 eexists; split; [reflexivity|]; repeat split; vm_compute; reflexivity.
Qed.

(** X13: [hex_tile_palette] is total on the [uint8_t] terrain codes: it
    stores four components between 0 and 1, a code that is not below
    [HEX_TERRAIN_COUNT] gets the colour of Open terrain, and a null output
    pointer is left alone. *)
Theorem hex_tile_palette_total :
  forall terrain out,
    0 <= terrain < 256 -> length out = 4%nat ->
    (exists cr cg cb ca,
       hex_tile_palette terrain (Some out) = Some [cr; cg; cb; ca] /\
       in_unit cr /\ in_unit cg /\ in_unit cb /\ in_unit ca) /\
    (HEX_TERRAIN_COUNT <= terrain ->
     hex_tile_palette terrain (Some out) =
     hex_tile_palette (terrain_code HEX_TERRAIN_OPEN) (Some out)) /\
    hex_tile_palette terrain None = None.
Proof.
  intros terrain out H L.
  assert (S : skipn 4 out = []).
  { destruct out as [|a [|b [|c [|d [|e l]]]]]; try discriminate L. reflexivity. }
  split; [|split; [|reflexivity]].
  - destruct (palette_rows terrain H) as (cr & cg & cb & ca & E & U).
    exists cr, cg, cb, ca. unfold hex_tile_palette. rewrite E, S.
    split; [reflexivity|]. tauto.
  - intros G. unfold hex_tile_palette.
    replace (terrain <? HEX_TERRAIN_COUNT) with false
      by (symmetry; apply Z.ltb_ge; exact G).
    reflexivity.
Qed.

(** The terrain code 200 gets the colour of Open terrain. *)
Lemma hex_tile_palette_total_witness :
  hex_tile_palette 200 (Some [zero; zero; zero; zero]) =
  Some [c0_8; c0_82; c0_85; c0_65].
Proof.
  destruct (hex_tile_palette_total 200 [zero; zero; zero; zero]
              ltac:(lia) eq_refl) as (_ & F & _).
  rewrite (F ltac:(unfold HEX_TERRAIN_COUNT; lia)). reflexivity.
Defined.

(** ** Drawing *)

Lemma terrain_code_range : forall t, 0 <= terrain_code t < HEX_TERRAIN_COUNT.
Proof. intros []; unfold HEX_TERRAIN_COUNT; simpl; lia. Qed.

Lemma hex_instance_color : forall w sv sel i t,
  exists cr cg cb ca,
    inst_color (hex_instance w sv sel i t) = [cr; cg; cb; ca] /\
    in_unit cr /\ in_unit cg /\ in_unit cb /\ in_unit ca.
Proof.
  intros w sv sel i t. unfold hex_instance. cbn [inst_color].
  pose proof (terrain_code_range (terrain t)) as R.
  destruct (palette_rows (terrain_code (terrain t))
              ltac:(unfold HEX_TERRAIN_COUNT in R; lia))
    as (cr & cg & cb & ca & E & U1 & U2 & U3 & U4 & V1 & V2 & V3).
  unfold hex_tile_palette. rewrite E. cbn [skipn app nth].
  destruct (sv && (i =? sel)).
  - do 4 eexists. split; [reflexivity|].
    repeat split; try apply V1; try apply V2; try apply V3; reflexivity.
  - exists cr, cg, cb, ca. tauto.
Qed.

Lemma indexed_length : forall ts, length (indexed ts) = length ts.
Proof.
  intros ts. unfold indexed. rewrite length_combine, zrange_length.
  apply Nat.min_id.
Qed.

Lemma nth_error_combine :
  forall (A B : Type) (l1 : list A) (l2 : list B) (i : nat) (a : A) (b : B),
    nth_error l1 i = Some a -> nth_error l2 i = Some b ->
    nth_error (combine l1 l2) i = Some (a, b).
Proof.
  intros A B l1. induction l1 as [|x l1 IH]; intros l2 i a b H1 H2.
  - destruct i; discriminate H1.
  - destruct l2 as [|y l2]; [destruct i; discriminate H2|].
    destruct i as [|i]; simpl in *.
    + inversion H1; inversion H2; reflexivity.
    + apply IH; assumption.
Qed.

Lemma indexed_nth : forall ts i t,
  nth_error ts i = Some t -> nth_error (indexed ts) i = Some (Z.of_nat i, t).
Proof.
  intros ts i t H. unfold indexed.
  assert (L : (i < length ts)%nat) by (apply nth_error_Some; congruence).
  apply nth_error_combine; [|exact H].
  rewrite nth_error_zrange by exact L. reflexivity.
Qed.

Lemma filter_all : forall (A : Type) (f : A -> bool) (l : list A),
  (forall x, In x l -> f x = true) -> filter f l = l.
Proof.
  intros A f l. induction l as [|a l IH]; intros H; [reflexivity|].
  simpl. rewrite (H a (or_introl eq_refl)). f_equal.
  apply IH. intros x Hx. apply H. right. exact Hx.
Qed.

(** X14: [hex_draw_render] draws every tile of a generated lattice: with a
    context, a positive framebuffer and zoom and room for [count]
    instances, the instance array has exactly [count] entries, the entry
    at position [i] has the centre of the tile at position [i], and every
    colour, highlighted or not, has four components between 0 and 1. *)
Theorem draw_covers_every_tile :
  forall alloc w0 p ok w ts ensure sel dot fbw fbh zoom,
    hex_world_create alloc (Some w0) (Some p) = (ok, Some w) ->
    tiles w = Some ts ->
    q_span_of p < 2 ^ 31 -> r_span_of p < 2 ^ 31 ->
    0 < fbw -> 0 < fbh -> (zoom <=? zero)%f32 = false ->
    ensure (count w) = true ->
    exists insts,
      hex_draw_instances true ensure
        (Some (mkRenderHexParams (Some w) sel true dot)) fbw fbh zoom = Some insts /\
      Z.of_nat (length insts) = count w /\
      (forall i t, nth_error ts i = Some t ->
         exists inst cr cg cb ca,
           nth_error insts i = Some inst /\
           inst_center inst = (center_x t, center_y t) /\
           inst_color inst = [cr; cg; cb; ca] /\
           in_unit cr /\ in_unit cg /\ in_unit cb /\ in_unit ca).
Proof.
  intros alloc w0 p ok w ts ensure sel dot fbw fbh zoom H T Hqs Hrs Hw Hh Hz He.
  destruct (create_count_length alloc w0 p ok w ts H T Hqs Hrs) as (L & Hc & _).
  assert (Hv : filter (fun it : Z * HexTile =>
                         negb (Z.land (flags (snd it)) HEX_TILE_VISIBLE =? 0))
                 (firstn (Z.to_nat (count w)) (indexed ts)) = indexed ts).
  { rewrite <- L, Nat2Z.id, firstn_all2 by (rewrite indexed_length; lia).
    apply filter_all. intros [i t] Hin. cbn [snd].
    apply in_combine_r in Hin.
    destruct (hex_world_create_rule alloc w0 p ok w ts t H T Hin)
      as (_ & _ & _ & _ & _ & F).
    rewrite F. reflexivity. }
  unfold hex_draw_instances. cbn [rhp_enabled rhp_world rhp_selected_index negb orb].
  rewrite T. cbv zeta. rewrite Hv, indexed_length, L.
  replace (count w =? 0) with false by (symmetry; apply Z.eqb_neq; lia).
  replace (fbw <=? 0) with false by (symmetry; apply Z.leb_gt; lia).
  replace (fbh <=? 0) with false by (symmetry; apply Z.leb_gt; lia).
  rewrite Hz, He. cbn [negb orb].
  eexists. split; [reflexivity|].
  split; [rewrite length_map, indexed_length; exact L|].
  intros i t Hi.
  pose proof (indexed_nth ts i t Hi) as Hn.
  set (sv := negb (sel =? SIZE_MAX) && (sel <? count w)).
  destruct (hex_instance_color w sv sel (Z.of_nat i) t)
    as (cr & cg & cb & ca & Ec & U).
  exists (hex_instance w sv sel (Z.of_nat i) t), cr, cg, cb, ca.
  split; [|split; [reflexivity | split; [exact Ec | exact U]]].
  rewrite nth_error_map, Hn. reflexivity.
Qed.

(** The example lattice: 25 instances. *)
Lemma draw_covers_every_tile_witness :
  exists insts,
    hex_draw_instances true (fun _ => true)
      (Some (mkRenderHexParams (Some example_lattice) 12 true false))
      1280 720 c1_0 = Some insts /\
    Z.of_nat (length insts) = 25.
Proof.
  destruct (draw_covers_every_tile _ _ _ _ _ _ (fun _ => true) 12 false 1280 720
              c1_0 example_created example_tiles_eq
              ltac:(vm_compute; reflexivity) ltac:(vm_compute; reflexivity)
              ltac:(lia) ltac:(lia) eq_refl eq_refl)
    as (insts & H & L & _).
  exists insts. split; [exact H | exact L].
Defined.

(** ** The overlay *)

(** X15: the overlay that [app_rebuild_hex_world] leaves is consistent with
    the world it has built.  When [hex_world_create] fails the overlay is
    disabled; an enabled overlay refers to a world with a tile array of
    exactly [count > 0] tiles; a disabled one has no world and the
    selection is reset; a tile handed to [ui_set_selected_hex] is the
    selected index and lies in the array; and [render_hex_set] stores the
    parameters as they are handed over. *)
Theorem rebuild_overlay_safe :
  forall alloc g p show sel dot st,
    q_span_of p < 2 ^ 31 -> r_span_of p < 2 ^ 31 ->
    0 <= sel <= SIZE_MAX ->
    let '(w, show', o) := app_rebuild_hex_world alloc g p show sel dot in
    (fst (hex_world_create alloc (Some g) (Some p)) = false ->
     rhp_enabled (or_render o) = false) /\
    (rhp_enabled (or_render o) = true ->
     show' = true /\ rhp_world (or_render o) = Some w /\
     exists ts, tiles w = Some ts /\ Z.of_nat (length ts) = count w /\ 0 < count w) /\
    (rhp_enabled (or_render o) = false ->
     rhp_world (or_render o) = None /\ or_ui_tile o = None /\
     or_selected_index o = SIZE_MAX) /\
    (forall i, or_ui_tile o = Some i ->
       i = sel /\ or_selected_index o = sel /\ rhp_selected_index (or_render o) = sel /\
       exists ts t, tiles w = Some ts /\ nth_error ts (Z.to_nat i) = Some t) /\
    render_hex_set (Some st) (Some (or_render o)) = Some (or_render o).
Proof.
  intros alloc g p show sel dot st Hqs Hrs Hsel.
  unfold app_rebuild_hex_world. simpl hex_world_init.
  assert (Hz : forall s,
            app_refresh_hex_overlay s p zero_world sel dot =
            mkOverlayRefresh (mkRenderHexParams None SIZE_MAX false dot)
              (s && enabled (hex p)) dot None SIZE_MAX).
  { intros s. unfold app_refresh_hex_overlay. cbn [tiles zero_world].
    rewrite !andb_false_r. reflexivity. }
  destruct (enabled (hex p)) eqn:En; cbn [negb].
  2:{ rewrite Hz. cbn [or_render rhp_enabled rhp_world or_ui_tile or_selected_index].
      split; [reflexivity|]. split; [discriminate|]. split; [auto|].
      split; [discriminate|]. reflexivity. }
  change (hex_world_create alloc (Some zero_world) (Some p))
    with (hex_world_create alloc (Some g) (Some p)).
  destruct (hex_world_create alloc (Some g) (Some p)) as [ok [w|]] eqn:C.
  2:{ destruct (hex_world_create_some alloc g (Some p)) as [w' E].
      rewrite C in E. discriminate E. }
  cbn [snd fst].
  unfold app_refresh_hex_overlay. rewrite En, andb_true_r.
  destruct (tiles w) as [ts|] eqn:T.
  2:{ rewrite !andb_false_r. cbn [andb negb or_render rhp_enabled rhp_world
                                  or_ui_tile or_selected_index].
      split; [reflexivity|]. split; [discriminate|]. split; [auto|].
      split; [discriminate|]. reflexivity. }
  destruct (create_count_length alloc g p ok w ts C T Hqs Hrs) as (L & Hc & _).
  assert (Hok : ok = true).
  { pose proof (hex_world_create_cases alloc g (Some p)) as K. cbv zeta in K.
    rewrite C in K.
    destruct K as [[E _]|[[E _]|(p' & _ & _ & _ & _ & K)]];
      try (inversion E; subst; discriminate T).
    destruct K as [[_ E]|[(_ & _ & E)|(_ & _ & E)]];
      inversion E; subst; try discriminate T. reflexivity. }
  replace (count w >? 0) with true by (symmetry; apply Z.gtb_lt; lia).
  rewrite !andb_true_r.
  destruct show; cbn [andb negb].
  2:{ cbn [or_render rhp_enabled rhp_world or_ui_tile or_selected_index].
      split; [reflexivity|]. split; [discriminate|]. split; [auto|].
      split; [discriminate|]. reflexivity. }
  destruct (sel <? count w) eqn:S.
  - apply Z.ltb_lt in S.
    replace (sel =? SIZE_MAX) with false
      by (symmetry; apply Z.eqb_neq; unfold SIZE_MAX; lia).
    cbn [negb or_render rhp_enabled rhp_world or_ui_tile or_selected_index
         rhp_selected_index].
    split; [rewrite Hok; discriminate|].
    split; [intros _; split; [reflexivity|]; split; [reflexivity|];
            exists ts; auto; repeat split; auto; lia|].
    split; [discriminate|].
    split.
    + intros i E. injection E as <-. repeat split.
      destruct (nth_error ts (Z.to_nat sel)) as [t|] eqn:N.
      * exists ts, t. auto.
      * exfalso. apply nth_error_None in N. lia.
    + unfold render_hex_set.
      cbn [rhp_world rhp_enabled rhp_selected_index rhp_draw_on_top negb].
      replace (sel >=? count w) with false
        by (symmetry; rewrite Z.geb_leb; apply Z.leb_gt; lia).
      reflexivity.
  - rewrite Z.eqb_refl.
    cbn [negb or_render rhp_enabled rhp_world or_ui_tile or_selected_index
         rhp_selected_index].
    split; [rewrite Hok; discriminate|].
    split; [intros _; split; [reflexivity|]; split; [reflexivity|];
            exists ts; repeat split; auto; lia|].
    split; [discriminate|].
    split; [discriminate|].
    unfold render_hex_set.
    cbn [rhp_world rhp_enabled rhp_selected_index rhp_draw_on_top negb].
    replace (SIZE_MAX >=? count w) with true
      by (symmetry; rewrite Z.geb_leb; apply Z.leb_le; unfold SIZE_MAX; lia).
    reflexivity.
Qed.

(** Rebuilding with the example configuration and the selection 3: with
    memory the tile at position 3 is handed over, without memory the
    overlay is disabled. *)
Lemma rebuild_overlay_safe_witness :
  or_ui_tile (snd (app_rebuild_hex_world (fun _ => true) zero_world
                     example_params true 3 false)) = Some 3 /\
  (exists ts t, tiles example_lattice = Some ts /\ nth_error ts 3 = Some t) /\
  rhp_enabled (or_render (snd (app_rebuild_hex_world (fun _ => false) zero_world
                     example_params true 3 false))) = false.
Proof.
  pose proof (rebuild_overlay_safe (fun _ => true) zero_world example_params
                true 3 false (mkRenderHexParams None 0 false false)
                ltac:(vm_compute; reflexivity) ltac:(vm_compute; reflexivity)
                ltac:(vm_compute; split; discriminate)) as H.
  pose proof (rebuild_overlay_safe (fun _ => false) zero_world example_params
                true 3 false (mkRenderHexParams None 0 false false)
                ltac:(vm_compute; reflexivity) ltac:(vm_compute; reflexivity)
                ltac:(vm_compute; split; discriminate)) as H'.
  assert (E : app_rebuild_hex_world (fun _ => true) zero_world example_params
                true 3 false =
              (example_lattice, true,
               mkOverlayRefresh
                 (mkRenderHexParams (Some example_lattice) 3 true false)
                 true false (Some 3) 3)) by (vm_compute; reflexivity).
  rewrite E in H |- *. cbv beta iota in H.
  destruct H as (_ & _ & _ & H & _).
  destruct (H 3 eq_refl) as (_ & _ & _ & U).
  split; [reflexivity|]. split; [exact U|].
  destruct (app_rebuild_hex_world (fun _ => false) zero_world example_params
              true 3 false) as [[w s] o] eqn:E'.
  cbn [snd]. destruct H' as (F & _). apply F.
  vm_compute. reflexivity.
Defined.

(** ** Integers in single precision *)

Lemma binary_round_int : forall s n k,
  0 < n < 2 ^ 24 -> 0 <= k ->
  binary_round prec emax s (Z.to_pos (n * 2 ^ k)) (- k) = int_float s n.
Proof.
  intros s n k Hn Hk. unfold int_float.
  destruct (Zdigits2_bounds n ltac:(lia)) as [Hd Hb].
  assert (Hd24 : Zdigits2 n <= 24) by (apply Zdigits2_le; lia).
  assert (E24 : Zdigits2 (n * 2 ^ (24 - Zdigits2 n)) = 24)
    by (rewrite Zdigits2_shift by lia; lia).
  pose proof (pow2_pos k Hk) as Pk.
  rewrite binary_round_spec. unfold align32.
  change (Zpos (digits2_pos (Z.to_pos (n * 2 ^ k))))
    with (Zdigits2 (Zpos (Z.to_pos (n * 2 ^ k)))).
  rewrite Z2Pos.id by nia. rewrite Zdigits2_shift by lia.
  set (d := Zdigits2 n) in *.
  replace (fexp32 (d + k + - k)) with (d - 24) by (unfold fexp32; lia).
  pose proof (pow2_pos (24 - d) ltac:(lia)) as P.
  destruct (Z.ltb_spec (d - 24) (- k)) as [L|L]; cbn [fst snd].
  - replace (n * 2 ^ k * 2 ^ (- k - (d - 24))) with (n * 2 ^ (24 - d)).
    + rewrite round_pos_exact; [reflexivity | nia | | lia].
      rewrite E24. unfold fexp32. lia.
    + rewrite <- Z.mul_assoc, <- Z.pow_add_r by lia. do 2 f_equal. lia.
  - replace (n * 2 ^ k) with ((n * 2 ^ (24 - d)) * 2 ^ (k - (24 - d))).
    + replace (- k) with ((d - 24) - (k - (24 - d))) by lia.
      rewrite round_pos_shift; [reflexivity | nia | lia | | lia].
      rewrite E24. unfold fexp32. lia.
    + rewrite <- Z.mul_assoc, <- Z.pow_add_r by lia. do 2 f_equal. lia.
Qed.

Lemma binary_normalize_pos : forall n k,
  0 < n < 2 ^ 24 -> 0 <= k ->
  binary_normalize prec emax (n * 2 ^ k) (- k) false = int_float false n /\
  binary_normalize prec emax (- n * 2 ^ k) (- k) false = int_float true n.
Proof.
  intros n k Hn Hk. pose proof (pow2_pos k Hk) as Pk.
  rewrite <- !(binary_round_int _ n k Hn Hk).
  assert (Hp : 0 < n * 2 ^ k) by nia.
  replace (- n * 2 ^ k) with (- (n * 2 ^ k)) by ring.
  destruct (n * 2 ^ k) as [|p|p]; try lia. split; reflexivity.
Qed.

Lemma of_int_pos : forall n, 0 < n < 2 ^ 24 ->
  of_int n = int_float false n /\ of_int (- n) = int_float true n.
Proof.
  intros n Hn. destruct (binary_normalize_pos n 0 Hn ltac:(lia)) as [A B].
  change (2 ^ 0) with 1 in A, B. rewrite Z.mul_1_r in A, B.
  change (- 0) with 0 in A, B. split; assumption.
Qed.

(** The three shapes of [(float)z] for a small integer [z]. *)
Lemma of_int_cases : forall z, - 2 ^ 24 < z < 2 ^ 24 ->
  (z = 0 /\ of_int z = zero) \/
  (0 < z /\ of_int z = int_float false z) \/
  (z < 0 /\ of_int z = int_float true (- z)).
Proof.
  intros z Hz. destruct (Z.lt_trichotomy z 0) as [L|[E|G]].
  - right. right. split; [exact L|].
    destruct (of_int_pos (- z) ltac:(lia)) as [_ B].
    rewrite Z.opp_involutive in B. exact B.
  - left. subst z. split; reflexivity.
  - right. left. split; [exact G|]. apply of_int_pos. lia.
Qed.

Lemma binary_normalize_int : forall z k,
  - 2 ^ 24 < z < 2 ^ 24 -> 0 <= k ->
  binary_normalize prec emax (z * 2 ^ k) (- k) false = of_int z.
Proof.
  intros z k Hz Hk.
  destruct (of_int_cases z Hz) as [[E ->]|[[G ->]|[L ->]]].
  - subst z. reflexivity.
  - apply binary_normalize_pos; lia.
  - replace (z * 2 ^ k) with (- - z * 2 ^ k) by ring.
    apply binary_normalize_pos; lia.
Qed.

(** The mantissa of [int_float s n] at a lower exponent. *)
Lemma int_float_mantissa : forall n e,
  0 < n < 2 ^ 24 -> e <= Zdigits2 n - 24 ->
  Zpos (Z.to_pos (n * 2 ^ (24 - Zdigits2 n))) * 2 ^ (Zdigits2 n - 24 - e)
  = n * 2 ^ (- e).
Proof.
  intros n e Hn He.
  destruct (Zdigits2_bounds n ltac:(lia)) as [Hd Hb].
  assert (Hd24 : Zdigits2 n <= 24) by (apply Zdigits2_le; lia).
  pose proof (pow2_pos (24 - Zdigits2 n) ltac:(lia)) as P.
  rewrite Z2Pos.id by nia.
  rewrite <- Z.mul_assoc, <- Z.pow_add_r by lia. do 2 f_equal. lia.
Qed.

Lemma sub_int_float : forall sa a sb b,
  0 < a < 2 ^ 24 -> 0 < b < 2 ^ 24 ->
  - 2 ^ 24 < cond_Zopp sa a - cond_Zopp sb b < 2 ^ 24 ->
  (int_float sa a - int_float sb b)%f32 = of_int (cond_Zopp sa a - cond_Zopp sb b).
Proof.
  intros sa a sb b Ha Hb Hd. unfold int_float. rewrite sub_finite_spec.
  destruct (Zdigits2_bounds a ltac:(lia)) as [Hda _].
  assert (Hda24 : Zdigits2 a <= 24) by (apply Zdigits2_le; lia).
  destruct (Zdigits2_bounds b ltac:(lia)) as [Hdb _].
  assert (Hdb24 : Zdigits2 b <= 24) by (apply Zdigits2_le; lia).
  set (ez := Z.min (Zdigits2 a - 24) (Zdigits2 b - 24)).
  rewrite (int_float_mantissa a ez Ha ltac:(unfold ez; lia)).
  rewrite (int_float_mantissa b ez Hb ltac:(unfold ez; lia)).
  replace (cond_Zopp sa (a * 2 ^ (- ez)) - cond_Zopp sb (b * 2 ^ (- ez)))
    with ((cond_Zopp sa a - cond_Zopp sb b) * 2 ^ (- ez))
    by (destruct sa, sb; unfold cond_Zopp; ring).
  replace ez with (- (- ez)) at 2 by lia.
  apply binary_normalize_int; [exact Hd | unfold ez; lia].
Qed.

Lemma sub_of_int : forall a b,
  - 2 ^ 24 < a < 2 ^ 24 -> - 2 ^ 24 < b < 2 ^ 24 ->
  - 2 ^ 24 < a - b < 2 ^ 24 ->
  (of_int a - of_int b)%f32 = of_int (a - b).
Proof.
  intros a b Ha Hb Hd.
  destruct (of_int_cases a Ha) as [[Ea Fa]|[[Ga Fa]|[La Fa]]];
  destruct (of_int_cases b Hb) as [[Eb Fb]|[[Gb Fb]|[Lb Fb]]].
  - subst a b. reflexivity.
  - subst a. rewrite Fb. change (of_int 0) with zero.
    destruct (of_int_pos b ltac:(lia)) as [_ N].
    replace (0 - b) with (- b) by lia. rewrite N. reflexivity.
  - subst a. rewrite Fb. change (of_int 0) with zero.
    destruct (of_int_pos (- b) ltac:(lia)) as [P _].
    replace (0 - b) with (- b) by lia. rewrite P. reflexivity.
  - subst b. rewrite Fa. replace (a - 0) with a by lia.
    destruct (of_int_pos a ltac:(lia)) as [P _]. rewrite P. reflexivity.
  - rewrite Fa, Fb. rewrite sub_int_float by (unfold cond_Zopp; lia).
    reflexivity.
  - rewrite Fa, Fb. rewrite sub_int_float by (unfold cond_Zopp; lia).
    unfold cond_Zopp. f_equal. lia.
  - subst b. rewrite Fa. replace (a - 0) with a by lia.
    change (of_int 0) with zero. rewrite Fa. reflexivity.
  - rewrite Fa, Fb. rewrite sub_int_float by (unfold cond_Zopp; lia).
    unfold cond_Zopp. f_equal. lia.
  - rewrite Fa, Fb. rewrite sub_int_float by (unfold cond_Zopp; lia).
    unfold cond_Zopp. f_equal. lia.
Qed.

Lemma lrintf_int_float : forall s n, 0 < n < 2 ^ 24 ->
  lrintf (int_float s n) = cond_Zopp s n.
Proof.
  intros s n Hn. unfold int_float, lrintf, round_half_even.
  destruct (Zdigits2_bounds n ltac:(lia)) as [Hd _].
  assert (Hd24 : Zdigits2 n <= 24) by (apply Zdigits2_le; lia).
  pose proof (pow2_pos (24 - Zdigits2 n) ltac:(lia)) as P.
  rewrite Z2Pos.id by nia.
  set (d := Zdigits2 n) in *.
  assert (R : (if 0 <=? d - 24
               then n * 2 ^ (24 - d) * 2 ^ (d - 24)
               else
                 match 2 * ((n * 2 ^ (24 - d)) mod 2 ^ (- (d - 24)))
                       ?= 2 ^ (- (d - 24)) with
                 | Eq => if Z.even (n * 2 ^ (24 - d) / 2 ^ (- (d - 24)))
                         then n * 2 ^ (24 - d) / 2 ^ (- (d - 24))
                         else n * 2 ^ (24 - d) / 2 ^ (- (d - 24)) + 1
                 | Lt => n * 2 ^ (24 - d) / 2 ^ (- (d - 24))
                 | Gt => n * 2 ^ (24 - d) / 2 ^ (- (d - 24)) + 1
                 end) = n).
  { destruct (Z.leb_spec 0 (d - 24)) as [L|L].
    - assert (d = 24) by lia. replace (24 - d) with 0 by lia.
      replace (d - 24) with 0 by lia. change (2 ^ 0) with 1. lia.
    - replace (- (d - 24)) with (24 - d) by lia.
      rewrite Z.mod_mul, Z.div_mul by lia.
      change (2 * 0) with 0.
      destruct (Z.compare_spec 0 (2 ^ (24 - d))); try lia. }
  cbv zeta. rewrite R.
  unfold LONG_MIN, LONG_MAX.
  destruct s; unfold cond_Zopp.
  - replace ((- 2 ^ 63 <=? - n) && (- n <=? 2 ^ 63 - 1)) with true; [reflexivity|].
    symmetry. apply andb_true_iff. split; apply Z.leb_le; lia.
  - replace ((- 2 ^ 63 <=? n) && (n <=? 2 ^ 63 - 1)) with true; [reflexivity|].
    symmetry. apply andb_true_iff. split; apply Z.leb_le; lia.
Qed.

Lemma lrintf_of_int : forall z, - 2 ^ 24 < z < 2 ^ 24 ->
  to_int32 (lrintf (of_int z)) = z.
Proof.
  intros z Hz.
  assert (E : lrintf (of_int z) = z).
  { destruct (of_int_cases z Hz) as [[E ->]|[[G ->]|[L ->]]].
    - subst z. reflexivity.
    - rewrite lrintf_int_float by lia. reflexivity.
    - rewrite lrintf_int_float by lia. unfold cond_Zopp. lia. }
  rewrite E. unfold to_int32. rewrite Z.mod_small; lia.
Qed.

Lemma neg_of_int : forall z, - 2 ^ 24 < z < 2 ^ 24 -> z <> 0 ->
  neg (of_int z) = of_int (- z).
Proof.
  intros z Hz Hne.
  destruct (of_int_cases z Hz) as [[E _]|[[G F]|[L F]]]; [contradiction| |].
  - destruct (of_int_pos z ltac:(lia)) as [_ N]. rewrite F, N. reflexivity.
  - destruct (of_int_pos (- z) ltac:(lia)) as [P _]. rewrite F, P. reflexivity.
Qed.

(** The third cube coordinate of an integer point: the float of
    [- q - r], or the negative zero when both are zero. *)
Lemma cube_s_of_int : forall qv rv,
  - 2 ^ 23 < qv < 2 ^ 23 -> - 2 ^ 23 < rv < 2 ^ 23 ->
  (neg (of_int qv) - of_int rv)%f32 = of_int (- qv - rv) \/
  (qv = 0 /\ rv = 0 /\ (neg (of_int qv) - of_int rv)%f32 = S754_zero true).
Proof.
  intros qv rv Hq Hr. change (2 ^ 23) with 8388608 in *.
  destruct (Z.eq_dec qv 0) as [->|Nq].
  - change (neg (of_int 0)) with (S754_zero true).
    destruct (Z.eq_dec rv 0) as [->|Nr]; [right; auto|].
    left. replace (- 0 - rv) with (- rv) by lia.
    rewrite <- neg_of_int by (change (2 ^ 24) with 16777216; lia).
    destruct (of_int_cases rv ltac:(change (2 ^ 24) with 16777216; lia))
      as [[E _]|[[G ->]|[L ->]]]; [contradiction | reflexivity | reflexivity].
  - left. rewrite neg_of_int by (change (2 ^ 24) with 16777216; lia).
    apply sub_of_int; change (2 ^ 24) with 16777216; lia.
Qed.

Lemma sub_self_of_int : forall z, - 2 ^ 24 < z < 2 ^ 24 ->
  fabsf (of_int z - of_int z)%f32 = zero.
Proof.
  intros z Hz. rewrite sub_of_int by lia. rewrite Z.sub_diag. reflexivity.
Qed.

(** X16: [hex_axial_round] is the identity on integer points: for integers
    q and r of magnitude below 2^23, converted to float, the three rounding
    errors are zero and the result is (q,r). *)
Theorem axial_round_integers :
  forall qv rv,
    - 2 ^ 23 < qv < 2 ^ 23 -> - 2 ^ 23 < rv < 2 ^ 23 ->
    round_diffs (of_int qv) (of_int rv) = (zero, zero, zero) /\
    hex_axial_round (of_int qv) (of_int rv) = (qv, rv).
Proof.
  intros qv rv Hq Hr.
  assert (Hq' : - 2 ^ 24 < qv < 2 ^ 24)
    by (change (2 ^ 23) with 8388608 in *; change (2 ^ 24) with 16777216; lia).
  assert (Hr' : - 2 ^ 24 < rv < 2 ^ 24)
    by (change (2 ^ 23) with 8388608 in *; change (2 ^ 24) with 16777216; lia).
  assert (Hs' : - 2 ^ 24 < - qv - rv < 2 ^ 24)
    by (change (2 ^ 23) with 8388608 in *; change (2 ^ 24) with 16777216; lia).
  assert (D : round_diffs (of_int qv) (of_int rv) = (zero, zero, zero)).
  { unfold round_diffs.
    rewrite (lrintf_of_int qv Hq'), (lrintf_of_int rv Hr').
    rewrite (sub_self_of_int qv Hq'), (sub_self_of_int rv Hr').
    destruct (cube_s_of_int qv rv Hq Hr) as [E | (-> & -> & E)]; rewrite E.
    - rewrite (lrintf_of_int _ Hs'), (sub_self_of_int _ Hs'). reflexivity.
    - reflexivity. }
  split; [exact D|].
  pose proof (hex_axial_round_cases (of_int qv) (of_int rv)) as C.
  rewrite D in C. rewrite C. cbn.
  unfold none_recomputed, rounded_cube.
  rewrite (lrintf_of_int qv Hq'), (lrintf_of_int rv Hr'). reflexivity.
Qed.

(** The largest admitted magnitudes. *)
Lemma axial_round_integers_witness :
  hex_axial_round (of_int (-8388607)) (of_int 8388607) = (-8388607, 8388607).
Proof.
  destruct (axial_round_integers (-8388607) 8388607
              ltac:(vm_compute; split; reflexivity)
              ltac:(vm_compute; split; reflexivity)) as [_ H].
  exact H.
Defined.

(** ** Picking the centre of a tile *)

Lemma make_tile_center : forall p w1 qv rv,
  center_x (make_tile p w1 qv rv) =
    ((SQRT3 * cell_size w1) * (of_int qv + of_int rv * c0_5) + origin_x w1)%f32 /\
  center_y (make_tile p w1 qv rv) =
    ((c1_5 * cell_size w1) * of_int rv + origin_y w1)%f32.
Proof.
  intros p w1 qv rv. unfold make_tile.
  destruct (assign_tile_defaults_frame (Some p) w1
              (mkHexTile (to_int16 qv) (to_int16 rv) HEX_TERRAIN_OPEN
                 zero zero zero zero
                 (origin_x w1 + (SQRT3 * cell_size w1) *
                    (of_int qv + of_int rv * c0_5))%f32
                 (origin_y w1 + (c1_5 * cell_size w1) * of_int rv)%f32 0))
    as (_ & _ & Fx & Fy).
  rewrite Fx, Fy. cbn [center_x center_y].
  rewrite (add_comm32 (origin_x w1)), (add_comm32 (origin_y w1)). auto.
Qed.

Lemma validated_fields :
  forall alloc w0 p ok w ts,
    params_validate_hex p = true ->
    hex_world_create alloc (Some w0) (Some p) = (ok, Some w) ->
    tiles w = Some ts ->
    ok = true /\
    cell_size w = hex_cell_size (hex p) /\ origin_x w = hex_origin_x (hex p) /\
    origin_y w = hex_origin_y (hex p) /\
    q_min w = hex_q_min (hex p) /\ q_max w = hex_q_max (hex p) /\
    r_min w = hex_r_min (hex p) /\ r_max w = hex_r_max (hex p).
Proof.
  intros alloc w0 p ok w ts V H T.
  destruct (hex_world_create_validated alloc w0 p ok w ts V H T)
    as (Hok & Ew & _).
  rewrite Ew. simpl. repeat split. exact Hok.
Qed.

Lemma window_48_640_360 :
  all_cells (probe_world (of_int 48) (of_int 640) (of_int 360) (-10) 10)
    (round_trip_ok
       (Some (probe_world (of_int 48) (of_int 640) (of_int 360) (-10) 10)))
  = true.
Proof. vm_compute. reflexivity. Qed.

(** X17: picking the centre of a tile selects that tile.  For a validated
    configuration with cell size 48, origin (640,360) and bounds within
    [-10,10] x [-10,10] (the default configuration has these), and any
    colony parameters, [hex_world_pick] at the centre of a tile returns the
    tile's own (q,r) and the position of the tile in the array. *)
Theorem pick_tile_center :
  forall alloc w0 p ok w ts t,
    params_validate_hex p = true ->
    hex_world_create alloc (Some w0) (Some p) = (ok, Some w) ->
    tiles w = Some ts ->
    hex_cell_size (hex p) = of_int 48 ->
    hex_origin_x (hex p) = of_int 640 -> hex_origin_y (hex p) = of_int 360 ->
    -10 <= hex_q_min (hex p) -> hex_q_max (hex p) <= 10 ->
    -10 <= hex_r_min (hex p) -> hex_r_max (hex p) <= 10 ->
    In t ts ->
    exists i,
      hex_world_pick (Some w) (center_x t) (center_y t) = Some (q t, r t, i) /\
      nth_error ts (Z.to_nat i) = Some t.
Proof.
  intros alloc w0 p ok w ts t V H T Hcs Hox Hoy Q1 Q2 R1 R2 Hin.
  destruct (validated_fields alloc w0 p ok w ts V H T)
    as (_ & Fc & Fx & Fy & Fq1 & Fq2 & Fr1 & Fr2).
  destruct (validated_cell alloc w0 p ok w ts V H T)
    as (w1 & Ec & Ex & Ey & I1 & I2 & I3 & I4 & _ & _ & _ & _ & _ & _ & Hall & Hcell).
  destruct (Hall t Hin) as (qv & rv & Hq & Hr & ->).
  destruct (make_tile_qr p w1 qv rv) as [Eq Er].
  destruct (make_tile_center p w1 qv rv) as [Cx Cy].
  rewrite Eq, Er, !to_int16_id by lia.
  destruct (Hcell qv rv Hq Hr) as (Hb & Hidx & Hlt & Hn & _).
  cbv zeta in Hidx, Hlt, Hn.
  assert (Hrt : round_trip (Some w) qv rv = (qv, rv)).
  { apply (round_trip_window (of_int 48) (of_int 640) (of_int 360) (-10) 10).
    - exact window_48_640_360.
    - rewrite T. discriminate.
    - congruence.
    - congruence.
    - congruence.
    - lia.
    - lia. }
  unfold round_trip, hex_axial_to_world in Hrt. rewrite T in Hrt.
  rewrite <- Ec, <- Ex, <- Ey, <- Cx, <- Cy in Hrt.
  exists ((rv - r_min w) * width w + (qv - q_min w)).
  split; [|exact Hn].
  unfold hex_world_pick. rewrite T.
  destruct (hex_world_to_axial_f (Some w) (center_x (make_tile p w1 qv rv))
              (center_y (make_tile p w1 qv rv))) as [qf rf].
  rewrite Hrt, Hb, Hidx. simpl negb. cbv iota.
  replace ((rv - r_min w) * width w + (qv - q_min w) =? SIZE_MAX) with false;
    [reflexivity|].
  symmetry. apply Z.eqb_neq.
  destruct (validated_cell alloc w0 p ok w ts V H T)
    as (_ & _ & _ & _ & _ & _ & _ & _ & Wp & Hp & EW & EH & EC & _).
  unfold SIZE_MAX, INT16_MIN, INT16_MAX in *. nia.
Qed.

(** The Entrance cell (-4,2) of the default lattice. *)
Lemma pick_tile_center_witness :
  exists t i, nth_error default_tiles 195 = Some t /\
              hex_world_pick (Some default_lattice) (center_x t) (center_y t)
              = Some (q t, r t, i).
Proof.
  assert (Hc : hex_world_create (fun _ => true) (Some zero_world)
                 (Some params_init_defaults) = (true, Some default_lattice))
    by (vm_compute; reflexivity).
  assert (Ht : tiles default_lattice = Some default_tiles)
    by (vm_compute; reflexivity).
  destruct (nth_error default_tiles 195) as [t|] eqn:E;
    [|vm_compute in E; discriminate E].
  pose proof (nth_error_In _ _ E) as Hin.
  destruct (pick_tile_center (fun _ => true) zero_world params_init_defaults true
              default_lattice default_tiles t eq_refl Hc Ht
              ltac:(vm_compute; reflexivity) ltac:(vm_compute; reflexivity)
              ltac:(vm_compute; reflexivity)
              ltac:(vm_compute; discriminate) ltac:(vm_compute; discriminate)
              ltac:(vm_compute; discriminate) ltac:(vm_compute; discriminate)
              Hin) as (i & P & _).
  exists t, i. split; [reflexivity | exact P].
Defined.

(** ** A cell size that is not a number *)

Lemma mul_nan_r : forall x : f32, (x * S754_nan)%f32 = S754_nan.
Proof. intros []; reflexivity. Qed.

Lemma add_nan_r : forall x : f32, (x + S754_nan)%f32 = S754_nan.
Proof. intros []; reflexivity. Qed.

Lemma sub_nan_r : forall x : f32, (x - S754_nan)%f32 = S754_nan.
Proof. intros []; reflexivity. Qed.

Lemma div_nan_r : forall x : f32, (x / S754_nan)%f32 = S754_nan.
Proof. intros []; reflexivity. Qed.

Lemma leb_nan_r : forall x : f32, (x <=? S754_nan)%f32 = false.
Proof. intros []; reflexivity. Qed.

Lemma ltb_nan_r : forall x : f32, (x <? S754_nan)%f32 = false.
Proof. intros []; reflexivity. Qed.

(** X18: a cell size that is not a number passes the hex checks of
    [params_validate] (the test is [cell_size <= 0]); the lattice is built,
    every tile centre is NaN, no tile is Hive, Entrance or Flowers, and
    both coordinate conversions return NaN. *)
Theorem nan_cell_size_lattice :
  forall alloc w0 p ok w ts t x y,
    params_validate_hex p = true ->
    hex_cell_size (hex p) = S754_nan ->
    hex_world_create alloc (Some w0) (Some p) = (ok, Some w) ->
    tiles w = Some ts -> In t ts ->
    ok = true /\
    center_x t = S754_nan /\ center_y t = S754_nan /\
    terrain t <> HEX_TERRAIN_HIVE /\ terrain t <> HEX_TERRAIN_ENTRANCE /\
    terrain t <> HEX_TERRAIN_FLOWERS /\
    hex_axial_to_world (Some w) (q t) (r t) = (S754_nan, S754_nan) /\
    hex_world_to_axial_f (Some w) x y = (S754_nan, S754_nan).
Proof.
  intros alloc w0 p ok w ts t x y V N H T Hin.
  destruct (validated_fields alloc w0 p ok w ts V H T)
    as (Hok & Fc & _).
  destruct (hex_world_create_tiles alloc w0 p ok w ts H T)
    as (w1 & Ec & _ & _ & Hall).
  destruct (hex_world_create_rule alloc w0 p ok w ts t H T Hin)
    as (w2 & Ec2 & Ex2 & Ey2 & R & _).
  destruct (Hall t Hin) as (qv & rv & E).
  assert (Cn : cell_size w = S754_nan) by congruence.
  assert (Cx : center_x t = S754_nan /\ center_y t = S754_nan).
  { rewrite E. destruct (make_tile_center p w1 qv rv) as [Cx Cy].
    rewrite Cx, Cy, Ec, Cn, !mul_nan_r.
    split; [destruct (of_int qv + of_int rv * c0_5)%f32
           | destruct (of_int rv)]; destruct (origin_x w1), (origin_y w1);
      reflexivity. }
  destruct Cx as [Cx Cy].
  split; [exact Hok|]. split; [exact Cx|]. split; [exact Cy|].
  assert (Hh : in_hive_rect p t = false).
  { unfold in_hive_rect. rewrite Cx. unfold F32.geb.
    change (SFleb (rect_x (hive p)) S754_nan)
      with (rect_x (hive p) <=? S754_nan)%f32.
    rewrite leb_nan_r. reflexivity. }
  assert (He : entrance_axial_ok p w2 t = false).
  { unfold entrance_axial_ok. destruct (entrance_anchor p) as [ex ey].
    rewrite Cx, Cy.
    destruct ((entrance_side (hive p) =? 0) || (entrance_side (hive p) =? 1));
      [destruct ex | destruct ey]; reflexivity. }
  assert (Hd : (origin_dist w2 t >? cell_size w2 * c8)%f32 = false).
  { unfold origin_dist. rewrite Cx, Cy.
    assert (S : sqrtf ((S754_nan - origin_x w2) * (S754_nan - origin_x w2) +
                       (S754_nan - origin_y w2) * (S754_nan - origin_y w2))%f32
                = S754_nan)
      by (destruct (origin_x w2), (origin_y w2); reflexivity).
    rewrite S. unfold F32.gtb.
    change (SFltb (cell_size w2 * c8)%f32 S754_nan)
      with ((cell_size w2 * c8)%f32 <? S754_nan)%f32.
    apply ltb_nan_r. }
  split; [|split; [|split; [|split]]].
  - intros Ht. destruct R; congruence.
  - intros Ht. destruct R; congruence.
  - intros Ht. destruct R; congruence.
  - unfold hex_axial_to_world. rewrite T, Cn, !mul_nan_r.
    destruct (of_int (q t) + of_int (r t) * c0_5)%f32, (of_int (r t)),
      (origin_x w), (origin_y w); reflexivity.
  - unfold hex_world_to_axial_f. rewrite Cn, !div_nan_r. reflexivity.
Qed.

(** A validated configuration with a NaN cell size, and the centre tile of
    its lattice. *)
Lemma nan_cell_size_lattice_witness :
  params_validate_hex nan_params = true /\
  exists w ts t,
    hex_world_create (fun _ => true) (Some zero_world) (Some nan_params)
      = (true, Some w) /\
    tiles w = Some ts /\ nth_error ts 12 = Some t /\
    center_x t = S754_nan /\ terrain t <> HEX_TERRAIN_HIVE.
Proof.
  split; [reflexivity|].
  destruct (hex_world_create (fun _ => true) (Some zero_world) (Some nan_params))
    as [ok [w|]] eqn:C; [|vm_compute in C; discriminate C].
  destruct (tiles w) as [ts|] eqn:T;
    [|vm_compute in C; inversion C; subst; discriminate T].
  destruct (nth_error ts 12) as [t|] eqn:E;
    [|vm_compute in C; inversion C; subst; inversion T; subst; discriminate E].
  pose proof (nth_error_In _ _ E) as Hin.
  destruct (nan_cell_size_lattice (fun _ => true) zero_world nan_params ok w ts t
              zero zero eq_refl eq_refl C T Hin) as (Hok & Cx & _ & Nh & _).
  exists w, ts, t. rewrite Hok. auto.
Defined.

(** ** A symmetry of the noise *)

Lemma opp_odd_lxor : forall a, Z.odd a = true -> - a = Z.lxor a (-2).
Proof.
  intros a Ha.
  assert (E : Z.lxor a 1 = a - 1).
  { assert (L : Z.land (a - 1) 1 = 0).
    { change 1 with (Z.ones 1) at 2. rewrite Z.land_ones by lia.
      change (2 ^ 1) with 2.
      apply Z.odd_spec in Ha. destruct Ha as [k ->].
      replace (2 * k + 1 - 1) with (k * 2) by lia. apply Z.mod_mul. lia. }
    pose proof (Z.add_nocarry_lxor (a - 1) 1 L) as N.
    replace (a - 1 + 1) with a in N by lia.
    rewrite N at 1. rewrite Z.lxor_assoc, Z.lxor_nilpotent, Z.lxor_0_r.
    reflexivity. }
  rewrite <- (Z.lnot_pred a), <- E, Z.lnot_lxor_r. reflexivity.
Qed.

Lemma land_lxor_distr : forall a b c,
  Z.land (Z.lxor a b) c = Z.lxor (Z.land a c) (Z.land b c).
Proof.
  intros a b c. apply Z.bits_inj'. intros n Hn.
  rewrite Z.land_spec, !Z.lxor_spec, !Z.land_spec.
  destruct (Z.testbit a n), (Z.testbit b n), (Z.testbit c n); reflexivity.
Qed.

Lemma to_uint32_opp_odd : forall a c,
  Z.odd a = true -> Z.odd c = true ->
  to_uint32 (to_uint32 (- a) * c) =
  Z.lxor (to_uint32 (to_uint32 a * c)) (2 ^ 32 - 2).
Proof.
  intros a c Ha Hc. unfold to_uint32.
  rewrite !Z.mul_mod_idemp_l by lia.
  replace (- a * c) with (- (a * c)) by ring.
  rewrite (opp_odd_lxor (a * c)) by (rewrite Z.odd_mul, Ha, Hc; reflexivity).
  rewrite <- !Z.land_ones by lia.
  rewrite land_lxor_distr. reflexivity.
Qed.

(** X19: the noise is symmetric about the origin on the cells whose
    coordinates are both odd: [pseudo_noise01 (-q) (-r)] equals
    [pseudo_noise01 q r]. *)
Theorem noise_symmetric_on_odd_cells :
  forall qv rv,
    Z.odd qv = true -> Z.odd rv = true ->
    noise_hash (- qv) (- rv) = noise_hash qv rv /\
    pseudo_noise01 (- qv) (- rv) = pseudo_noise01 qv rv.
Proof.
  intros qv rv Hq Hr.
  assert (E : noise_hash (- qv) (- rv) = noise_hash qv rv).
  { unfold noise_hash.
    rewrite (to_uint32_opp_odd qv 73856093 Hq eq_refl).
    rewrite (to_uint32_opp_odd rv 19349663 Hr eq_refl).
    set (A := to_uint32 (to_uint32 qv * 73856093)).
    set (B := to_uint32 (to_uint32 rv * 19349663)).
    replace (Z.lxor (Z.lxor A (2 ^ 32 - 2)) (Z.lxor B (2 ^ 32 - 2)))
      with (Z.lxor A B); [reflexivity|].
    rewrite (Z.lxor_comm B), Z.lxor_assoc, <- (Z.lxor_assoc (2 ^ 32 - 2)).
    rewrite Z.lxor_nilpotent, Z.lxor_0_l. reflexivity. }
  split; [exact E|]. unfold pseudo_noise01. rewrite E. reflexivity.
Qed.

(** The cells (-1,7) and (1,-7). *)
Lemma noise_symmetric_on_odd_cells_witness :
  pseudo_noise01 (-1) 7 = pseudo_noise01 1 (-7).
Proof.
  destruct (noise_symmetric_on_odd_cells 1 (-7) eq_refl eq_refl) as [_ H].
  exact H.
Defined.

(** ** Colony parameters of an inactive colony *)

Lemma make_tile_no_hive : forall p p' w qv rv,
  hive_enabled p = false -> hive_enabled p' = false ->
  make_tile p w qv rv = make_tile p' w qv rv.
Proof.
  intros p p' w qv rv H H'. unfold make_tile, assign_tile_defaults.
  rewrite H, H'. reflexivity.
Qed.

Lemma build_tiles_no_hive : forall p p' w qlo qn rlo rn,
  hive_enabled p = false -> hive_enabled p' = false ->
  build_tiles p w qlo qn rlo rn = build_tiles p' w qlo qn rlo rn.
Proof.
  intros p p' w qlo qn rlo rn H H'. unfold build_tiles.
  apply flat_map_ext. intros rv. apply map_ext. intros qv.
  apply make_tile_no_hive; assumption.
Qed.

(** X20: the parameters of an inactive colony are not read: two
    configurations with the same hex group, both with a colony rectangle
    that is not of positive width and height, build the same lattice. *)
Theorem inactive_colony_is_not_read :
  forall alloc w0 p p',
    hex p = hex p' ->
    hive_enabled p = false -> hive_enabled p' = false ->
    hex_world_create alloc (Some w0) (Some p) =
    hex_world_create alloc (Some w0) (Some p').
Proof.
  intros alloc w0 p p' E H H'. unfold hex_world_create.
  cbn [hex_world_init hex_world_destroy]. cbv zeta.
  rewrite E.
  rewrite (build_tiles_no_hive p p' _ _ _ _ _ H H'). reflexivity.
Qed.

(** The example lattice is also built from a configuration whose colony
    rectangle has a negative width. *)
Lemma inactive_colony_is_not_read_witness :
  hex_world_create (fun _ => true) (Some zero_world)
    (Some (mkParams (mkHiveParams c1_0 c1_0 (of_int (-5)) S754_nan 3 c0_5 c8)
                    (hex example_params)))
  = (true, Some example_lattice).
Proof.
  rewrite (inactive_colony_is_not_read (fun _ => true) zero_world
             (mkParams (mkHiveParams c1_0 c1_0 (of_int (-5)) S754_nan 3 c0_5 c8)
                       (hex example_params))
             example_params eq_refl eq_refl eq_refl).
  exact example_created.
Defined.

(** ** Room for the instances *)

Lemma grow_capacity_spec : forall fuel c desired,
  0 < c -> desired <= 2 ^ 63 -> desired <= c * 2 ^ Z.of_nat fuel ->
  exists c', grow_capacity fuel c desired = Some c' /\
             desired <= c' /\ c <= c' /\ (c' = c \/ c' < 2 * desired).
Proof.
  induction fuel as [|f IH]; intros c desired Hc Hd Hf.
  - change (2 ^ Z.of_nat 0) with 1 in Hf. simpl.
    replace (c <? desired) with false by (symmetry; apply Z.ltb_ge; lia).
    exists c. split; [reflexivity|]. lia.
  - simpl grow_capacity. destruct (Z.ltb_spec c desired) as [L|L].
    + unfold to_size_t.
      rewrite Z.mod_small by (change (2 ^ 63) with 9223372036854775808 in Hd;
                              change (2 ^ 64) with 18446744073709551616; lia).
      destruct (IH (c * 2) desired ltac:(lia) Hd) as (c' & E & H1 & H2 & H3).
      { rewrite Nat2Z.inj_succ, Z.pow_succ_r in Hf by lia. lia. }
      exists c'. split; [exact E|]. lia.
    + exists c. split; [reflexivity|]. lia.
Qed.

(** X21: [ensure_capacity] returns for every request of at most 2^63
    instances: the doubling loop ends within 64 iterations and does not
    wrap.  On success the capacity left is at least the request; it is
    never below the previous capacity, and is the previous capacity, 256,
    or less than twice the request.  When the reallocation is refused the
    capacity is unchanged. *)
Theorem ensure_capacity_terminates :
  forall realloc capacity desired,
    0 <= capacity < 2 ^ 64 -> 0 <= desired <= 2 ^ 63 ->
    exists ok c,
      ensure_capacity 64 realloc capacity desired = Some (ok, c) /\
      (ok = true -> desired <= c) /\
      (ok = false -> c = capacity) /\
      capacity <= c /\
      (c = capacity \/ c = 256 \/ c < 2 * desired).
Proof.
  intros realloc capacity desired Hc Hd. unfold ensure_capacity.
  destruct (Z.eqb_spec desired 0) as [->|Hn].
  { exists true, capacity. split; [reflexivity|]. lia. }
  destruct (Z.leb_spec desired capacity) as [L|L].
  { exists true, capacity. split; [reflexivity|]. lia. }
  cbv zeta.
  set (c0 := if capacity =? 0 then 256 else capacity).
  assert (H0 : 0 < c0 /\ capacity <= c0 /\ (c0 = capacity \/ c0 = 256)).
  { unfold c0. destruct (Z.eqb_spec capacity 0); lia. }
  destruct (grow_capacity_spec 64 c0 desired ltac:(lia) ltac:(lia))
    as (c' & E & H1 & H2 & H3).
  { change (2 ^ Z.of_nat 64) with 18446744073709551616.
    change (2 ^ 63) with 9223372036854775808 in Hd. lia. }
  rewrite E.
  destruct (realloc (to_size_t (c' * SIZEOF_HEX_INSTANCE))); cbn [negb].
  - exists true, c'. split; [reflexivity|].
    split; [intros _; exact H1|]. split; [discriminate|]. lia.
  - exists false, capacity. split; [reflexivity|].
    split; [discriminate|]. split; [reflexivity|]. lia.
Qed.

(** Room for the 315 instances of the default lattice, from an empty
    context. *)
Lemma ensure_capacity_terminates_witness :
  exists ok c,
    ensure_capacity 64 (fun _ => true) 0 315 = Some (ok, c) /\
    (ok = true -> 315 <= c).
Proof.
  destruct (ensure_capacity_terminates (fun _ => true) 0 315
              ltac:(vm_compute; split; [discriminate | reflexivity])
              ltac:(vm_compute; split; discriminate))
    as (ok & c & E & H & _).
  exists ok, c. split; [exact E | exact H].
Defined.
